(** * Comment indexing pipeline: a shallow embedding and its properties

    The development follows three scripts of the archive tooling:

    - [organize_comments_static.py]: ingestion of the JSON log files,
      deduplication, chunked files, index and summary, the whole run of
      [process], and the paging method of the JavaScript loader that the
      script writes;
    - [analyze_comments.py]: the per-file analysis with its entry and error
      counters, and the statistics of [main];
    - [preindex_comments.py]: the index by video, the search index and the
      word-frequency / liked-words index.

    Python values keep their dynamic shape where the code tests it
    ([isinstance], truthiness, hashing); exceptions and mutable state are
    threaded through a small state-and-exception monad. *)

From Stdlib Require Import ZArith String Ascii List Lia Bool.
From stdpp Require Import base list gmap strings pretty sorting.

Open Scope string_scope.
Open Scope list_scope.
Open Scope nat_scope.

(** ** Python values *)

(** What [json.load] returns.  An object keeps its members in document order.
    Number literals with a fraction or an exponent (Python floats) are outside
    this model. *)
#[local] Unset Elimination Schemes.
Inductive json : Type :=
| JNull
| JBool (b : bool)
| JInt (z : Z)
| JStr (s : string)
| JList (l : list json)
| JDict (d : list (string * json)).
#[local] Set Elimination Schemes.

Inductive exn : Type :=
| TypeError
| AttributeError
| ValueError
| JSONDecodeError.

Inductive result (A : Type) : Type :=
| Ok (a : A)
| Raise (e : exn).
Arguments Ok {A} a.
Arguments Raise {A} e.

(** Truth value of an object, as tested by [if x:]. *)
Definition truthy (v : json) : bool :=
  match v with
  | JNull => false
  | JBool b => b
  | JInt z => negb (z =? 0)%Z
  | JStr s => negb (String.eqb s "")
  | JList l => match l with [] => false | _ => true end
  | JDict d => match d with [] => false | _ => true end
  end.

Definition isinstance_dict (v : json) : bool :=
  match v with JDict _ => true | _ => false end.

Definition isinstance_list (v : json) : bool :=
  match v with JList _ => true | _ => false end.

(** [d.get(key, default)] on a dict with string keys. *)
Fixpoint dict_get (d : list (string * json)) (key : string) (default : json) : json :=
  match d with
  | [] => default
  | (k, v) :: d' => if String.eqb k key then v else dict_get d' key default
  end.

Fixpoint chars (s : string) : list json :=
  match s with
  | EmptyString => []
  | String c s' => JStr (String c EmptyString) :: chars s'
  end.

(** What a [for x in v] loop visits; numbers, booleans and [None] are not
    iterable. *)
Definition py_iter (v : json) : result (list json) :=
  match v with
  | JList l => Ok l
  | JStr s => Ok (chars s)
  | JDict d => Ok (map (fun kv => JStr (fst kv)) d)
  | _ => Raise TypeError
  end.

(** Keys of dicts and members of sets, up to Python equality: [True] and [1]
    hash and compare equal, and so do [False] and [0]. *)
Inductive pykey : Type :=
| KNone
| KInt (z : Z)
| KStr (s : string).

#[global] Instance pykey_eq_dec : EqDecision pykey.
Proof. solve_decision. Defined.

(** Hashing fails on lists and dicts. *)
Definition hash_key (v : json) : result pykey :=
  match v with
  | JNull => Ok KNone
  | JBool b => Ok (KInt (if b then 1 else 0))
  | JInt z => Ok (KInt z)
  | JStr s => Ok (KStr s)
  | JList _ | JDict _ => Raise TypeError
  end.

(** ** State and exceptions *)

(** A computation over a state [S] that returns or raises.  The state reached
    when an exception is raised is kept: what a loop did before the exception
    stays done. *)
Definition M (S A : Type) : Type := S -> result A * S.

Definition ret {S A} (a : A) : M S A := fun s => (Ok a, s).

Definition bind {S A B} (m : M S A) (f : A -> M S B) : M S B :=
  fun s =>
    match m s with
    | (Ok a, s') => f a s'
    | (Raise e, s') => (Raise e, s')
    end.

Definition raise {S A} (e : exn) : M S A := fun s => (Raise e, s).

Definition get {S} : M S S := fun s => (Ok s, s).

Definition modify {S} (f : S -> S) : M S unit := fun s => (Ok tt, f s).

(** Lifting of a pure fallible step. *)
Definition lift {S A} (r : result A) : M S A := fun s => (r, s).

(** [try: m  except Exception as e: handler e] *)
Definition try_except {S A} (m : M S A) (handler : exn -> M S A) : M S A :=
  fun s =>
    match m s with
    | (Ok a, s') => (Ok a, s')
    | (Raise e, s') => handler e s'
    end.

Notation "'let!' x ':=' m 'in' k" := (bind m (fun x => k))
  (at level 10, x name, m at level 200, k at level 200, only parsing).

(** [for x in xs: body x] *)
Fixpoint for_each {S A} (xs : list A) (body : A -> M S unit) : M S unit :=
  match xs with
  | [] => ret tt
  | x :: xs' => let! _ := body x in for_each xs' body
  end.

(** A [for] loop that updates local variables [acc] of the enclosing
    function. *)
Fixpoint for_fold {S A B} (xs : list A) (acc : B) (body : B -> A -> M S B) : M S B :=
  match xs with
  | [] => ret acc
  | x :: xs' => let! acc' := body acc x in for_fold xs' acc' body
  end.

(** ** Insertion-ordered dicts *)

(** A Python dict keeps its keys in the order of their first insertion;
    assigning to a key that is present keeps its place. *)
Abbreviation odict K V := (list (K * V)).

Section odict.
Context {K V : Type} `{EqDecision K}.

Fixpoint dict_lookup (m : odict K V) (k : K) : option V :=
  match m with
  | [] => None
  | (k', v) :: m' => if decide (k' = k) then Some v else dict_lookup m' k
  end.

(** [m[k] = v] *)
Fixpoint dict_setitem (m : odict K V) (k : K) (v : V) : odict K V :=
  match m with
  | [] => [(k, v)]
  | (k', v') :: m' =>
      if decide (k' = k) then (k', v) :: m' else (k', v') :: dict_setitem m' k v
  end.

Definition dict_keys (m : odict K V) : list K := map fst m.
End odict.

Section defaultdict.
Context {K A : Type} `{EqDecision K}.

(** [m[k]] on a [defaultdict(list)], read-only view: a missing key reads as
    the empty list. *)
Definition dd_get (m : odict K (list A)) (k : K) : list A :=
  match dict_lookup m k with
  | Some l => l
  | None => []
  end.

(** [m[k].extend(xs)] on a [defaultdict(list)]: a missing key is created
    with an empty list before the extension. *)
Definition dd_extend (m : odict K (list A)) (k : K) (xs : list A) : odict K (list A) :=
  dict_setitem m k (dd_get m k ++ xs).

(** [m[k].append(x)] *)
Definition dd_append (m : odict K (list A)) (k : K) (x : A) : odict K (list A) :=
  dd_extend m k [x].
End defaultdict.

(** Dicts and sets whose keys are hashed Python objects. *)
Abbreviation pydict V := (odict pykey V).

(** ** Strings and paths *)

Definition startswith (s pre : string) : bool := String.prefix pre s.

Definition endswith (s suf : string) : bool :=
  let n := String.length s in
  let m := String.length suf in
  (m <=? n) && String.eqb (String.substring (n - m) m s) suf.

(** [str(n)] for a non-negative integer. *)
Definition str_of_nat (n : nat) : string := pretty n.

(** [os.path.join(a, b)] on POSIX. *)
Definition path_join (a b : string) : string :=
  if startswith b "/" then b
  else if String.eqb a "" || endswith a "/" then a +:+ b
  else a +:+ "/" +:+ b.

(** ** Lists: [range] and slices *)

(** The values of [range(i, stop, step)] for a positive step.  The loop makes
    at most [stop - i] steps, which is the fuel [py_range] gives it. *)
Fixpoint range_loop (fuel i stop step : nat) : list nat :=
  match fuel with
  | 0 => []
  | S fuel' => if i <? stop then i :: range_loop fuel' (i + step) stop step else []
  end.

(** [range(start, stop, step)] for non-negative arguments; a zero step is a
    [ValueError]. *)
Definition py_range (start stop step : nat) : result (list nat) :=
  if step =? 0 then Raise ValueError
  else Ok (range_loop (stop - start) start stop step).

(** [l[i:j]] for non-negative [i] and [j]. *)
Definition slice {A} (l : list A) (i j : nat) : list A := take (j - i) (drop i l).

(** ** [organize_comments_static.py] *)

(** *** [parse_json_files] *)

(** The local variables of [parse_json_files]. *)
Record parse_state : Type := {
  shortcode_comments : pydict (list json);
  total_entries : nat
}.

Definition extend_comments (k : pykey) (comment_ids : list json) : M parse_state unit :=
  modify (fun st => {| shortcode_comments := dd_extend (shortcode_comments st) k comment_ids;
                       total_entries := total_entries st |}).

Definition count_entry : M parse_state unit :=
  modify (fun st => {| shortcode_comments := shortcode_comments st;
                       total_entries := total_entries st + 1 |}).

(** The body of [for log in entry.get('logs', [])]. *)
Definition parse_log (shortcode : json) (log : json) : M parse_state unit :=
  match log with
  | JDict d =>
      match dict_get d "storedIds" (JList []) with
      | JList comment_ids =>
          let! k := lift (hash_key shortcode) in
          extend_comments k comment_ids
      | _ => ret tt
      end
  | _ => ret tt
  end.

(** The body of [for uuid, entry in data.items()]. *)
Definition parse_entry (entry : json) : M parse_state unit :=
  match entry with
  | JDict e =>
      let shortcode := dict_get e "target" (JStr "") in
      if truthy shortcode then
        let! logs := lift (py_iter (dict_get e "logs" (JList []))) in
        let! _ := for_each logs (parse_log shortcode) in
        count_entry
      else ret tt
  | _ => ret tt
  end.

(** One file: [None] is a file that [open] or [json.load] rejects.  Only a
    dict has [items]; whatever the [try] block raises ends the work on this
    file and the loop goes on to the next one. *)
Definition parse_file (content : option json) : M parse_state unit :=
  try_except
    match content with
    | None => raise JSONDecodeError
    | Some (JDict data) => for_each (map snd data) parse_entry
    | Some _ => raise AttributeError
    end
    (fun _ => ret tt).

Definition is_json_file (f : string) : bool :=
  endswith f ".json" && negb (startswith f "._").

(** The directory is given as its listing: file names with their contents. *)
Definition parse_json_files_loop (listing : list (string * option json)) : M parse_state unit :=
  let json_files := filter (fun f => is_json_file (fst f) = true) listing in
  for_each json_files (fun f => parse_file (snd f)).

Definition parse_json_files (listing : list (string * option json)) : parse_state :=
  snd (parse_json_files_loop listing {| shortcode_comments := []; total_entries := 0 |}).

(** *** [deduplicate_comments] *)

(** [dict.fromkeys(comments)]: each key is kept with the object that was
    inserted first; a later equal key changes nothing. *)
Definition fromkeys_step (seen : pydict json) (x : json) : result (pydict json) :=
  match hash_key x with
  | Ok k =>
      Ok match dict_lookup seen k with
         | Some _ => seen
         | None => seen ++ [(k, x)]
         end
  | Raise e => Raise e
  end.

Fixpoint fromkeys_loop (seen : pydict json) (xs : list json) : result (pydict json) :=
  match xs with
  | [] => Ok seen
  | x :: xs' =>
      match fromkeys_step seen x with
      | Ok seen' => fromkeys_loop seen' xs'
      | Raise e => Raise e
      end
  end.

(** [list(dict.fromkeys(comments))] *)
Definition list_dict_fromkeys (comments : list json) : result (list json) :=
  match fromkeys_loop [] comments with
  | Ok d => Ok (map snd d)
  | Raise e => Raise e
  end.

(** Dict objects live in a store and are passed by reference. *)
Abbreviation loc := nat.
Abbreviation heap := (gmap nat (pydict (list json))).

Definition heap_read (h : heap) (r : loc) : pydict (list json) :=
  match h !! r with
  | Some m => m
  | None => []
  end.

(** [d[k] = v] on the dict object at [r]. *)
Definition heap_setitem (r : loc) (k : pykey) (v : list json) : M heap unit :=
  modify (fun h => <[r := dict_setitem (heap_read h r) k v]> h).

(** The loop assigns to keys that are present only, so the items it visits
    are those the dict had on entry, each with the value it had then.  The
    function returns the reference it was given. *)
Definition deduplicate_comments (shortcode_comments : loc) : M heap loc :=
  let! h := get in
  let! _ := for_each (heap_read h shortcode_comments) (fun item =>
              let shortcode := fst item in
              let comments := snd item in
              let! unique_comments := lift (list_dict_fromkeys comments) in
              heap_setitem shortcode_comments shortcode unique_comments) in
  ret shortcode_comments.

(** *** [create_chunked_files] *)

Record chunk_data : Type := {
  cd_shortcode : string;
  cd_chunk_index : nat;
  cd_comment_ids : list json;
  cd_count : nat
}.

Record chunk_descriptor : Type := {
  index : nat;
  count : nat;
  file : string
}.

Record post_entry : Type := {
  total_comments : nat;
  chunks : list chunk_descriptor;
  chunk_count : nat
}.

Record stats_t : Type := {
  stats_total_posts : nat;
  stats_total_comments : nat;
  stats_total_chunks : nat
}.

Record index_data_t : Type := {
  posts : pydict post_entry;
  stats : stats_t
}.

Record summary_post : Type := {
  sp_shortcode : pykey;
  comment_count : nat
}.

(** What the scripts write to files. *)
Inductive artifact : Type :=
| ChunkFile (c : chunk_data)
| IndexFile (d : index_data_t)
| SummaryFile (post_list : list summary_post) (st : stats_t).

(** The organizer object, and next to it the files written so far, oldest
    first.  Creating directories and opening files for writing are taken to
    succeed. *)
Record organizer : Type := {
  comments_dir : string;
  output_dir : string;
  chunk_size : nat;
  index_data : index_data_t;
  written : list (string * artifact)
}.

(** [StaticCommentOrganizer.__init__] *)
Definition init (comments_dir output_dir : string) : organizer :=
  {| comments_dir := comments_dir;
     output_dir := output_dir;
     chunk_size := 1000;
     index_data := {| posts := [];
                      stats := {| stats_total_posts := 0;
                                  stats_total_comments := 0;
                                  stats_total_chunks := 0 |} |};
     written := [] |}.

Definition set_index_data (d : index_data_t) (self : organizer) : organizer :=
  {| comments_dir := comments_dir self;
     output_dir := output_dir self;
     chunk_size := chunk_size self;
     index_data := d;
     written := written self |}.

(** [with open(path, 'w') as f: json.dump(content, f)] *)
Definition write_file (path : string) (content : artifact) : M organizer unit :=
  modify (fun self =>
    {| comments_dir := comments_dir self;
       output_dir := output_dir self;
       chunk_size := chunk_size self;
       index_data := index_data self;
       written := written self ++ [(path, content)] |}).

(** [self.index_data['posts'][shortcode] = entry] *)
Definition set_post (shortcode : pykey) (entry : post_entry) : M organizer unit :=
  modify (fun self =>
    set_index_data {| posts := dict_setitem (posts (index_data self)) shortcode entry;
                      stats := stats (index_data self) |} self).

Definition set_stats (st : stats_t) : M organizer unit :=
  modify (fun self =>
    set_index_data {| posts := posts (index_data self); stats := st |} self).

(** [os.path.join] takes strings only. *)
Definition as_path_component (shortcode : pykey) : result string :=
  match shortcode with
  | KStr s => Ok s
  | _ => Raise TypeError
  end.

(** The body of [for i in range(0, len(comments), self.chunk_size)]; the
    locals it updates are [chunks] and [total_chunks]. *)
Definition write_chunk (shortcode post_dir : string) (comments : list json)
    (acc : list chunk_descriptor * nat) (i : nat) : M organizer (list chunk_descriptor * nat) :=
  let! self := get in
  let chunk := slice comments i (i + chunk_size self) in
  let chunk_index := i / chunk_size self in
  let chunk_data := {| cd_shortcode := shortcode;
                       cd_chunk_index := chunk_index;
                       cd_comment_ids := chunk;
                       cd_count := length chunk |} in
  let chunk_file := path_join post_dir ("chunk_" +:+ str_of_nat chunk_index +:+ ".json") in
  let! _ := write_file chunk_file (ChunkFile chunk_data) in
  ret (fst acc ++ [{| index := chunk_index;
                      count := length chunk;
                      file := "posts/" +:+ shortcode +:+ "/chunk_" +:+ str_of_nat chunk_index +:+ ".json" |}],
       snd acc + 1).

(** The body of [for shortcode, comments in shortcode_comments.items()]; the
    locals it updates are [total_comments] and [total_chunks]. *)
Definition chunk_post (acc : nat * nat) (item : pykey * list json) : M organizer (nat * nat) :=
  let shortcode := fst item in
  let comments := snd item in
  let total_comments := fst acc in
  let total_chunks := snd acc in
  match comments with
  | [] => ret acc
  | _ =>
      let! self := get in
      let! name := lift (as_path_component shortcode) in
      let post_dir := path_join (path_join (output_dir self) "posts") name in
      let! starts := lift (py_range 0 (length comments) (chunk_size self)) in
      let! res := for_fold starts ([], total_chunks) (write_chunk name post_dir comments) in
      let chunks := fst res in
      let! _ := set_post shortcode {| total_comments := length comments;
                                      chunks := chunks;
                                      chunk_count := length chunks |} in
      ret (total_comments + length comments, snd res)
  end.

Definition create_chunked_files (shortcode_comments : pydict (list json)) : M organizer unit :=
  let! totals := for_fold shortcode_comments (0, 0) chunk_post in
  let! self := get in
  set_stats {| stats_total_posts := length (posts (index_data self));
               stats_total_comments := fst totals;
               stats_total_chunks := snd totals |}.

(** *** [create_index_files] *)

(** [l.sort(key=key, reverse=True)]: descending by key, and stable: elements
    with equal keys stay in the order they had. *)
Fixpoint insert_desc {A} (key : A -> Z) (x : A) (l : list A) : list A :=
  match l with
  | [] => [x]
  | y :: l' => if (key x <? key y)%Z then y :: insert_desc key x l' else x :: l
  end.

Definition sort_reverse {A} (key : A -> Z) (l : list A) : list A :=
  foldr (insert_desc key) [] l.

Definition make_post_list (posts : pydict post_entry) : list summary_post :=
  map (fun item => {| sp_shortcode := fst item;
                      comment_count := total_comments (snd item) |}) posts.

Definition create_index_files : M organizer unit :=
  let! self := get in
  let index_file := path_join (output_dir self) "index.json" in
  let! _ := write_file index_file (IndexFile (index_data self)) in
  let post_list := make_post_list (posts (index_data self)) in
  let post_list := sort_reverse (fun x => Z.of_nat (comment_count x)) post_list in
  let summary_file := path_join (output_dir self) "summary.json" in
  write_file summary_file (SummaryFile post_list (stats (index_data self))).

(** ** [analyze_comments.py] *)

(** A Python set of hashable objects, as the list of its members' keys. *)
Definition set_add (s : list pykey) (k : pykey) : list pykey :=
  if decide (k ∈ s) then s else s ++ [k].

(** The local variables of [analyze_json_file]; [entries] is its
    [total_entries]. *)
Record analysis : Type := {
  shortcode_to_comments : pydict (list pykey);
  all_comment_ids : list json;
  entries : nat;
  error_entries : nat
}.

Definition set_shortcode_to_comments (m : pydict (list pykey)) (st : analysis) : analysis :=
  {| shortcode_to_comments := m;
     all_comment_ids := all_comment_ids st;
     entries := entries st;
     error_entries := error_entries st |}.

(** [shortcode_to_comments[k]]: the [defaultdict(set)] creates a missing key
    with an empty set. *)
Definition touch_set (k : pykey) : M analysis unit :=
  modify (fun st =>
    set_shortcode_to_comments
      (dict_setitem (shortcode_to_comments st) k (dd_get (shortcode_to_comments st) k)) st).

(** One step of [shortcode_to_comments[k].update(comment_ids)]: the member is
    hashed, then added. *)
Definition update_set (k : pykey) (x : json) : M analysis unit :=
  let! kx := lift (hash_key x) in
  modify (fun st =>
    set_shortcode_to_comments
      (dict_setitem (shortcode_to_comments st) k (set_add (dd_get (shortcode_to_comments st) k) kx)) st).

Definition extend_all_comment_ids (comment_ids : list json) : M analysis unit :=
  modify (fun st =>
    {| shortcode_to_comments := shortcode_to_comments st;
       all_comment_ids := all_comment_ids st ++ comment_ids;
       entries := entries st;
       error_entries := error_entries st |}).

Definition count_total : M analysis unit :=
  modify (fun st =>
    {| shortcode_to_comments := shortcode_to_comments st;
       all_comment_ids := all_comment_ids st;
       entries := entries st + 1;
       error_entries := error_entries st |}).

Definition count_error : M analysis unit :=
  modify (fun st =>
    {| shortcode_to_comments := shortcode_to_comments st;
       all_comment_ids := all_comment_ids st;
       entries := entries st;
       error_entries := error_entries st + 1 |}).

(** The body of [for log in logs]. *)
Definition analyze_log (shortcode : json) (log : json) : M analysis unit :=
  match log with
  | JDict d =>
      match dict_get d "storedIds" (JList []) with
      | JList comment_ids =>
          let! k := lift (hash_key shortcode) in
          let! _ := touch_set k in
          let! _ := for_each comment_ids (update_set k) in
          extend_all_comment_ids comment_ids
      | _ => ret tt
      end
  | _ => ret tt
  end.

(** The body of [for key, entry in items], with its own [try]. *)
Definition analyze_entry (entry : json) : M analysis unit :=
  try_except
    (let! _ := count_total in
     match entry with
     | JDict e =>
         let shortcode := dict_get e "target" (JStr "") in
         if truthy shortcode then
           match dict_get e "logs" (JList []) with
           | JList logs => for_each logs (analyze_log shortcode)
           | _ => ret tt
           end
         else ret tt
     | _ => count_error
     end)
    (fun _ => count_error).

(** [None] stands for the [(None, None, 0)] the function returns when the file
    cannot be loaded or holds neither a dict nor a list.  Besides the three
    values the function returns, the result records the error count it
    prints. *)
Definition analyze_json_file (content : option json) : option analysis :=
  let start := {| shortcode_to_comments := []; all_comment_ids := [];
                  entries := 0; error_entries := 0 |} in
  match content with
  | Some (JDict data) => Some (snd (for_each (map snd data) analyze_entry start))
  | Some (JList data) => Some (snd (for_each data analyze_entry start))
  | _ => None
  end.

(** ** [preindex_comments.py] *)

(** *** Text *)

(** Text is read character by character, and the functions of this part
    are those of Python on ASCII text, every character below 128: there
    [str.lower] changes [A] to [Z] only, [str.split] cuts at the ASCII white
    space, and [\w] and [\b] of [re] are read on the letters, the digits and
    the underscore.  Beyond ASCII the functions of Python follow Unicode and
    the definitions below do not describe them: a character above 127 is
    left as it is by [lower] and counts neither as a letter nor as white
    space.  The statements on words and rankings therefore take the texts
    to be ASCII ([ascii_text]). *)
Definition is_upper (c : ascii) : bool :=
  let n := nat_of_ascii c in (65 <=? n) && (n <=? 90).

Definition is_letter (c : ascii) : bool :=
  let n := nat_of_ascii c in
  ((65 <=? n) && (n <=? 90)) || ((97 <=? n) && (n <=? 122)).

(** A word character of the regular expressions: [\w]. *)
Definition is_word_char (c : ascii) : bool :=
  let n := nat_of_ascii c in
  is_letter c || ((48 <=? n) && (n <=? 57)) || (n =? 95).

(** White space of [str.split]: tab to carriage return, the four separators
    28 to 31, and the space. *)
Definition is_space (c : ascii) : bool :=
  let n := nat_of_ascii c in
  ((9 <=? n) && (n <=? 13)) || ((28 <=? n) && (n <=? 32)).

Definition lower_char (c : ascii) : ascii :=
  if is_upper c then ascii_of_nat (nat_of_ascii c + 32) else c.

(** [s.lower()], for ASCII [s]. *)
Definition lower (s : string) : string :=
  string_of_list_ascii (map lower_char (list_ascii_of_string s)).

(** The maximal runs of characters that satisfy [p], left to right; [cur] is
    the run being read, last character first. *)
Fixpoint runs_acc (p : ascii -> bool) (cur : list ascii) (s : list ascii) : list (list ascii) :=
  match s with
  | [] => match cur with [] => [] | _ => [rev cur] end
  | c :: s' =>
      if p c then runs_acc p (c :: cur) s'
      else match cur with [] => [] | _ => [rev cur] end ++ runs_acc p [] s'
  end.

Definition runs (p : ascii -> bool) (s : string) : list string :=
  map string_of_list_ascii (runs_acc p [] (list_ascii_of_string s)).

(** [s.split()], for ASCII [s]. *)
Definition split (s : string) : list string :=
  runs (fun c => negb (is_space c)) s.

Definition all_letters (w : string) : bool :=
  forallb is_letter (list_ascii_of_string w).

(** [re.findall(r'\b[a-zA-Z]{3,}\b', s)], for ASCII [s].  A match starts and
    ends at a word boundary and the pattern takes letters only, so the
    matches are the maximal runs of word characters that are made of letters
    and have three of them or more. *)
Definition findall_words (s : string) : list string :=
  filter (fun w => all_letters w && (3 <=? String.length w) = true) (runs is_word_char s).

(** [sep.join(l)] *)
Fixpoint join (sep : string) (l : list string) : string :=
  match l with
  | [] => ""
  | [x] => x
  | x :: l' => x +:+ sep +:+ join sep l'
  end.

Definition stop_words : list string :=
  ["the"; "a"; "an"; "and"; "or"; "but"; "in"; "on"; "at"; "to"; "for"; "of"; "with";
   "by"; "from"; "up"; "about"; "into"; "through"; "during"; "before"; "after";
   "above"; "below"; "between"; "among"; "throughout"; "alongside"; "towards";
   "i"; "you"; "he"; "she"; "it"; "we"; "they"; "me"; "him"; "her"; "us"; "them";
   "my"; "your"; "his"; "her"; "its"; "our"; "their"; "mine"; "yours"; "hers"; "ours"; "theirs";
   "am"; "is"; "are"; "was"; "were"; "be"; "been"; "being"; "have"; "has"; "had";
   "do"; "does"; "did"; "will"; "would"; "could"; "should"; "may"; "might"; "must";
   "this"; "that"; "these"; "those"; "here"; "there"; "where"; "when"; "why"; "how";
   "what"; "who"; "which"; "whose"; "whom"; "not"; "no"; "yes"; "can"; "cant";
   "dont"; "wont"; "im"; "youre"; "hes"; "shes"; "were"; "theyre"; "ive"; "youve";
   "also"; "just"; "really"; "very"; "so"; "too"; "now"; "then"; "well"; "still"].

(** *** Engagement records *)

(** A record of [comments.json].  The fields read with [comment[...]] are
    always there; a field read with [comment.get(..., default)] may be
    missing. *)
Record comment : Type := {
  video_id : string;
  comment_id : string;
  text : option string;
  author_display_name : option string;
  like_count : option Z;
  published_at : option string;
  published_at_timestamp : option Z
}.

Definition get_text (c : comment) : string := default "" (text c).
Definition get_like_count (c : comment) : Z := default 0%Z (like_count c).

(** *** [create_search_index] *)




(** *** [create_word_frequency_index] *)

(** [round(s / n)] for integers [n > 0] and [0 <= s < 2^52]: to the nearest
    integer, a tie to the even one.  The code divides in floating point;
    below [2^52] the float next to [s / n] lies on the same side of every
    half-integer as [s / n] itself, and is [s / n] when that is a
    half-integer, so [round] returns what the exact quotient gives.  Past
    that bound the two may differ; the statements on scores take the sum of
    the like counts to be below it. *)
Definition round_div (s n : Z) : Z :=
  let q := (s / n)%Z in
  let r := (s mod n)%Z in
  if (2 * r <? n)%Z then q
  else if (n <? 2 * r)%Z then (q + 1)%Z
  else if Z.even q then q else (q + 1)%Z.

Definition sum_Z (l : list Z) : Z := foldr Z.add 0%Z l.

(** The words of a text that count: [findall] on the lower-cased text, stop
    words dropped. *)
Definition content_words (s : string) : list string :=
  filter (fun w => w ∉ stop_words) (findall_words (lower s)).

(** [Counter(words)]: counts, keys in the order of their first occurrence. *)
Definition counter (words : list string) : odict string nat :=
  foldl (fun m w => dict_setitem m w (default 0 (dict_lookup m w) + 1)) [] words.

(** [Counter.most_common(n)] *)
Definition most_common (n : nat) (c : odict string nat) : list (string * nat) :=
  take n (sort_reverse (fun x => Z.of_nat (snd x)) c).

(** [sorted([c for c in l if c.get('like_count', 0) > 0],
            key=lambda x: x.get('like_count', 0), reverse=True)] *)
Definition liked_comments (video_comment_list : list comment) : list comment :=
  sort_reverse get_like_count
    (filter (fun c => (0 < get_like_count c)%Z) video_comment_list).

(** [liked_comments[:max(1, len(liked_comments) // 5)]] *)
Definition top_liked (video_comment_list : list comment) : list comment :=
  let liked := liked_comments video_comment_list in
  let top_20_percent := Nat.max 1 (length liked / 5) in
  take top_20_percent liked.

(** The loops that fill [word_like_totals]: one like count is appended for
    each occurrence of a word in a comment. *)
Definition add_comment_words (totals : odict string (list Z)) (c : comment) : odict string (list Z) :=
  foldl (fun m word => dd_append m word (get_like_count c)) totals (content_words (get_text c)).

Definition word_like_totals (top : list comment) : odict string (list Z) :=
  foldl add_comment_words [] top.

Record liked_word : Type := {
  lw_word : string;
  avgLikes : Z;
  lw_count : nat
}.

Definition liked_word_averages (totals : odict string (list Z)) : list liked_word :=
  omap (fun item =>
          let like_counts := snd item in
          if 2 <=? length like_counts then
            Some {| lw_word := fst item;
                    avgLikes := round_div (sum_Z like_counts) (Z.of_nat (length like_counts));
                    lw_count := length like_counts |}
          else None) totals.

Definition top_liked_words (video_comment_list : list comment) : list liked_word :=
  match top_liked video_comment_list with
  | [] => []
  | top => take 15 (sort_reverse avgLikes (liked_word_averages (word_like_totals top)))
  end.

Definition word_cloud (video_comment_list : list comment) : list (string * nat) :=
  let all_text := join " " (map get_text video_comment_list) in
  most_common 20 (counter (content_words all_text)).

Record word_freq : Type := {
  wf_word_cloud : list (string * nat);
  liked_words : list liked_word
}.

(** [video_comments[comment['video_id']].append(comment)] over all records. *)
Definition group_by_video (comments : list comment) : odict string (list comment) :=
  foldl (fun m c => dd_append m (video_id c) c) [] comments.

Definition create_word_frequency_index (comments : list comment) : odict string word_freq :=
  foldl (fun video_word_freq item =>
           dict_setitem video_word_freq (fst item)
             {| wf_word_cloud := word_cloud (snd item);
                liked_words := top_liked_words (snd item) |})
        [] (group_by_video comments).

(** *** [create_video_comment_index] *)

(** [p < q] on Python tuples of two integers. *)
Definition tuple_lt (p q : Z * Z) : bool :=
  (fst p <? fst q)%Z || ((fst p =? fst q)%Z && (snd p <? snd q)%Z).

(** [sorted(l, key=key)]: ascending by key, and stable. *)
Fixpoint insert_asc {A} (key : A -> Z * Z) (x : A) (l : list A) : list A :=
  match l with
  | [] => [x]
  | y :: l' => if tuple_lt (key y) (key x) then y :: insert_asc key x l' else x :: l
  end.

Definition sorted {A} (key : A -> Z * Z) (l : list A) : list A :=
  foldr (insert_asc key) [] l.

Definition get_timestamp (c : comment) : Z := default 0%Z (published_at_timestamp c).

(** [lambda x: (-x.get('like_count', 0), -x.get('published_at_timestamp', 0))] *)
Definition likes_then_date (c : comment) : Z * Z :=
  (- get_like_count c, - get_timestamp c)%Z.

Definition create_video_comment_index (comments : list comment) : odict string (list comment) :=
  foldl (fun indexed_comments item =>
           dict_setitem indexed_comments (fst item) (sorted likes_then_date (snd item)))
        [] (group_by_video comments).

(** *** [create_loader_script] *)

(** The text of [comment-database.js]. *)
Definition loader_script : string :=
"/**
 * Static Comment Database Loader
 * Loads comment data from chunked JSON files
 */
class CommentDatabase {
    constructor(databasePath) {
        this.databasePath = databasePath;
        this.index = null;
        this.cache = new Map();
    }
    
    async initialize() {
        try {
            const response = await fetch(`${this.databasePath}/index.json`);
            this.index = await response.json();
            console.log(`Loaded comment database: ${this.index.stats.total_posts} posts, ${this.index.stats.total_comments.toLocaleString()} comments`);
            return true;
        } catch (error) {
            console.error('Failed to load comment database index:', error);
            return false;
        }
    }
    
    async getCommentsForPost(shortcode, page = 1, limit = 50) {
        if (!this.index || !this.index.posts[shortcode]) {
            return { comments: [], total: 0, hasMore: false };
        }
        
        const postData = this.index.posts[shortcode];
        const startIndex = (page - 1) * limit;
        const endIndex = startIndex + limit;
        
        // Determine which chunks we need
        const neededChunks = [];
        let currentIndex = 0;
        
        for (const chunk of postData.chunks) {
            const chunkEnd = currentIndex + chunk.count;
            if (currentIndex < endIndex && chunkEnd > startIndex) {
                neededChunks.push(chunk);
            }
            currentIndex = chunkEnd;
        }
        
        // Load needed chunks
        const comments = [];
        for (const chunk of neededChunks) {
            const chunkKey = `${shortcode}-${chunk.index}`;
            
            if (!this.cache.has(chunkKey)) {
                try {
                    const response = await fetch(`${this.databasePath}/${chunk.file}`);
                    const chunkData = await response.json();
                    this.cache.set(chunkKey, chunkData.comment_ids);
                } catch (error) {
                    console.error(`Failed to load chunk ${chunk.file}:`, error);
                    continue;
                }
            }
            
            comments.push(...this.cache.get(chunkKey));
        }
        
        // Return paginated results
        return {
            comments: comments.slice(startIndex % limit, (startIndex % limit) + limit),
            total: postData.total_comments,
            hasMore: endIndex < postData.total_comments
        };
    }
    
    getPostCommentCount(shortcode) {
        if (!this.index || !this.index.posts[shortcode]) {
            return 0;
        }
        return this.index.posts[shortcode].total_comments;
    }
    
    getAllPosts() {
        if (!this.index) return [];
        return Object.keys(this.index.posts);
    }
}

// Export for use in the app
window.CommentDatabase = CommentDatabase;
".

(** The run of the organizer: the object with the JSON files it has written,
    and the text files written. *)
Record run_state : Type := {
  organizer_of : organizer;
  text_files : list (string * string)
}.

(** A method that works on the object only. *)
Definition on_organizer {A} (a : M organizer A) : M run_state A :=
  fun st =>
    match a (organizer_of st) with
    | (r, self') => (r, {| organizer_of := self'; text_files := text_files st |})
    end.

(** [with open(path, 'w') as f: f.write(text)] *)
Definition write_text (path text : string) : M run_state unit :=
  modify (fun st => {| organizer_of := organizer_of st;
                       text_files := text_files st ++ [(path, text)] |}).

Definition create_loader_script : M run_state unit :=
  let! st := get in
  let loader_file := path_join (output_dir (organizer_of st)) "comment-database.js" in
  write_text loader_file loader_script.

(** *** [clean_output_directory] *)

(** The method removes the output directory and makes it anew with its
    [posts] directory: it writes no file, and removing and making
    directories are taken to succeed. *)
Definition clean_output_directory : M organizer unit := ret tt.

(** *** [process] *)

(** [shortcode_comments = self.deduplicate_comments(shortcode_comments)]: the
    dict that [parse_json_files] returned is an object of the store, the
    method is given a reference to it, and the variable is bound to the
    object behind the reference that the method returns. *)
Definition deduplicate_local (shortcode_comments : pydict (list json))
    : result (pydict (list json)) :=
  match deduplicate_comments 0 {[ 0 := shortcode_comments ]} with
  | (Ok r, h) => Ok (heap_read h r)
  | (Raise e, _) => Raise e
  end.

(** The steps of [process] that write; the size it prints at the end is not
    part of the model.  The directory of the comment files is given as its
    listing. *)
Definition process (listing : list (string * option json)) : M run_state unit :=
  let! _ := on_organizer clean_output_directory in
  let shortcode_comments := shortcode_comments (parse_json_files listing) in
  let! shortcode_comments := lift (deduplicate_local shortcode_comments) in
  let! _ := on_organizer (create_chunked_files shortcode_comments) in
  let! _ := on_organizer create_index_files in
  create_loader_script.

(** *** The loader: [CommentDatabase.getCommentsForPost] *)

(** The method of the class that [loader_script] defines, run against an
    index as [initialize] has loaded it.  Numbers are taken to be integers;
    [None] is [NaN], which [%] gives for a zero divisor.  An exception is a
    rejected promise. *)

(** [a % b] *)
Definition js_rem (a b : Z) : option Z :=
  if (b =? 0)%Z then None else Some (Z.rem a b).

(** An argument of [slice] as a position in an array of length [len]: [NaN]
    is 0, a negative number counts from the end. *)
Definition js_position (len : nat) (i : option Z) : nat :=
  match i with
  | None => 0
  | Some i =>
      if (i <? 0)%Z then Z.to_nat (Z.max (Z.of_nat len + i) 0)
      else Nat.min (Z.to_nat i) len
  end.

(** [l.slice(a, b)] *)
Definition js_slice {A} (l : list A) (a b : option Z) : list A :=
  let k := js_position (length l) a in
  let final := js_position (length l) b in
  take (final - k) (drop k l).

(** The names that every object inherits from [Object.prototype]. *)
Definition object_prototype_properties : list string :=
  ["constructor"; "__proto__"; "hasOwnProperty"; "isPrototypeOf"; "propertyIsEnumerable";
   "toLocaleString"; "toString"; "valueOf"; "__defineGetter__"; "__defineSetter__";
   "__lookupGetter__"; "__lookupSetter__"].

(** [posts[shortcode]] on the object parsed from [index.json]: an entry of
    the object, a function or object that is inherited, or [undefined]. *)
Inductive property : Type :=
| Own (postData : post_entry)
| Inherited
| Undefined.

Definition get_property (posts : odict string post_entry) (shortcode : string) : property :=
  match dict_lookup posts shortcode with
  | Some postData => Own postData
  | None => if decide (shortcode ∈ object_prototype_properties) then Inherited else Undefined
  end.

(** What the method resolves to. *)
Record page_t : Type := {
  pg_comments : list json;
  pg_total : nat;
  pg_hasMore : bool
}.

(** The body of [for (const chunk of postData.chunks)]; the locals it updates
    are [neededChunks] and [currentIndex]. *)
Definition needed_step (startIndex endIndex : Z) (acc : list chunk_descriptor * Z)
    (chunk : chunk_descriptor) : list chunk_descriptor * Z :=
  let neededChunks := fst acc in
  let currentIndex := snd acc in
  let chunkEnd := (currentIndex + Z.of_nat (count chunk))%Z in
  (if (currentIndex <? endIndex)%Z && (startIndex <? chunkEnd)%Z
   then neededChunks ++ [chunk] else neededChunks,
   chunkEnd).

Definition needed_chunks (chunks : list chunk_descriptor) (startIndex endIndex : Z)
    : list chunk_descriptor :=
  fst (foldl (needed_step startIndex endIndex) ([], 0%Z) chunks).

(** The body of [for (const chunk of neededChunks)], over [this.cache];
    [fetch] gives the chunk data that the server has at a URL, [None] when
    the request or the parsing of the answer fails, and the chunk is then
    passed over.  The local it updates is [comments]. *)
Definition load_chunk (fetch : string -> option chunk_data) (databasePath shortcode : string)
    (comments : list json) (chunk : chunk_descriptor)
    : M (odict string (list json)) (list json) :=
  let chunkKey := shortcode +:+ "-" +:+ str_of_nat (index chunk) in
  let! cache := get in
  match dict_lookup cache chunkKey with
  | Some comment_ids => ret (comments ++ comment_ids)
  | None =>
      match fetch (databasePath +:+ "/" +:+ file chunk) with
      | Some chunkData =>
          let! _ := modify (fun cache => dict_setitem cache chunkKey (cd_comment_ids chunkData)) in
          ret (comments ++ cd_comment_ids chunkData)
      | None => ret comments
      end
  end.

(** [this.index] is [None] as long as the index is not loaded; a parameter
    that is not given has its default. *)
Definition getCommentsForPost (fetch : string -> option chunk_data) (databasePath : string)
    (index : option (odict string post_entry)) (shortcode : string) (page limit : option Z)
    : M (odict string (list json)) page_t :=
  let page := default 1%Z page in
  let limit := default 50%Z limit in
  let nothing := {| pg_comments := []; pg_total := 0; pg_hasMore := false |} in
  match index with
  | None => ret nothing
  | Some posts =>
      match get_property posts shortcode with
      | Undefined => ret nothing
      | Inherited => raise TypeError
      | Own postData =>
          let startIndex := ((page - 1) * limit)%Z in
          let endIndex := (startIndex + limit)%Z in
          let neededChunks := needed_chunks (chunks postData) startIndex endIndex in
          let! comments := for_fold neededChunks [] (load_chunk fetch databasePath shortcode) in
          let offset := js_rem startIndex limit in
          ret {| pg_comments := js_slice comments offset (option_map (fun o => (o + limit)%Z) offset);
                 pg_total := total_comments postData;
                 pg_hasMore := (endIndex <? Z.of_nat (total_comments postData))%Z |}
      end
  end.

(** ** [analyze_comments.py]: [main] *)

Record statistics : Type := {
  total_posts_in_metadata : nat;
  posts_with_comments : nat;
  total_comment_ids : nat;
  unique_comments : nat;
  duplicate_comments : nat;
  missing_posts : nat;
  extra_posts : nat;
  top_commented_posts : list (pykey * nat)
}.

(** The locals that the loop over the files updates; [collected_comment_ids]
    is the [all_comment_ids] of [main]. *)
Record aggregate : Type := {
  all_shortcodes_with_comments : list pykey;
  collected_comment_ids : list json;
  shortcode_comment_counts : pydict nat
}.

(** [shortcode_comment_counts[shortcode] += len(comments)] on a
    [defaultdict(int)] *)
Definition add_count (counts : pydict nat) (item : pykey * list pykey) : pydict nat :=
  dict_setitem counts (fst item) (default 0 (dict_lookup counts (fst item)) + length (snd item)).

(** The body of [for json_file in json_files]: a file for which
    [analyze_json_file] returns [None] or no post is passed over. *)
Definition aggregate_file (acc : aggregate) (content : option json) : aggregate :=
  match analyze_json_file content with
  | Some a =>
      match shortcode_to_comments a with
      | [] => acc
      | _ =>
          {| all_shortcodes_with_comments :=
               foldl set_add (all_shortcodes_with_comments acc)
                     (dict_keys (shortcode_to_comments a));
             collected_comment_ids := collected_comment_ids acc ++ all_comment_ids a;
             shortcode_comment_counts :=
               foldl add_count (shortcode_comment_counts acc) (shortcode_to_comments a) |}
      end
  | None => acc
  end.

(** [Counter(l)]: every member is hashed. *)
Fixpoint count_ids (acc : pydict nat) (l : list json) : result (pydict nat) :=
  match l with
  | [] => Ok acc
  | x :: l' =>
      match hash_key x with
      | Ok k => count_ids (dict_setitem acc k (default 0 (dict_lookup acc k) + 1)) l'
      | Raise e => Raise e
      end
  end.

Fixpoint lstrip_chars (l : list ascii) : list ascii :=
  match l with
  | [] => []
  | c :: l' => if is_space c then lstrip_chars l' else l
  end.

(** [s.strip()], for ASCII [s]: the white space removed at both ends is
    that of [is_space]. *)
Definition strip (s : string) : string :=
  string_of_list_ascii
    (rev (lstrip_chars (rev (lstrip_chars (list_ascii_of_string s))))).

(** The loop over the rows of the metadata file.  A row is given by what
    [row.get('Shortcode', '')] returns: [None] for a row that is too short to
    have the column, on which [strip] raises; the file is taken to be
    readable. *)
Fixpoint read_metadata (metadata_shortcodes : list string) (rows : list (option string))
    : result (list string) :=
  match rows with
  | [] => Ok metadata_shortcodes
  | None :: _ => Raise AttributeError
  | Some v :: rows' =>
      let shortcode := strip v in
      if String.eqb shortcode "" then read_metadata metadata_shortcodes rows'
      else if decide (shortcode ∈ metadata_shortcodes) then read_metadata metadata_shortcodes rows'
      else read_metadata (metadata_shortcodes ++ [shortcode]) rows'
  end.

(** [sorted(l)] on strings *)
Fixpoint insert_str (x : string) (l : list string) : list string :=
  match l with
  | [] => [x]
  | y :: l' => if String.ltb y x then y :: insert_str x l' else x :: l
  end.

Definition sorted_strings (l : list string) : list string := foldr insert_str [] l.

(** [main]: the directory of the comment files is given as its listing, the
    metadata file as its rows.  The result is the statistics written to
    [comment_statistics.json] and the lines of [missing_comment_posts.txt],
    if that file is written. *)
Definition analyze_main (listing : list (string * option json)) (rows : list (option string))
    : result (statistics * option (list string)) :=
  let json_files := filter (fun f => is_json_file (fst f) = true) listing in
  let agg := foldl aggregate_file
               {| all_shortcodes_with_comments := [];
                  collected_comment_ids := [];
                  shortcode_comment_counts := [] |}
               (map snd json_files) in
  match count_ids [] (collected_comment_ids agg) with
  | Raise e => Raise e
  | Ok comment_counter =>
      let unique_comments := length comment_counter in
      let duplicate_comments := length (filter (fun kv => 1 < snd kv) comment_counter) in
      match read_metadata [] rows with
      | Raise e => Raise e
      | Ok metadata_shortcodes =>
          let missing_posts :=
            filter (fun s => KStr s ∉ all_shortcodes_with_comments agg) metadata_shortcodes in
          let extra_posts :=
            filter (fun k => k ∉ map KStr metadata_shortcodes)
                   (all_shortcodes_with_comments agg) in
          Ok ({| total_posts_in_metadata := length metadata_shortcodes;
                 posts_with_comments := length (all_shortcodes_with_comments agg);
                 total_comment_ids := length (collected_comment_ids agg);
                 unique_comments := unique_comments;
                 duplicate_comments := duplicate_comments;
                 missing_posts := length missing_posts;
                 extra_posts := length extra_posts;
                 top_commented_posts :=
                   take 20 (sort_reverse (fun x => Z.of_nat (snd x))
                              (shortcode_comment_counts agg)) |},
              match missing_posts with
              | [] => None
              | _ => Some (sorted_strings missing_posts)
              end)
      end
  end.

(** ** Vocabulary of the statements *)

(** *** Order *)

(** Descending by key. *)
Definition descending {A} (key : A -> Z) (l : list A) : Prop :=
  StronglySorted (fun x y => (key y <= key x)%Z) l.

(** *** Deduplication *)

(** The identifiers of a sequence at their first occurrence. *)
Fixpoint first_occurrences (ids : list string) : list string :=
  match ids with
  | [] => []
  | x :: ids' => x :: filter (fun y => y <> x) (first_occurrences ids')
  end.

(** Position of the first occurrence of [x]; the length when there is none. *)
Fixpoint first_index (x : string) (l : list string) : nat :=
  match l with
  | [] => 0
  | y :: l' => if decide (x = y) then 0 else S (first_index x l')
  end.

(** The loop of [dict.fromkeys] on strings: [acc] holds the keys inserted so
    far. *)
Fixpoint dedup_acc (acc ids : list string) : list string :=
  match ids with
  | [] => acc
  | x :: ids' =>
      if decide (x ∈ acc) then dedup_acc acc ids' else dedup_acc (acc ++ [x]) ids'
  end.

(** The dict that [dict.fromkeys] has built when it has inserted the strings
    [acc]. *)
Definition str_keys (acc : list string) : pydict json :=
  map (fun s => (KStr s, JStr s)) acc.

(** [out] holds, key by key, the deduplicated sequences of [items]. *)
Definition deduplicated (items out : pydict (list json)) : Prop :=
  Forall2 (fun a b => fst a = fst b /\ list_dict_fromkeys (snd a) = Ok (snd b)) items out.

(** A dict whose comment identifiers are all strings. *)
Definition ids_dict (m : pydict (list string)) : pydict (list json) :=
  map (fun item => (fst item, map JStr (snd item))) m.

(** A value that [hash] accepts. *)
Definition hashable (v : json) : Prop :=
  match hash_key v with
  | Ok _ => True
  | Raise _ => False
  end.

(** *** Chunks *)

(** [ceil(n / c)] *)
Definition ceil_div (n c : nat) : nat := (n + c - 1) / c.

(** The chunk that starts at position [i] of a post's comments, its path and
    its descriptor. *)
Definition chunk_at (c : nat) (name : string) (comments : list json) (i : nat) : chunk_data :=
  {| cd_shortcode := name;
     cd_chunk_index := i / c;
     cd_comment_ids := slice comments i (i + c);
     cd_count := length (slice comments i (i + c)) |}.

(** The file written for that chunk. *)
Definition file_at (c : nat) (name post_dir : string) (comments : list json) (i : nat)
    : string * artifact :=
  (path_join post_dir ("chunk_" +:+ str_of_nat (i / c) +:+ ".json"),
   ChunkFile (chunk_at c name comments i)).

(** The descriptor the index keeps for that chunk. *)
Definition descriptor_at (c : nat) (name : string) (comments : list json) (i : nat)
    : chunk_descriptor :=
  {| index := i / c;
     count := length (slice comments i (i + c));
     file := "posts/" +:+ name +:+ "/chunk_" +:+ str_of_nat (i / c) +:+ ".json" |}.

(** The start positions of a post's chunks. *)
Definition starts_of (c : nat) (comments : list json) : list nat :=
  map (fun j => j * c) (seq 0 (ceil_div (length comments) c)).

(** The index entry of a post. *)
Definition entry_of (c : nat) (name : string) (comments : list json) : post_entry :=
  {| total_comments := length comments;
     chunks := map (descriptor_at c name comments) (starts_of c comments);
     chunk_count := length (map (descriptor_at c name comments) (starts_of c comments)) |}.

(** What a post adds to the files and to the index: nothing when it has no
    comment. *)
Definition item_files (out_dir : string) (c : nat) (item : pykey * list json)
    : list (string * artifact) :=
  match item with
  | (KStr name, (_ :: _) as comments) =>
      map (file_at c name (path_join (path_join out_dir "posts") name) comments)
          (starts_of c comments)
  | _ => []
  end.

(** The index entry an item of the mapping brings, if any. *)
Definition item_entry (c : nat) (item : pykey * list json) : option (pykey * post_entry) :=
  match item with
  | (KStr name, (_ :: _) as comments) => Some (KStr name, entry_of c name comments)
  | _ => None
  end.

(** The number of chunks an item of the mapping brings. *)
Definition item_chunk_count (c : nat) (item : pykey * list json) : nat :=
  match snd item with
  | [] => 0
  | comments => length (starts_of c comments)
  end.

(** The organizer with other posts and other files written. *)
Definition with_posts_written (self : organizer) (ps : pydict post_entry)
    (ws : list (string * artifact)) : organizer :=
  {| comments_dir := comments_dir self;
     output_dir := output_dir self;
     chunk_size := chunk_size self;
     index_data := {| posts := ps; stats := stats (index_data self) |};
     written := ws |}.

(** An item whose post identifier is a string. *)
Definition str_key (item : pykey * list json) : Prop :=
  exists name, fst item = KStr name.

(** The chunks written for the post [name], oldest first. *)
Definition chunks_written_for (name : string) (ws : list (string * artifact)) : list chunk_data :=
  omap (fun w => match snd w with
                 | ChunkFile c => if decide (cd_shortcode c = name) then Some c else None
                 | _ => None
                 end) ws.

(** The organizer after [create_chunked_files] on a fresh index. *)
Definition chunked (self : organizer) (m : pydict (list json)) : organizer :=
  let c := chunk_size self in
  {| comments_dir := comments_dir self;
     output_dir := output_dir self;
     chunk_size := c;
     index_data :=
       {| posts := omap (item_entry c) m;
          stats := {| stats_total_posts := length (omap (item_entry c) m);
                      stats_total_comments := sum_list (map (fun item => length (snd item)) m);
                      stats_total_chunks := sum_list (map (item_chunk_count c) m) |} |};
     written := written self ++ concat (map (item_files (output_dir self) c) m) |}.

(** The chunks of one post, none when it has no comment. *)
Definition post_chunks (c : nat) (name : string) (comments : list json) : list chunk_data :=
  match comments with
  | [] => []
  | _ => map (chunk_at c name comments) (starts_of c comments)
  end.

(** *** Ingestion *)

(** What an ingestion step does to the state: it extends the lists of some
    posts, in order, and counts some entries. *)
Definition apply_delta (delta : list (pykey * list json)) (n : nat) (st : parse_state)
    : parse_state :=
  {| shortcode_comments :=
       foldl (fun m kv => dd_extend m (fst kv) (snd kv)) (shortcode_comments st) delta;
     total_entries := total_entries st + n |}.

(** A step whose outcome and whose additions do not depend on the state it
    starts from. *)
Definition additive (a : M parse_state unit) : Prop :=
  exists res delta n, forall st, a st = (res, apply_delta delta n st).


(** *** Shapes of entries *)









(** The state [parse_json_files] starts from. *)
Definition parse_start : parse_state := {| shortcode_comments := []; total_entries := 0 |}.

(** *** Liked words *)



(** A record with its text and its like count. *)
Definition example_comment (id text : string) (likes : Z) : comment :=
  {| video_id := "v1"; comment_id := id; text := Some text;
     author_display_name := Some "someone"; like_count := Some likes;
     published_at := None; published_at_timestamp := None |}.



(** *** More on deduplication and ingestion *)

(** A dict of [dict.fromkeys] as it should be: each key is the hash of the
    object kept with it, and no key comes twice. *)
Definition keyed (d : pydict json) : Prop :=
  Forall (fun kv => hash_key (snd kv) = Ok (fst kv)) d /\ NoDup (dict_keys d).

(** A post identifier that is true as a condition. *)
Definition truthy_key (k : pykey) : Prop :=
  match k with
  | KNone => False
  | KInt z => z <> 0%Z
  | KStr s => s <> ""
  end.

(** A file that [parse_json_files] passes over: its name is not taken, or it
    cannot be loaded, or it does not hold a dict. *)
Definition passed_over (f : string * option json) : Prop :=
  is_json_file (fst f) = false \/
  match snd f with
  | None => True
  | Some v => isinstance_dict v = false
  end.

(** An entry on which the loop body of [parse_json_files] raises. *)
Definition entry_raises (entry : json) : bool :=
  match fst (parse_entry entry parse_start) with
  | Ok _ => false
  | Raise _ => true
  end.

(** An entry with a true target whose [logs] cannot be iterated: a number, a
    boolean or [null]. *)
Definition logs_not_iterable (entry : json) : bool :=
  match entry with
  | JDict e =>
      truthy (dict_get e "target" (JStr "")) &&
      match dict_get e "logs" (JList []) with
      | JNull | JBool _ | JInt _ => true
      | _ => false
      end
  | _ => false
  end.

(** A step that keeps an invariant of the state, whether it returns or
    raises. *)
Definition keeps {S A} (P : S -> Prop) (a : M S A) : Prop :=
  forall st, P st -> P (snd (a st)).

(** *** More on the analysis *)

Definition is_hashable (v : json) : bool :=
  match hash_key v with
  | Ok _ => true
  | Raise _ => false
  end.

(** A log record on which the loop body of [analyze_json_file] raises: its
    [storedIds] is a list, and the target or one of the identifiers cannot be
    hashed. *)
Definition log_raises (shortcode log : json) : bool :=
  match log with
  | JDict d =>
      match dict_get d "storedIds" (JList []) with
      | JList comment_ids => negb (is_hashable shortcode && forallb is_hashable comment_ids)
      | _ => false
      end
  | _ => false
  end.

(** An item that [analyze_json_file] counts as an error: it is not a dict, or
    it has a true target and a list of logs one of which raises. *)
Definition is_error_entry (entry : json) : bool :=
  match entry with
  | JDict e =>
      truthy (dict_get e "target" (JStr "")) &&
      match dict_get e "logs" (JList []) with
      | JList logs => existsb (log_raises (dict_get e "target" (JStr ""))) logs
      | _ => false
      end
  | _ => true
  end.

(** The items [analyze_json_file] goes through. *)
Definition items_of (content : option json) : list json :=
  match content with
  | Some (JDict data) => map snd data
  | Some (JList data) => data
  | _ => []
  end.

(** [m'] holds what [m] holds, post by post. *)
Definition grows (m m' : pydict (list pykey)) : Prop :=
  forall s k, k ∈ dd_get m s -> k ∈ dd_get m' s.

(** The identifier [x] is a member of the set of some post of [m]. *)
Definition in_some_set (m : pydict (list pykey)) (x : json) : Prop :=
  exists s k, hash_key x = Ok k /\ k ∈ dd_get m s.

(** Every identifier collected is in the set of a post. *)
Definition ids_in_sets (st : analysis) : Prop :=
  Forall (in_some_set (shortcode_to_comments st)) (all_comment_ids st).

(** The posts of the analysis have true identifiers, each post comes once and
    no set holds a member twice. *)
Definition sets_ok (st : analysis) : Prop :=
  Forall truthy_key (dict_keys (shortcode_to_comments st)) /\
  NoDup (dict_keys (shortcode_to_comments st)) /\
  Forall (fun kv => NoDup (snd kv)) (shortcode_to_comments st).

(** The state [analyze_json_file] starts from. *)
Definition analysis_start : analysis :=
  {| shortcode_to_comments := []; all_comment_ids := []; entries := 0; error_entries := 0 |}.

(** *** Engagement indexes *)

(** The records of one video, in the order of the input. *)
Definition of_video (v : string) (comments : list comment) : list comment :=
  filter (fun c => video_id c = v) comments.

(** [x] may come before [y] in a list of a video: more likes, or as many and
    not older. *)
Definition ranks_before (x y : comment) : Prop :=
  (get_like_count y < get_like_count x)%Z \/
  (get_like_count x = get_like_count y /\ (get_timestamp y <= get_timestamp x)%Z).

(** The records with [a] likes and the time stamp [b]. *)
Definition tied (a b : Z) (l : list comment) : list comment :=
  filter (fun c => get_like_count c = a /\ get_timestamp c = b) l.

(** The word profile of the records of one video. *)
Definition profile (video_comment_list : list comment) : word_freq :=
  {| wf_word_cloud := word_cloud video_comment_list;
     liked_words := top_liked_words video_comment_list |}.

(** The number of times [w] occurs in [ws]. *)
Definition occurrences (w : string) (ws : list string) : nat :=
  length (filter (fun w' => w' = w) ws).

(** The words that count in the texts of [cs], text after text. *)
Definition words_of (cs : list comment) : list string :=
  concat (map (fun c => content_words (get_text c)) cs).

(** A letter from [a] to [z]. *)
Definition is_lower_letter (c : ascii) : bool :=
  let n := nat_of_ascii c in (97 <=? n) && (n <=? 122).

(** *** The whole run *)

(** The mapping that [parse_json_files] returns for a listing. *)
Definition aggregated (listing : list (string * option json)) : pydict (list json) :=
  shortcode_comments (parse_json_files listing).

(** The state in which a new organizer starts. *)
Definition fresh (cdir odir : string) : run_state :=
  {| organizer_of := init cdir odir; text_files := [] |}.

(** The identifiers stored for a post, chunk file after chunk file. *)
Definition stored_ids (name : string) (st : run_state) : list json :=
  concat (map cd_comment_ids (chunks_written_for name (written (organizer_of st)))).

Definition is_chunk_file (w : string * artifact) : Prop :=
  match snd w with
  | ChunkFile _ => True
  | _ => False
  end.

(** *** The loader on the files of the organizer *)

(** The server has the chunk files of the post [name] under [path]. *)
Definition serves (fetch : string -> option chunk_data) (path : string) (c : nat)
    (name : string) (ids : list json) : Prop :=
  forall j, j < ceil_div (length ids) c ->
    fetch (path +:+ "/" +:+ file (descriptor_at c name ids (j * c)))
    = Some (chunk_at c name ids (j * c)).

(** What the cache holds for the post [name] is what its chunk files hold. *)
Definition cache_sound (cache : odict string (list json)) (c : nat) (name : string)
    (ids : list json) : Prop :=
  forall j l, dict_lookup cache (name +:+ "-" +:+ str_of_nat j) = Some l ->
              l = slice ids (j * c) (j * c + c).

(** The chunk [j] of a post overlaps the positions from [s] to [e]. *)
Definition overlaps (c len : nat) (s e : Z) (j : nat) : bool :=
  (Z.of_nat (j * c) <? e)%Z &&
  (s <? Z.of_nat (j * c) + Z.of_nat (Nat.min c (len - j * c)))%Z.

(** A post of five identifiers in chunks of four, and a server that has its
    two chunk files. *)
Definition five_ids : list json := [JStr "a"; JStr "b"; JStr "c"; JStr "d"; JStr "e"].

Definition five_server (url : string) : option chunk_data :=
  if String.eqb url "db/posts/p/chunk_0.json" then Some (chunk_at 4 "p" five_ids 0)
  else if String.eqb url "db/posts/p/chunk_1.json" then Some (chunk_at 4 "p" five_ids 4)
  else None.

(** *** The two readers of a comment file *)


(** *** The statistics *)

(** The number of identifiers that [analyze_json_file] collects from a
    file. *)
Definition ids_collected (content : option json) : nat :=
  match analyze_json_file content with
  | Some a => length (all_comment_ids a)
  | None => 0
  end.

(** The state in which the loop of [main] starts. *)
Definition aggregate_start : aggregate :=
  {| all_shortcodes_with_comments := [];
     collected_comment_ids := [];
     shortcode_comment_counts := [] |}.

(** *** Text, as the statements speak of it *)

(** ASCII text: every character is below 128.  On such text [lower],
    [split], [strip] and the regular expression of the code do what Python
    does; the statements about text are made for it. *)
Definition ascii_text (s : string) : Prop :=
  Forall (fun c => nat_of_ascii c < 128) (list_ascii_of_string s).

(** A letter from [A] to [Z]. *)
Definition capital (c : ascii) : Prop :=
  65 <= nat_of_ascii c /\ nat_of_ascii c <= 90.

(** A letter, of either case. *)
Definition letter (c : ascii) : Prop :=
  capital c \/ (97 <= nat_of_ascii c /\ nat_of_ascii c <= 122).

(** A letter, a digit or the underscore. *)
Definition word_character (c : ascii) : Prop :=
  letter c \/ (48 <= nat_of_ascii c /\ nat_of_ascii c <= 57) \/ nat_of_ascii c = 95.


#[global] Instance capital_dec c : Decision (capital c).
Proof. unfold capital. apply _. Defined.

#[global] Instance letter_dec c : Decision (letter c).
Proof. unfold letter. apply _. Defined.

(** [low] is [s] in lower case: a capital letter is replaced by the letter
    32 places further, every other character is kept. *)
Definition lower_cased (s low : string) : Prop :=
  Forall2 (fun c c' =>
             (capital c -> nat_of_ascii c' = nat_of_ascii c + 32) /\
             (~ capital c -> c' = c))
          (list_ascii_of_string s) (list_ascii_of_string low).

(** The text does not start with a character that satisfies [P]. *)
Definition starts_outside (P : ascii -> Prop) (s : list ascii) : Prop :=
  match s with
  | [] => True
  | c :: _ => ~ P c
  end.

(** [rs] are, from left to right, the maximal runs of characters of [s] that
    satisfy [P]: the text is made of stretches of other characters and of
    the runs, by turns. *)
Inductive maximal_runs (P : ascii -> Prop) : list ascii -> list (list ascii) -> Prop :=
| maximal_runs_none s :
    Forall (fun c => ~ P c) s -> maximal_runs P s []
| maximal_runs_next sep r rest rs :
    Forall (fun c => ~ P c) sep ->
    r <> [] ->
    Forall P r ->
    starts_outside P rest ->
    maximal_runs P rest rs ->
    maximal_runs P (sep ++ r ++ rest) (r :: rs).

(** The words of a text that count: of the maximal runs of word characters
    of the lower-cased text, those that are made of letters, have three of
    them or more and are no stop words. *)
Definition counted_words (s : string) (ws : list string) : Prop :=
  exists low rs,
    lower_cased s low /\
    maximal_runs word_character (list_ascii_of_string low) rs /\
    map list_ascii_of_string ws
    = filter (fun r => Forall letter r /\ 3 <= length r /\
                       string_of_list_ascii r ∉ stop_words) rs.




(** A record with all its fields. *)
Definition full_comment (video id text author : string) (likes : Z) (date : string) (stamp : Z)
    : comment :=
  {| video_id := video; comment_id := id; text := Some text;
     author_display_name := Some author; like_count := Some likes;
     published_at := Some date; published_at_timestamp := Some stamp |}.

(** * Properties *)

(** ** Running computations *)

Section monad_facts.
Context {S : Type}.

Lemma bind_ok {A B} (m : M S A) (f : A -> M S B) s a s' :
  m s = (Ok a, s') -> bind m f s = f a s'.
Proof. unfold bind. by intros ->. Qed.

Lemma bind_raise {A B} (m : M S A) (f : A -> M S B) s e s' :
  m s = (Raise e, s') -> bind m f s = (Raise e, s').
Proof. unfold bind. by intros ->. Qed.

Lemma bind_ret {A B} (a : A) (f : A -> M S B) s : bind (ret a) f s = f a s.
Proof. done. Qed.

Lemma bind_get {B} (f : S -> M S B) s : bind get f s = f s s.
Proof. done. Qed.

Lemma bind_modify {B} (g : S -> S) (f : unit -> M S B) s :
  bind (modify g) f s = f tt (g s).
Proof. done. Qed.

Lemma bind_lift_ok {A B} (a : A) (f : A -> M S B) s : bind (lift (Ok a)) f s = f a s.
Proof. done. Qed.

Lemma bind_lift_raise {A B} e (f : A -> M S B) s :
  bind (lift (Raise e)) f s = (Raise e, s).
Proof. done. Qed.

End monad_facts.

(** ** Insertion-ordered dicts *)

Section odict_facts.
Context {K V : Type} `{EqDecision K}.
Implicit Types (m : odict K V) (k : K) (v : V).

Lemma dict_lookup_setitem m k v k' :
  dict_lookup (dict_setitem m k v) k' =
  if decide (k = k') then Some v else dict_lookup m k'.
Proof.
  induction m as [|[k0 v0] m IH]; simpl.
  - repeat case_decide; congruence.
  - repeat (case_decide; simpl; subst); try congruence.
Qed.

Lemma dict_lookup_None m k : dict_lookup m k = None <-> k ∉ dict_keys m.
Proof.
  induction m as [|[k0 v0] m IH]; simpl.
  - split; [intros _; apply not_elem_of_nil | done].
  - rewrite not_elem_of_cons. case_decide; subst.
    + split; [done | intros [? _]; done].
    + rewrite IH. naive_solver.
Qed.

Lemma dict_lookup_Some_elem m k v : dict_lookup m k = Some v -> (k, v) ∈ m.
Proof.
  induction m as [|[k0 v0] m IH]; simpl; [done|].
  case_decide; subst.
  - intros [= ->]. apply list_elem_of_here.
  - intros. apply list_elem_of_further. auto.
Qed.

Lemma dict_elem_lookup m k v :
  NoDup (dict_keys m) -> (k, v) ∈ m -> dict_lookup m k = Some v.
Proof.
  induction m as [|[k0 v0] m IH]; simpl.
  - intros _ Hin. by apply elem_of_nil in Hin.
  - rewrite NoDup_cons. intros [Hk0 Hnd] Hin.
    apply elem_of_cons in Hin as [[= -> ->]|Hin].
    + by rewrite decide_True.
    + rewrite decide_False; [auto|].
      intros ->. apply Hk0. apply list_elem_of_fmap. by exists (k, v).
Qed.

Lemma dict_setitem_absent m k v :
  k ∉ dict_keys m -> dict_setitem m k v = m ++ [(k, v)].
Proof.
  induction m as [|[k0 v0] m IH]; simpl; [done|].
  rewrite not_elem_of_cons. intros [? ?].
  rewrite decide_False by done. by rewrite IH.
Qed.

Lemma dict_setitem_app_here (pre post : odict K V) k v v' :
  k ∉ dict_keys pre ->
  dict_setitem (pre ++ (k, v) :: post) k v' = pre ++ (k, v') :: post.
Proof.
  induction pre as [|[k0 v0] pre IH]; simpl.
  - intros _. by rewrite decide_True.
  - rewrite not_elem_of_cons. intros [? ?].
    rewrite decide_False by done. by rewrite IH.
Qed.

Lemma dict_keys_setitem_present m k v :
  k ∈ dict_keys m -> dict_keys (dict_setitem m k v) = dict_keys m.
Proof.
  induction m as [|[k0 v0] m IH]; simpl.
  - intros Hin. by apply elem_of_nil in Hin.
  - intros Hin. case_decide; subst; simpl; [done|].
    apply elem_of_cons in Hin as [->|Hin]; [done|]. by rewrite IH.
Qed.

Lemma dict_keys_setitem_NoDup m k v :
  NoDup (dict_keys m) -> NoDup (dict_keys (dict_setitem m k v)).
Proof.
  intros Hnd. destruct (decide (k ∈ dict_keys m)) as [Hin|Hin].
  - by rewrite dict_keys_setitem_present.
  - rewrite dict_setitem_absent by done. unfold dict_keys in *.
    rewrite map_app. simpl. apply NoDup_app. split_and!; [done| |apply NoDup_singleton].
    intros x Hx Hx'. apply list_elem_of_singleton in Hx'. by subst.
Qed.

Lemma elem_of_dict_keys_setitem m k v k' :
  k' ∈ dict_keys (dict_setitem m k v) <-> k' = k \/ k' ∈ dict_keys m.
Proof.
  destruct (decide (k ∈ dict_keys m)) as [Hin|Hin].
  - rewrite dict_keys_setitem_present by done. naive_solver.
  - rewrite dict_setitem_absent by done. unfold dict_keys.
    rewrite map_app, elem_of_app. simpl. rewrite list_elem_of_singleton. naive_solver.
Qed.
End odict_facts.

Section defaultdict_facts.
Context {K A : Type} `{EqDecision K}.
Implicit Types (m : odict K (list A)) (k : K).

Lemma dd_get_extend m k xs k' :
  dd_get (dd_extend m k xs) k' =
  if decide (k = k') then dd_get m k ++ xs else dd_get m k'.
Proof.
  unfold dd_extend, dd_get at 1. rewrite dict_lookup_setitem.
  by case_decide.
Qed.

Lemma dd_get_nil k : dd_get ([] : odict K (list A)) k = [].
Proof. done. Qed.
End defaultdict_facts.

(** ** Lists *)

Lemma filter_all {A} (P : A -> Prop) `{!forall x, Decision (P x)} (l : list A) :
  Forall P l -> filter P l = l.
Proof.
  induction 1 as [|x l Hx Hl IH]; [done|].
  by rewrite filter_cons_True, IH.
Qed.

Lemma filter_none {A} (P : A -> Prop) `{!forall x, Decision (P x)} (l : list A) :
  Forall (fun x => ~ P x) l -> filter P l = [].
Proof.
  induction 1 as [|x l Hx Hl IH]; [done|].
  by rewrite filter_cons_False.
Qed.

Lemma omap_cons_Some {A B} (f : A -> option B) x l y :
  f x = Some y -> omap f (x :: l) = y :: omap f l.
Proof. intros Hx. change (omap f (x :: l)) with (list_omap _ _ f (x :: l)). simpl. by rewrite Hx. Qed.

Lemma omap_cons_None {A B} (f : A -> option B) x l :
  f x = None -> omap f (x :: l) = omap f l.
Proof. intros Hx. change (omap f (x :: l)) with (list_omap _ _ f (x :: l)). simpl. by rewrite Hx. Qed.

Lemma sum_list_cons x l : sum_list (x :: l) = x + sum_list l.
Proof. done. Qed.

(** ** Deduplication *)

Lemma dict_lookup_str_keys acc x :
  dict_lookup (str_keys acc) (KStr x) = if decide (x ∈ acc) then Some (JStr x) else None.
Proof.
  induction acc as [|a acc IH]; simpl; [done|].
  destruct (decide (KStr a = KStr x)) as [[= ->]|Hne].
  - rewrite decide_True; [done | apply list_elem_of_here].
  - rewrite IH. destruct (decide (x ∈ acc)) as [Hin|Hin].
    + rewrite decide_True; [done | by apply list_elem_of_further].
    + rewrite decide_False; [done|].
      rewrite elem_of_cons. intros [->|?]; [by apply Hne | done].
Qed.

Lemma fromkeys_loop_strings acc ids :
  fromkeys_loop (str_keys acc) (map JStr ids) = Ok (str_keys (dedup_acc acc ids)).
Proof.
  revert acc. induction ids as [|x ids IH]; intros acc; simpl; [done|].
  unfold fromkeys_step. simpl. rewrite dict_lookup_str_keys.
  destruct (decide (x ∈ acc)); [apply IH|].
  replace (str_keys acc ++ [(KStr x, JStr x)]) with (str_keys (acc ++ [x])); [apply IH|].
  unfold str_keys. by rewrite map_app.
Qed.

Lemma list_dict_fromkeys_strings ids :
  list_dict_fromkeys (map JStr ids) = Ok (map JStr (dedup_acc [] ids)).
Proof.
  unfold list_dict_fromkeys.
  change (@nil (pykey * json)) with (str_keys []).
  rewrite fromkeys_loop_strings. f_equal.
  unfold str_keys. rewrite map_map. done.
Qed.

Lemma filter_not_elem_snoc (acc l : list string) x :
  filter (fun y => y ∉ acc ++ [x]) l = filter (fun y => y ∉ acc) (filter (fun y => y <> x) l).
Proof.
  rewrite list_filter_filter. apply list_filter_iff. intros y. simpl.
  rewrite elem_of_app, list_elem_of_singleton. tauto.
Qed.

Lemma dedup_acc_first_occurrences acc ids :
  dedup_acc acc ids = acc ++ filter (fun y => y ∉ acc) (first_occurrences ids).
Proof.
  revert acc. induction ids as [|x ids IH]; intros acc; simpl.
  - by rewrite filter_nil, app_nil_r.
  - destruct (decide (x ∈ acc)) as [Hin|Hin]; rewrite IH.
    + rewrite filter_cons_False by tauto. f_equal.
      rewrite list_filter_filter. apply list_filter_iff. intros y. simpl.
      split; [|tauto]. intros Hy. split; [done|]. by intros ->.
    + rewrite filter_cons_True by done.
      rewrite <- app_assoc. simpl. do 2 f_equal. apply filter_not_elem_snoc.
Qed.

Lemma dedup_acc_nil ids : dedup_acc [] ids = first_occurrences ids.
Proof.
  rewrite dedup_acc_first_occurrences. simpl.
  induction (first_occurrences ids) as [|y l IH]; [done|].
  rewrite filter_cons_True by apply not_elem_of_nil. by rewrite IH.
Qed.

Lemma elem_of_first_occurrences ids x : x ∈ first_occurrences ids <-> x ∈ ids.
Proof.
  induction ids as [|a ids IH]; simpl; [done|].
  rewrite !elem_of_cons, list_elem_of_filter, IH.
  destruct (decide (x = a)); naive_solver.
Qed.

Lemma NoDup_first_occurrences ids : NoDup (first_occurrences ids).
Proof.
  induction ids as [|a ids IH]; simpl; [apply NoDup_nil_2|].
  apply NoDup_cons. split.
  - rewrite list_elem_of_filter. naive_solver.
  - by apply NoDup_filter.
Qed.

Lemma length_first_occurrences ids : length (first_occurrences ids) <= length ids.
Proof.
  induction ids as [|a ids IH]; simpl; [lia|].
  pose proof (length_filter (fun y => y <> a) (first_occurrences ids)). lia.
Qed.


(** A filter keeps the relative order of first occurrences. *)
Lemma first_index_filter (P : string -> Prop) `{!forall x, Decision (P x)} l x y :
  P x -> P y ->
  first_index x (filter P l) < first_index y (filter P l) <->
  first_index x l < first_index y l.
Proof.
  intros Hx Hy. induction l as [|b l IH]; simpl; [done|].
  destruct (decide (P b)) as [Hb|Hb].
  - rewrite filter_cons_True by done. simpl.
    repeat case_decide; subst; lia.
  - rewrite filter_cons_False by done.
    rewrite !decide_False by (intros ->; done). rewrite IH. lia.
Qed.

Lemma first_index_first_occurrences ids x y :
  first_index x (first_occurrences ids) < first_index y (first_occurrences ids) <->
  first_index x ids < first_index y ids.
Proof.
  induction ids as [|a ids IH]; simpl; [done|].
  destruct (decide (x = a)) as [->|Hx], (decide (y = a)) as [->|Hy]; try lia.
  rewrite <- !Nat.succ_lt_mono, <- IH.
  by apply (first_index_filter (fun z => z <> a)).
Qed.

Lemma dict_keys_ids_dict m : dict_keys (ids_dict m) = dict_keys m.
Proof. unfold dict_keys, ids_dict. rewrite map_map. done. Qed.

Lemma dict_lookup_ids_dict m k :
  dict_lookup (ids_dict m) k = map JStr <$> dict_lookup m k.
Proof.
  induction m as [|[k0 v0] m IH]; simpl; [done|]. by case_decide.
Qed.

Lemma deduplicated_ids_dict m :
  deduplicated (ids_dict m)
    (ids_dict (map (fun item => (fst item, first_occurrences (snd item))) m)).
Proof.
  induction m as [|[k ids] m IH]; simpl; constructor; [|done].
  simpl. split; [done|]. by rewrite list_dict_fromkeys_strings, dedup_acc_nil.
Qed.

Lemma dedup_loop (r : loc) items : forall out pre (h : heap),
  deduplicated items out ->
  NoDup (dict_keys (pre ++ items)) ->
  h !! r = Some (pre ++ items) ->
  for_each items (fun item =>
      let! unique_comments := lift (list_dict_fromkeys (snd item)) in
      heap_setitem r (fst item) unique_comments) h
  = (Ok tt, <[r := pre ++ out]> h).
Proof.
  induction items as [|[k l] items IH]; intros out pre h Hd Hnd Hh.
  - apply Forall2_nil_inv_l in Hd as ->. simpl. unfold ret.
    by rewrite insert_id.
  - apply Forall2_cons_inv_l in Hd as ([k' u] & out' & [Hk Hu] & Hd & ->).
    simpl in Hk, Hu. subst k'.
    assert (Hpre : k ∉ dict_keys pre).
    { unfold dict_keys in *. rewrite map_app in Hnd.
      apply NoDup_app in Hnd as (_ & Hdisj & _).
      intros Hin. apply (Hdisj _ Hin). simpl. apply list_elem_of_here. }
    cbn [for_each fst snd]. rewrite Hu.
    erewrite bind_ok; [|rewrite bind_lift_ok; reflexivity].
    unfold heap_read. rewrite Hh.
    rewrite dict_setitem_app_here by done.
    rewrite (IH out' (pre ++ [(k, u)])).
    + by rewrite insert_insert_eq, <- app_assoc.
    + done.
    + rewrite <- app_assoc. simpl.
      unfold dict_keys in *. rewrite map_app in *. done.
    + rewrite lookup_insert_eq. by rewrite <- app_assoc.
Qed.

(** Deduplication rewrites the dict object it is given and returns it. *)
Lemma deduplicate_comments_in_place (h : heap) (r : loc) m out :
  NoDup (dict_keys m) ->
  h !! r = Some m ->
  deduplicated m out ->
  deduplicate_comments r h = (Ok r, <[r := out]> h).
Proof.
  intros Hnd Hh Hd. unfold deduplicate_comments.
  rewrite bind_get. unfold heap_read at 1. rewrite Hh.
  erewrite bind_ok; [|by apply (dedup_loop r m out [] h)].
  done.
Qed.

(** C1: for every post of the aggregated mapping, whose comment identifiers
    are strings, deduplication leaves under that post the identifiers of its
    sequence without duplicates ([NoDup], same members), in the order of
    their first appearance in the input, and no longer than the input; on
    ["a","b","a","c","b"] it yields ["a","b","c"]. *)
Theorem C1_deduplicate_first_occurrence_order
    (h : heap) (r : loc) (m : pydict (list string)) :
  NoDup (dict_keys m) ->
  h !! r = Some (ids_dict m) ->
  (exists m' : pydict (list string),
      deduplicate_comments r h = (Ok r, <[r := ids_dict m']> h) /\
      dict_keys m' = dict_keys m /\
      forall k ids, dict_lookup m k = Some ids ->
        exists out, dict_lookup m' k = Some out /\
          NoDup out /\
          (forall x, x ∈ out <-> x ∈ ids) /\
          (forall x y, first_index x out < first_index y out <->
                       first_index x ids < first_index y ids) /\
          length out <= length ids) /\
  list_dict_fromkeys [JStr "a"; JStr "b"; JStr "a"; JStr "c"; JStr "b"]
  = Ok [JStr "a"; JStr "b"; JStr "c"].
Proof.
  intros Hnd Hh. split; [|reflexivity].
  exists (map (fun item => (fst item, first_occurrences (snd item))) m).
  split_and!.
  - apply deduplicate_comments_in_place with (m := ids_dict m).
    + by rewrite dict_keys_ids_dict.
    + done.
    + apply deduplicated_ids_dict.
  - unfold dict_keys. rewrite map_map. done.
  - intros k ids Hk. exists (first_occurrences ids). split_and!.
    + clear Hnd Hh. induction m as [|[k0 v0] m IH]; simpl in *; [done|].
      case_decide; [by inversion Hk | auto].
    + apply NoDup_first_occurrences.
    + apply elem_of_first_occurrences.
    + apply first_index_first_occurrences.
    + apply length_first_occurrences.
Qed.

Lemma C1_deduplicate_witness :
  exists h', deduplicate_comments 0
    {[ 0 := ids_dict [(KStr "p", ["a"; "b"; "a"]); (KStr "q", [])] ]} = (Ok 0, h').
Proof.
  destruct (C1_deduplicate_first_occurrence_order
              {[ 0 := ids_dict [(KStr "p", ["a"; "b"; "a"]); (KStr "q", [])] ]} 0
              [(KStr "p", ["a"; "b"; "a"]); (KStr "q", [])])
    as [(m' & Hrun & _) _].
  - simpl. apply NoDup_cons. split.
    + rewrite list_elem_of_singleton. discriminate.
    + apply NoDup_singleton.
  - apply lookup_singleton_eq.
  - eexists. exact Hrun.
Defined.

Lemma fromkeys_loop_total comments : forall seen,
  Forall hashable comments -> exists d, fromkeys_loop seen comments = Ok d.
Proof.
  induction comments as [|x comments IH]; intros seen Hall; simpl; [by eexists|].
  apply Forall_cons in Hall as [Hx Hall].
  unfold fromkeys_step. unfold hashable in Hx.
  destruct (hash_key x) as [k|e]; [|done]. by apply IH.
Qed.

Lemma deduplicated_total m :
  Forall (fun item => Forall hashable (snd item)) m -> exists out, deduplicated m out.
Proof.
  induction 1 as [|[k l] m Hl Hm [out IH]]; [exists []; constructor|].
  destruct (fromkeys_loop_total l [] Hl) as [d Hd].
  exists ((k, map snd d) :: out). constructor; [|done].
  split; [done|]. simpl. unfold list_dict_fromkeys. by rewrite Hd.
Qed.

(** C9, as the code has it: deduplication rewrites the aggregated mapping in
    place and returns that same mapping.  The reference returned is the one
    given; afterwards the dict behind it holds, post by post and in the same
    order, the deduplicated sequences; no other object of the store
    changes.  (The comment identifiers are hashable values.) *)
Theorem C9_deduplicate_in_place (h : heap) (r : loc) (m : pydict (list json)) :
  NoDup (dict_keys m) ->
  h !! r = Some m ->
  Forall (fun item => Forall hashable (snd item)) m ->
  exists out h',
    deduplicate_comments r h = (Ok r, h') /\
    h' !! r = Some out /\
    deduplicated m out /\
    forall r', r' <> r -> h' !! r' = h !! r'.
Proof.
  intros Hnd Hh Hall. destruct (deduplicated_total m Hall) as [out Hout].
  exists out, (<[r := out]> h). split_and!.
  - by apply deduplicate_comments_in_place with (m := m).
  - apply lookup_insert_eq.
  - done.
  - intros r' Hr'. by apply lookup_insert_ne.
Qed.

Lemma C9_deduplicate_in_place_witness :
  exists out h',
    deduplicate_comments 0 {[ 0 := [(KStr "p", [JStr "a"; JStr "a"])] ]} = (Ok 0, h') /\
    h' !! 0 = Some out.
Proof.
  destruct (C9_deduplicate_in_place
              {[ 0 := [(KStr "p", [JStr "a"; JStr "a"])] ]} 0
              [(KStr "p", [JStr "a"; JStr "a"])])
    as (out & h' & Hrun & Hout & _).
  - simpl. apply NoDup_singleton.
  - apply lookup_singleton_eq.
  - repeat constructor.
  - exists out, h'. by split.
Defined.

(** C9, counterexample to a fresh copy: on a mapping with one post whose
    sequence is ["a", "a"], deduplication returns the reference it was
    given, and the dict behind the input reference no longer holds the
    original sequence. *)
Lemma C9_counterexample :
  let m := [(KStr "p", [JStr "a"; JStr "a"])] in
  let h : heap := {[ 0 := m ]} in
  (exists h', deduplicate_comments 0 h = (Ok 0, h') /\
              h' !! 0 = Some [(KStr "p", [JStr "a"])]) /\
  ~ (exists r' h', deduplicate_comments 0 h = (Ok r', h') /\ r' <> 0 /\ h' !! 0 = Some m).
Proof.
  intros m h.
  assert (Hrun : deduplicate_comments 0 h = (Ok 0, <[0 := [(KStr "p", [JStr "a"])]]> h)).
  { apply deduplicate_comments_in_place with (m := m).
    - simpl. apply NoDup_singleton.
    - apply lookup_singleton_eq.
    - repeat constructor. }
  split.
  - eexists. split; [exact Hrun|]. apply lookup_insert_eq.
  - intros (r' & h' & Hrun' & Hr' & _). rewrite Hrun in Hrun'. congruence.
Qed.

(** ** Ranges and chunks *)

Lemma ceil_div_0 c : 0 < c -> ceil_div 0 c = 0.
Proof. intros Hc. unfold ceil_div. apply Nat.div_small. lia. Qed.

Lemma ceil_div_step n c : 0 < c -> 0 < n -> ceil_div n c = S (ceil_div (n - c) c).
Proof.
  intros Hc Hn. unfold ceil_div.
  destruct (decide (n <= c)) as [Hle|Hgt].
  - replace (n - c + c - 1) with (c - 1) by lia.
    rewrite (Nat.div_small (c - 1)) by lia.
    replace (n + c - 1) with ((n - 1) + 1 * c) by lia.
    rewrite Nat.div_add by lia. rewrite Nat.div_small by lia. done.
  - replace (n + c - 1) with ((n - c + c - 1) + 1 * c) by lia.
    rewrite Nat.div_add by lia. lia.
Qed.

(** [ceil_div n c] is the least [k] with [n <= k * c]. *)
Lemma ceil_div_lt n c j : 0 < c -> j < ceil_div n c -> j * c < n.
Proof.
  intros Hc. unfold ceil_div. intros Hj.
  pose proof (Nat.div_mod_eq (n + c - 1) c) as Hdm.
  pose proof (Nat.mod_upper_bound (n + c - 1) c) as Hub.
  nia.
Qed.

Lemma ceil_div_ge n c : 0 < c -> n <= ceil_div n c * c.
Proof.
  intros Hc. unfold ceil_div.
  pose proof (Nat.div_mod_eq (n + c - 1) c) as Hdm.
  pose proof (Nat.mod_upper_bound (n + c - 1) c) as Hub.
  nia.
Qed.

(** With enough fuel, [range_loop] yields [i, i + c, i + 2c, ...] below
    [stop]: as many values as [ceil((stop - i) / c)]. *)
Lemma range_loop_seq c fuel : forall i stop,
  0 < c -> stop - i <= fuel ->
  range_loop fuel i stop c = map (fun j => i + j * c) (seq 0 (ceil_div (stop - i) c)).
Proof.
  induction fuel as [|fuel IH]; intros i stop Hc Hfuel; simpl.
  - replace (stop - i) with 0 by lia. by rewrite ceil_div_0.
  - destruct (Nat.ltb_spec i stop) as [Hlt|Hge].
    + rewrite (ceil_div_step (stop - i)) by lia. simpl.
      rewrite Nat.add_0_r. f_equal.
      rewrite IH by lia.
      replace (stop - (i + c)) with (stop - i - c) by lia.
      rewrite <- seq_shift, map_map. apply map_ext. intros j. simpl. lia.
    + replace (stop - i) with 0 by lia. by rewrite ceil_div_0.
Qed.

Lemma py_range_from_0 n c :
  0 < c -> py_range 0 n c = Ok (map (fun j => j * c) (seq 0 (ceil_div n c))).
Proof.
  intros Hc. unfold py_range.
  destruct (Nat.eqb_spec c 0) as [->|_]; [lia|].
  rewrite range_loop_seq by lia. by rewrite Nat.sub_0_r.
Qed.

Lemma slice_length {A} (l : list A) i c :
  length (slice l i (i + c)) = Nat.min c (length l - i).
Proof.
  unfold slice. replace (i + c - i) with c by lia.
  by rewrite length_take, length_drop.
Qed.

(** Consecutive slices of width [c] put together give the list back. *)
Lemma concat_slices {A} (l : list A) c k : forall i,
  0 < c ->
  length l <= i + k * c ->
  concat (map (fun j => slice l (i + j * c) (i + j * c + c)) (seq 0 k)) = drop i l.
Proof.
  induction k as [|k IH]; intros i Hc Hlen; simpl.
  - rewrite drop_ge by lia. done.
  - rewrite <- seq_shift, map_map.
    rewrite (map_ext _ (fun j => slice l (i + c + j * c) (i + c + j * c + c))).
    2:{ intros j. simpl. f_equal; lia. }
    rewrite IH by (simpl in Hlen; lia).
    unfold slice. rewrite Nat.add_0_r.
    replace (i + c - i) with c by lia.
    rewrite <- (drop_drop l c i). apply take_drop.
Qed.

(** ** Chunked files: what the loops do *)

Lemma with_posts_written_id self :
  with_posts_written self (posts (index_data self)) (written self) = self.
Proof. by destruct self as [? ? ? [? ?] ?]. Qed.

Lemma write_chunk_run name post_dir comments acc i self :
  write_chunk name post_dir comments acc i self
  = (Ok (fst acc ++ [descriptor_at (chunk_size self) name comments i], snd acc + 1),
     with_posts_written self (posts (index_data self))
       (written self ++ [file_at (chunk_size self) name post_dir comments i])).
Proof. by destruct self as [? ? ? [? ?] ?]. Qed.

Lemma write_chunks_loop name post_dir comments starts :
  forall (acc : list chunk_descriptor * nat) (self : organizer),
  for_fold starts acc (write_chunk name post_dir comments) self
  = (Ok (fst acc ++ map (descriptor_at (chunk_size self) name comments) starts,
         snd acc + length starts),
     with_posts_written self (posts (index_data self))
       (written self ++ map (file_at (chunk_size self) name post_dir comments) starts)).
Proof.
  induction starts as [|i starts IH]; intros acc self.
  - simpl. unfold ret. rewrite !app_nil_r, Nat.add_0_r.
    rewrite with_posts_written_id. by destruct acc.
  - cbn [for_fold]. erewrite bind_ok; [|apply write_chunk_run].
    rewrite IH. cbn [fst snd map length].
    unfold with_posts_written. cbn [comments_dir output_dir chunk_size index_data stats posts written].
    rewrite <- !app_assoc. cbn [app].
    do 3 f_equal. lia.
Qed.

Lemma chunk_post_empty acc k self : chunk_post acc (k, []) self = (Ok acc, self).
Proof. done. Qed.

Lemma chunk_post_nonempty acc name comments self :
  comments <> [] ->
  0 < chunk_size self ->
  chunk_post acc (KStr name, comments) self
  = (Ok (fst acc + length comments, snd acc + length (starts_of (chunk_size self) comments)),
     with_posts_written self
       (dict_setitem (posts (index_data self)) (KStr name)
          (entry_of (chunk_size self) name comments))
       (written self ++ item_files (output_dir self) (chunk_size self) (KStr name, comments))).
Proof.
  intros Hne Hc. unfold chunk_post. cbn [fst snd].
  destruct comments as [|x xs]; [done|].
  set (comments := x :: xs).
  rewrite bind_get. cbn [as_path_component]. rewrite bind_lift_ok.
  rewrite py_range_from_0 by done. rewrite bind_lift_ok.
  fold (starts_of (chunk_size self) comments).
  erewrite bind_ok; [|apply write_chunks_loop].
  cbn [fst snd app]. unfold set_post. rewrite bind_modify. unfold ret.
  unfold set_index_data, with_posts_written, entry_of, item_files.
  cbn [comments_dir output_dir chunk_size index_data stats posts written].
  reflexivity.
Qed.

Lemma item_empty c out_dir k :
  item_entry c (k, []) = None /\ item_files out_dir c (k, []) = [] /\
  item_chunk_count c (k, []) = 0.
Proof. by destruct k. Qed.

Lemma chunk_posts_loop c items : forall (acc : nat * nat) (self : organizer),
  chunk_size self = c -> 0 < c ->
  Forall str_key items ->
  NoDup (dict_keys items) ->
  (forall k, k ∈ dict_keys items -> k ∉ dict_keys (posts (index_data self))) ->
  for_fold items acc chunk_post self
  = (Ok (fst acc + sum_list (map (fun item => length (snd item)) items),
         snd acc + sum_list (map (item_chunk_count c) items)),
     with_posts_written self
       (posts (index_data self) ++ omap (item_entry c) items)
       (written self ++ concat (map (item_files (output_dir self) c) items))).
Proof.
  induction items as [|[k comments] items IH]; intros acc self Hc Hpos Hstr Hnd Hfresh.
  - simpl. unfold ret. rewrite !app_nil_r, !Nat.add_0_r.
    rewrite with_posts_written_id. by destruct acc.
  - apply Forall_cons in Hstr as [[name Hname] Hstr]. simpl in Hname. subst k.
    simpl in Hnd. apply NoDup_cons in Hnd as [Hk Hnd].
    cbn [for_fold]. destruct comments as [|x xs].
    + erewrite bind_ok; [|apply chunk_post_empty].
      rewrite IH; [|done|done|done|done|].
      * cbn [map sum_list omap concat item_entry item_files item_chunk_count snd length app].
        by rewrite !Nat.add_0_l.
      * intros k' Hk'. apply Hfresh. simpl. by apply list_elem_of_further.
    + set (comments := x :: xs).
      erewrite bind_ok; [|by apply chunk_post_nonempty; [|lia]].
      rewrite Hc.
      assert (Hk0 : KStr name ∉ dict_keys (posts (index_data self))).
      { apply Hfresh. simpl. apply list_elem_of_here. }
      rewrite dict_setitem_absent by done.
      rewrite IH; [|done|done|done|done|].
      * unfold with_posts_written. simpl.
        rewrite <- !app_assoc. simpl.
        do 3 f_equal; unfold item_chunk_count, comments; simpl; lia.
      * cbn [with_posts_written index_data posts]. intros k' Hk'.
        unfold dict_keys. rewrite map_app, elem_of_app. cbn [map fst].
        rewrite list_elem_of_singleton. intros [Hin| ->].
        -- apply (Hfresh k'); [|done]. simpl. by apply list_elem_of_further.
        -- done.
Qed.

Lemma create_chunked_files_run (self : organizer) (m : pydict (list json)) :
  0 < chunk_size self ->
  posts (index_data self) = [] ->
  NoDup (dict_keys m) ->
  Forall str_key m ->
  create_chunked_files m self = (Ok tt, chunked self m).
Proof.
  intros Hc Hposts Hnd Hstr. unfold create_chunked_files.
  erewrite bind_ok;
    [|apply (chunk_posts_loop (chunk_size self)); [done..|];
      rewrite Hposts; intros k _; apply not_elem_of_nil].
  rewrite bind_get. unfold set_stats, modify, chunked, set_index_data, with_posts_written.
  cbn [fst snd comments_dir output_dir chunk_size index_data stats posts written].
  rewrite Hposts. cbn [app]. reflexivity.
Qed.

Lemma chunks_written_for_app name ws1 ws2 :
  chunks_written_for name (ws1 ++ ws2)
  = chunks_written_for name ws1 ++ chunks_written_for name ws2.
Proof. unfold chunks_written_for. apply omap_app. Qed.

Lemma chunks_written_for_files_same name c dir comments starts :
  chunks_written_for name (map (file_at c name dir comments) starts)
  = map (chunk_at c name comments) starts.
Proof.
  induction starts as [|i starts IH]; [done|].
  cbn [map]. unfold chunks_written_for in *. cbn [omap list_omap file_at snd chunk_at cd_shortcode].
  rewrite decide_True by done. by rewrite <- IH.
Qed.

Lemma chunks_written_for_files_other name name' c dir comments starts :
  name' <> name ->
  chunks_written_for name (map (file_at c name' dir comments) starts) = [].
Proof.
  intros Hne. induction starts as [|i starts IH]; [done|].
  cbn [map]. unfold chunks_written_for in *. cbn [omap list_omap file_at snd chunk_at cd_shortcode].
  by rewrite decide_False.
Qed.

Lemma chunks_written_for_item_same name c dir comments :
  chunks_written_for name (item_files dir c (KStr name, comments)) = post_chunks c name comments.
Proof.
  destruct comments; [done|]. apply chunks_written_for_files_same.
Qed.

Lemma chunks_written_for_item_other name c dir k comments :
  k <> KStr name -> chunks_written_for name (item_files dir c (k, comments)) = [].
Proof.
  intros Hne. destruct k as [| |name']; try done.
  destruct comments; [done|].
  apply chunks_written_for_files_other. by intros ->.
Qed.

Lemma chunks_written_for_absent name c dir (m : pydict (list json)) :
  KStr name ∉ dict_keys m ->
  chunks_written_for name (concat (map (item_files dir c) m)) = [].
Proof.
  induction m as [|[k comments] m IH]; [done|].
  cbn [dict_keys map fst concat]. rewrite not_elem_of_cons. intros [Hk Hm].
  rewrite chunks_written_for_app, chunks_written_for_item_other by done.
  by apply IH.
Qed.

Lemma chunks_written_for_lookup name c dir (m : pydict (list json)) comments :
  NoDup (dict_keys m) ->
  dict_lookup m (KStr name) = Some comments ->
  chunks_written_for name (concat (map (item_files dir c) m)) = post_chunks c name comments.
Proof.
  induction m as [|[k l] m IH]; [done|].
  cbn [dict_keys map fst concat dict_lookup]. rewrite NoDup_cons. intros [Hk Hnd].
  rewrite chunks_written_for_app. case_decide as Heq.
  - intros [= ->]. subst k.
    rewrite chunks_written_for_item_same, chunks_written_for_absent by done.
    by rewrite app_nil_r.
  - intros Hl. rewrite chunks_written_for_item_other by done. by apply IH.
Qed.

Lemma elem_of_posts c (m : pydict (list json)) k e :
  NoDup (dict_keys m) ->
  (k, e) ∈ omap (item_entry c) m ->
  exists name comments,
    k = KStr name /\ comments <> [] /\ dict_lookup m k = Some comments /\
    e = entry_of c name comments.
Proof.
  intros Hnd Hin. apply list_elem_of_omap in Hin as ([k' comments] & Hin & Hsome).
  destruct k' as [| |name]; try done.
  destruct comments as [|x xs]; [done|].
  injection Hsome as <- <-.
  exists name, (x :: xs). split_and!; try done.
  by apply dict_elem_lookup.
Qed.

Lemma posts_keys_NoDup c (m : pydict (list json)) :
  NoDup (dict_keys m) -> NoDup (dict_keys (omap (item_entry c) m)).
Proof.
  induction m as [|[k comments] m IH]; [done|].
  cbn [dict_keys map fst]. rewrite NoDup_cons. intros [Hk Hnd].
  cbn [omap list_omap].
  destruct (item_entry c (k, comments)) as [[k' e]|] eqn:Hitem; [|by apply IH].
  assert (k' = k) as ->.
  { destruct k; try done. destruct comments; [done|]. by injection Hitem as <- _. }
  cbn [dict_keys map fst]. apply NoDup_cons. split; [|by apply IH].
  intros Hin. apply list_elem_of_fmap in Hin as ([k2 e2] & -> & Hin).
  apply list_elem_of_omap in Hin as ([k3 l3] & Hin3 & Hsome).
  assert (k3 = k2) as ->.
  { destruct k3; try done. destruct l3; [done|]. by injection Hsome as <- _. }
  apply Hk. apply list_elem_of_fmap. by exists (k2, l3).
Qed.

Lemma entry_of_sum c name comments :
  0 < c ->
  sum_list (map count (chunks (entry_of c name comments))) = length comments.
Proof.
  intros Hc. unfold entry_of, starts_of. cbn [chunks].
  rewrite !map_map. cbn [descriptor_at count].
  rewrite <- (map_map (fun j => slice comments (j * c) (j * c + c)) length).
  change (map length ?l) with (length <$> l).
  rewrite <- length_concat.
  rewrite (concat_slices comments c _ 0) by (try done; simpl; apply ceil_div_ge; done).
  done.
Qed.

Lemma posts_total_comments c (m : pydict (list json)) :
  Forall str_key m ->
  sum_list (map (fun p => total_comments (snd p)) (omap (item_entry c) m))
  = sum_list (map (fun item => length (snd item)) m).
Proof.
  induction 1 as [|[k comments] m [name Hname] Hm IH]; [done|].
  cbn [fst] in Hname. subst k. cbn [map snd]. rewrite sum_list_cons, <- IH.
  destruct comments as [|x xs].
  - by rewrite omap_cons_None.
  - by erewrite omap_cons_Some by reflexivity.
Qed.

Lemma posts_total_chunks c (m : pydict (list json)) :
  Forall str_key m ->
  sum_list (map (fun p => chunk_count (snd p)) (omap (item_entry c) m))
  = sum_list (map (item_chunk_count c) m).
Proof.
  induction 1 as [|[k comments] m [name Hname] Hm IH]; [done|].
  cbn [fst] in Hname. subst k. cbn [map snd]. rewrite sum_list_cons, <- IH.
  destruct comments as [|x xs].
  - by rewrite omap_cons_None.
  - erewrite omap_cons_Some by reflexivity.
    cbn [map snd]. rewrite sum_list_cons. f_equal.
    unfold item_chunk_count, entry_of. cbn [snd chunk_count]. by rewrite length_map.
Qed.

Lemma post_chunks_eq c name comments :
  comments <> [] ->
  post_chunks c name comments
  = map (fun j => chunk_at c name comments (j * c)) (seq 0 (ceil_div (length comments) c)).
Proof.
  intros Hne. destruct comments; [done|].
  unfold post_chunks, starts_of. by rewrite map_map.
Qed.

Lemma post_chunks_lookup c name comments j ch :
  comments <> [] ->
  post_chunks c name comments !! j = Some ch ->
  ch = chunk_at c name comments (j * c) /\ j < ceil_div (length comments) c.
Proof.
  intros Hne. rewrite post_chunks_eq by done.
  change (map ?f ?l) with (f <$> l). rewrite list_lookup_fmap.
  destruct (seq 0 (ceil_div (length comments) c) !! j) as [j'|] eqn:Hj; [|done].
  apply lookup_seq in Hj as [-> Hlt]. simpl. by intros [= <-].
Qed.

(** The chunks of a post with at least one comment partition its list. *)
Lemma post_chunks_partition c name comments :
  0 < c -> comments <> [] ->
  let cs := post_chunks c name comments in
  length cs = ceil_div (length comments) c /\
  map cd_chunk_index cs = seq 0 (length cs) /\
  (forall j ch, cs !! j = Some ch -> S j < length cs -> length (cd_comment_ids ch) = c) /\
  (forall ch, last cs = Some ch ->
     1 <= length (cd_comment_ids ch) /\ length (cd_comment_ids ch) <= c) /\
  concat (map cd_comment_ids cs) = comments.
Proof.
  intros Hc Hne cs.
  assert (Hlen : length cs = ceil_div (length comments) c).
  { unfold cs. rewrite post_chunks_eq by done. by rewrite length_map, length_seq. }
  split_and!.
  - done.
  - rewrite Hlen. unfold cs. rewrite post_chunks_eq by done.
    rewrite map_map. cbn [chunk_at cd_chunk_index].
    rewrite (map_ext _ id); [apply map_id|].
    intros j. apply Nat.div_mul. lia.
  - intros j ch Hj Hlt. apply post_chunks_lookup in Hj as [-> _]; [|done].
    cbn [chunk_at cd_comment_ids]. rewrite slice_length.
    rewrite Hlen in Hlt. apply ceil_div_lt in Hlt; [|done].
    simpl in Hlt. lia.
  - intros ch Hlast. rewrite last_lookup in Hlast.
    apply post_chunks_lookup in Hlast as [-> Hlt]; [|done].
    cbn [chunk_at cd_comment_ids]. rewrite slice_length.
    apply ceil_div_lt in Hlt; [|done]. lia.
  - unfold cs. rewrite post_chunks_eq by done.
    rewrite map_map. cbn [chunk_at cd_comment_ids].
    apply (concat_slices comments c _ 0); [done|].
    simpl. by apply ceil_div_ge.
Qed.

(** C2: for a post with [N >= 1] deduplicated comment identifiers and the
    chunk capacity 1000, [create_chunked_files] writes exactly [ceil(N/1000)]
    chunks for it; their indices are 0, 1, 2, ... in writing order; every
    chunk but the last holds exactly 1000 identifiers and the last one at
    most 1000 (and at least one); the chunks' [comment_ids] in index order,
    put end to end, are the post's list.  (Post identifiers are strings, each
    once in the mapping.) *)
Theorem C2_chunks_partition (cdir odir : string) (m : pydict (list json))
    (name : string) (comments : list json) :
  NoDup (dict_keys m) ->
  Forall str_key m ->
  dict_lookup m (KStr name) = Some comments ->
  1 <= length comments ->
  exists self',
    create_chunked_files m (init cdir odir) = (Ok tt, self') /\
    let cs := chunks_written_for name (written self') in
    length cs = ceil_div (length comments) 1000 /\
    map cd_chunk_index cs = seq 0 (length cs) /\
    (forall j ch, cs !! j = Some ch -> S j < length cs ->
       length (cd_comment_ids ch) = 1000) /\
    (forall ch, last cs = Some ch ->
       1 <= length (cd_comment_ids ch) /\ length (cd_comment_ids ch) <= 1000) /\
    concat (map cd_comment_ids cs) = comments.
Proof.
  intros Hnd Hstr Hlook Hlen.
  exists (chunked (init cdir odir) m). split.
  - apply create_chunked_files_run; try done. cbn [init chunk_size]. lia.
  - cbn [chunked written init app output_dir].
    change (chunk_size _) with 1000.
    rewrite (chunks_written_for_lookup name 1000 odir m comments) by done.
    apply post_chunks_partition; [lia|].
    intros ->. simpl in Hlen. lia.
Qed.

Lemma C2_chunks_partition_witness :
  exists self',
    create_chunked_files [(KStr "p", [JStr "a"; JStr "b"]); (KStr "q", [])] (init "in" "out")
    = (Ok tt, self') /\
    concat (map cd_comment_ids (chunks_written_for "p" (written self'))) = [JStr "a"; JStr "b"].
Proof.
  destruct (C2_chunks_partition "in" "out"
              [(KStr "p", [JStr "a"; JStr "b"]); (KStr "q", [])] "p" [JStr "a"; JStr "b"])
    as (self' & Hrun & _ & _ & _ & _ & Hcat).
  - simpl. apply NoDup_cons. split.
    + rewrite list_elem_of_singleton. discriminate.
    + apply NoDup_singleton.
  - repeat constructor; eexists; reflexivity.
  - reflexivity.
  - simpl. lia.
  - exists self'. by split.
Defined.

(** C3: after [create_chunked_files], for every post entry of the index the
    [count] fields of its chunk descriptors add up to its [total_comments],
    which is the length of that post's deduplicated comment list; and the
    run-level stats are: [total_posts] the number of post entries,
    [total_comments] the sum of the posts' [total_comments], [total_chunks]
    the sum of the posts' chunk counts. *)
Theorem C3_index_counts (cdir odir : string) (m : pydict (list json)) :
  NoDup (dict_keys m) ->
  Forall str_key m ->
  exists self',
    create_chunked_files m (init cdir odir) = (Ok tt, self') /\
    let idx := index_data self' in
    (forall k e, (k, e) ∈ posts idx ->
       sum_list (map count (chunks e)) = total_comments e /\
       chunk_count e = length (chunks e) /\
       exists comments, dict_lookup m k = Some comments /\
                        total_comments e = length comments) /\
    stats_total_posts (stats idx) = length (posts idx) /\
    stats_total_comments (stats idx)
      = sum_list (map (fun p => total_comments (snd p)) (posts idx)) /\
    stats_total_chunks (stats idx)
      = sum_list (map (fun p => chunk_count (snd p)) (posts idx)).
Proof.
  intros Hnd Hstr.
  exists (chunked (init cdir odir) m). split.
  - apply create_chunked_files_run; try done. cbn [init chunk_size]. lia.
  - cbn [chunked index_data posts stats stats_total_posts stats_total_comments
         stats_total_chunks].
    change (chunk_size _) with 1000. split_and!.
    + intros k e Hin.
      apply elem_of_posts in Hin as (name & comments & -> & Hne & Hlook & ->); [|done].
      split_and!.
      * apply entry_of_sum. lia.
      * done.
      * by exists comments.
    + done.
    + by rewrite posts_total_comments.
    + by rewrite posts_total_chunks.
Qed.

Lemma C3_index_counts_witness :
  exists self',
    create_chunked_files [(KStr "p", [JStr "a"; JStr "b"]); (KStr "q", [])] (init "in" "out")
    = (Ok tt, self') /\
    stats_total_posts (stats (index_data self')) = length (posts (index_data self')).
Proof.
  destruct (C3_index_counts "in" "out" [(KStr "p", [JStr "a"; JStr "b"]); (KStr "q", [])])
    as (self' & Hrun & _ & Hposts & _).
  - simpl. apply NoDup_cons. split.
    + rewrite list_elem_of_singleton. discriminate.
    + apply NoDup_singleton.
  - repeat constructor; eexists; reflexivity.
  - exists self'. by split.
Defined.

(** C5: a post whose deduplicated comment list is empty gets no chunk file
    and no entry under [posts] of the index; every post of the index has at
    least one comment and at least one chunk. *)
Theorem C5_empty_posts_excluded (cdir odir : string) (m : pydict (list json)) :
  NoDup (dict_keys m) ->
  Forall str_key m ->
  exists self',
    create_chunked_files m (init cdir odir) = (Ok tt, self') /\
    (forall name, dict_lookup m (KStr name) = Some [] ->
       chunks_written_for name (written self') = [] /\
       dict_lookup (posts (index_data self')) (KStr name) = None) /\
    (forall k e, (k, e) ∈ posts (index_data self') ->
       1 <= total_comments e /\ 1 <= chunk_count e /\ 1 <= length (chunks e)).
Proof.
  intros Hnd Hstr.
  exists (chunked (init cdir odir) m). split.
  - apply create_chunked_files_run; try done. cbn [init chunk_size]. lia.
  - cbn [chunked index_data posts written init app output_dir].
    change (chunk_size _) with 1000. split.
    + intros name Hlook. split.
      * by rewrite (chunks_written_for_lookup name 1000 odir m []).
      * apply dict_lookup_None. intros Hin.
        apply list_elem_of_fmap in Hin as ([k e] & Hk & Hin). simpl in Hk. subst k.
        apply elem_of_posts in Hin as (name' & comments & _ & Hne & Hlook' & _); [|done].
        congruence.
    + intros k e Hin.
      apply elem_of_posts in Hin as (name & comments & -> & Hne & Hlook & ->); [|done].
      assert (1 <= length comments) by (destruct comments; [done | simpl; lia]).
      assert (1 <= ceil_div (length comments) 1000).
      { rewrite ceil_div_step by lia. lia. }
      unfold entry_of, starts_of. cbn [total_comments chunk_count chunks].
      rewrite !length_map, length_seq. lia.
Qed.

Lemma C5_empty_posts_excluded_witness :
  exists self',
    create_chunked_files [(KStr "p", [JStr "a"; JStr "b"]); (KStr "q", [])] (init "in" "out")
    = (Ok tt, self') /\
    dict_lookup (posts (index_data self')) (KStr "q") = None.
Proof.
  destruct (C5_empty_posts_excluded "in" "out"
              [(KStr "p", [JStr "a"; JStr "b"]); (KStr "q", [])])
    as (self' & Hrun & Hempty & _).
  - simpl. apply NoDup_cons. split.
    + rewrite list_elem_of_singleton. discriminate.
    + apply NoDup_singleton.
  - repeat constructor; eexists; reflexivity.
  - exists self'. split; [done|]. by apply Hempty.
Defined.

(** ** Sorting *)

Section sort_reverse_facts.
Context {A : Type} (key : A -> Z).

Lemma insert_desc_perm x l : insert_desc key x l ≡ₚ x :: l.
Proof.
  induction l as [|y l IH]; simpl; [done|].
  destruct (key x <? key y)%Z; [|done].
  rewrite IH. apply Permutation_swap.
Qed.

Lemma sort_reverse_perm l : sort_reverse key l ≡ₚ l.
Proof.
  induction l as [|x l IH]; simpl; [done|].
  unfold sort_reverse in *. simpl. by rewrite insert_desc_perm, IH.
Qed.

Lemma insert_desc_descending x l :
  descending key l -> descending key (insert_desc key x l).
Proof.
  unfold descending.
  induction l as [|y l IH]; intros Hl; simpl.
  - repeat constructor.
  - apply StronglySorted_inv in Hl as [Hl Hy].
    destruct (Z.ltb_spec (key x) (key y)) as [Hlt|Hge].
    + constructor; [by apply IH|].
      rewrite insert_desc_perm. constructor; [lia | done].
    + constructor; [by constructor|].
      constructor; [done|].
      eapply Forall_impl; [exact Hy|]. simpl. intros z Hz. lia.
Qed.

Lemma sort_reverse_descending l : descending key (sort_reverse key l).
Proof.
  induction l as [|x l IH].
  - constructor.
  - unfold sort_reverse in *. simpl. by apply insert_desc_descending.
Qed.

(** Stability: the elements of any one key keep their order. *)
Lemma insert_desc_stable x l (v : Z) :
  filter (fun y => key y = v) (insert_desc key x l)
  = filter (fun y => key y = v) (x :: l).
Proof.
  induction l as [|y l IH]; simpl; [done|].
  destruct (Z.ltb_spec (key x) (key y)) as [Hlt|Hge]; [|done].
  rewrite (filter_cons _ y), IH, !(filter_cons _ x), (filter_cons _ y).
  repeat case_decide; try done. lia.
Qed.

Lemma sort_reverse_stable l (v : Z) :
  filter (fun y => key y = v) (sort_reverse key l) = filter (fun y => key y = v) l.
Proof.
  induction l as [|x l IH]; [done|].
  unfold sort_reverse in *. simpl. rewrite insert_desc_stable.
  by rewrite !(filter_cons _ x), IH.
Qed.

(** A descending list is determined by the sub-lists of its keys: whatever
    stable sort is run, the result is the one of [sort_reverse]. *)
Lemma descending_stable_unique (l1 l2 : list A) :
  descending key l1 -> descending key l2 ->
  (forall v, filter (fun y => key y = v) l1 = filter (fun y => key y = v) l2) ->
  l1 = l2.
Proof.
  revert l2. induction l1 as [|x l1 IH]; intros l2 H1 H2 Hst.
  - destruct l2 as [|y l2]; [done|].
    specialize (Hst (key y)). by rewrite filter_nil, filter_cons_True in Hst.
  - destruct l2 as [|y l2].
    { specialize (Hst (key x)). by rewrite filter_nil, filter_cons_True in Hst. }
    apply StronglySorted_inv in H1 as [H1 Hx].
    apply StronglySorted_inv in H2 as [H2 Hy].
    assert (x = y) as <-.
    { destruct (decide (key y = key x)) as [Heq|Hne].
      - specialize (Hst (key x)). rewrite !filter_cons_True in Hst by done. congruence.
      - assert (Hxin : x ∈ l2).
        { pose proof (Hst (key x)) as Hkx.
          rewrite (filter_cons_True _ x), (filter_cons_False _ y) in Hkx by done.
          assert (Hin : x ∈ filter (fun y0 => key y0 = key x) l2)
            by (rewrite <- Hkx; apply list_elem_of_here).
          by apply list_elem_of_filter in Hin as [_ ?]. }
        assert (Hyin : y ∈ l1).
        { pose proof (Hst (key y)) as Hky.
          rewrite (filter_cons_False _ x), (filter_cons_True _ y) in Hky
            by (done || congruence).
          assert (Hin : y ∈ filter (fun y0 => key y0 = key y) l1)
            by (rewrite Hky; apply list_elem_of_here).
          by apply list_elem_of_filter in Hin as [_ ?]. }
        rewrite Forall_forall in Hx, Hy.
        specialize (Hx y Hyin). specialize (Hy x Hxin). simpl in Hx, Hy. lia. }
    f_equal. apply IH; [done|done|].
    intros v. specialize (Hst v). rewrite !(filter_cons _ x) in Hst.
    case_decide; [congruence | done].
Qed.

Lemma sort_reverse_unique l l' :
  descending key l' ->
  (forall v, filter (fun y => key y = v) l' = filter (fun y => key y = v) l) ->
  l' = sort_reverse key l.
Proof.
  intros Hd Hst. apply descending_stable_unique; [done|apply sort_reverse_descending|].
  intros v. by rewrite sort_reverse_stable.
Qed.

Lemma sort_reverse_length l : length (sort_reverse key l) = length l.
Proof. apply Permutation_length, sort_reverse_perm. Qed.

Lemma elem_of_sort_reverse l x : x ∈ sort_reverse key l <-> x ∈ l.
Proof. by rewrite sort_reverse_perm. Qed.
End sort_reverse_facts.

(** ** Index and summary *)

(** C6: the summary written by [create_index_files] lists the posts of the
    index by comment count in descending order, posts with equal counts in
    the order the index has them; for counts [5, 20, 5, 1] in that order the
    summary order is [20, 5, 5, 1], the two posts with 5 comments in their
    original order. *)
Theorem C6_summary_sorted_stable (self : organizer) :
  (exists post_list,
      create_index_files self
      = (Ok tt,
         with_posts_written self (posts (index_data self))
           (written self ++
            [(path_join (output_dir self) "index.json", IndexFile (index_data self));
             (path_join (output_dir self) "summary.json",
              SummaryFile post_list (stats (index_data self)))])) /\
      post_list ≡ₚ make_post_list (posts (index_data self)) /\
      descending (fun x => Z.of_nat (comment_count x)) post_list /\
      forall n, filter (fun x => comment_count x = n) post_list
                = filter (fun x => comment_count x = n)
                    (make_post_list (posts (index_data self)))) /\
  let entry n := {| total_comments := n; chunks := []; chunk_count := 0 |} in
  sort_reverse (fun x => Z.of_nat (comment_count x))
    (make_post_list [(KStr "p1", entry 5); (KStr "p2", entry 20);
                     (KStr "p3", entry 5); (KStr "p4", entry 1)])
  = [{| sp_shortcode := KStr "p2"; comment_count := 20 |};
     {| sp_shortcode := KStr "p1"; comment_count := 5 |};
     {| sp_shortcode := KStr "p3"; comment_count := 5 |};
     {| sp_shortcode := KStr "p4"; comment_count := 1 |}].
Proof.
  split; [|reflexivity].
  exists (sort_reverse (fun x => Z.of_nat (comment_count x))
            (make_post_list (posts (index_data self)))).
  split_and!.
  - destruct self as [? ? ? [? ?] ?]. unfold create_index_files.
    rewrite bind_get. unfold write_file. rewrite bind_modify. unfold modify.
    unfold with_posts_written.
    cbn [comments_dir output_dir chunk_size index_data posts stats written].
    by rewrite <- app_assoc.
  - apply sort_reverse_perm.
  - apply sort_reverse_descending.
  - intros n.
    rewrite (list_filter_iff _ (fun x => Z.of_nat (comment_count x) = Z.of_nat n))
      by (intros x; lia).
    rewrite sort_reverse_stable. apply list_filter_iff. intros x. lia.
Qed.

(** ** Ingestion: files add to the aggregated mapping *)

Lemma apply_delta_nil st : apply_delta [] 0 st = st.
Proof. destruct st. unfold apply_delta. simpl. by rewrite Nat.add_0_r. Qed.

Lemma apply_delta_app d1 n1 d2 n2 st :
  apply_delta d2 n2 (apply_delta d1 n1 st) = apply_delta (d1 ++ d2) (n1 + n2) st.
Proof.
  unfold apply_delta. simpl. rewrite foldl_app. f_equal. lia.
Qed.


Lemma additive_ret : additive (ret tt).
Proof. exists (Ok tt), [], 0. intros st. by rewrite apply_delta_nil. Qed.

Lemma additive_raise e : additive (raise e).
Proof. exists (Raise e), [], 0. intros st. by rewrite apply_delta_nil. Qed.

Lemma additive_extend_comments k ids : additive (extend_comments k ids).
Proof.
  exists (Ok tt), [(k, ids)], 0. intros st.
  unfold extend_comments, modify, apply_delta. simpl. by rewrite Nat.add_0_r.
Qed.

Lemma additive_count_entry : additive count_entry.
Proof. exists (Ok tt), [], 1. intros st. done. Qed.

Lemma additive_bind_lift {A} (r : result A) (f : A -> M parse_state unit) :
  (forall x, additive (f x)) -> additive (bind (lift r) f).
Proof.
  intros Hf. destruct r as [x|e].
  - destruct (Hf x) as (res & delta & n & Hx). exists res, delta, n. intros st.
    rewrite bind_lift_ok. apply Hx.
  - exists (Raise e), [], 0. intros st. by rewrite bind_lift_raise, apply_delta_nil.
Qed.

Lemma additive_seq (a b : M parse_state unit) :
  additive a -> additive b -> additive (bind a (fun _ => b)).
Proof.
  intros (ra & da & na & Ha) (rb & db & nb & Hb).
  destruct ra as [[]|e].
  - exists rb, (da ++ db), (na + nb). intros st.
    erewrite bind_ok by apply Ha. by rewrite Hb, apply_delta_app.
  - exists (Raise e), da, na. intros st. by erewrite bind_raise by apply Ha.
Qed.

Lemma additive_for_each {A} (xs : list A) (body : A -> M parse_state unit) :
  (forall x, additive (body x)) -> additive (for_each xs body).
Proof.
  intros Hbody. induction xs as [|x xs IH]; simpl.
  - apply additive_ret.
  - by apply additive_seq.
Qed.

Lemma additive_try_except (a : M parse_state unit) (handler : exn -> M parse_state unit) :
  additive a -> (forall e, additive (handler e)) -> additive (try_except a handler).
Proof.
  intros (ra & da & na & Ha) Hh. destruct ra as [[]|e].
  - exists (Ok tt), da, na. intros st. unfold try_except. by rewrite Ha.
  - destruct (Hh e) as (rh & dh & nh & Hhe).
    exists rh, (da ++ dh), (na + nh). intros st.
    unfold try_except. by rewrite Ha, Hhe, apply_delta_app.
Qed.

Lemma additive_parse_log shortcode log : additive (parse_log shortcode log).
Proof.
  unfold parse_log. destruct log; try apply additive_ret.
  destruct (dict_get d "storedIds" (JList [])); try apply additive_ret.
  apply additive_bind_lift. intros k. apply additive_extend_comments.
Qed.

Lemma additive_parse_entry entry : additive (parse_entry entry).
Proof.
  unfold parse_entry. destruct entry; try apply additive_ret.
  destruct (truthy _); [|apply additive_ret].
  apply additive_bind_lift. intros logs.
  apply additive_seq; [|apply additive_count_entry].
  apply additive_for_each. intros log. apply additive_parse_log.
Qed.

Lemma additive_parse_file content : additive (parse_file content).
Proof.
  unfold parse_file. apply additive_try_except; [|intros; apply additive_ret].
  destruct content as [[]|]; try apply additive_raise.
  apply additive_for_each. intros entry. apply additive_parse_entry.
Qed.




(** The mapping that the ingestion returns has each post identifier once. *)
Lemma parse_json_files_keys_NoDup (listing : list (string * option json)) :
  NoDup (dict_keys (shortcode_comments (parse_json_files listing))).
Proof.
  unfold parse_json_files, parse_json_files_loop.
  destruct (additive_for_each
              (filter (fun f => is_json_file (fst f) = true) listing)
              (fun f => parse_file (snd f))) as (res & delta & n & Hrun).
  { intros f. apply additive_parse_file. }
  rewrite Hrun. unfold apply_delta. cbn [snd shortcode_comments]. clear Hrun.
  assert (Hstart : NoDup (dict_keys (@nil (pykey * list json)))) by constructor.
  revert Hstart. generalize (@nil (pykey * list json)) as m.
  induction delta as [|[k ids] delta IH]; intros m Hm; simpl; [done|].
  apply IH. unfold dd_extend. by apply dict_keys_setitem_NoDup.
Qed.



Lemma length_filter_split {A} (P : A -> Prop) `{!forall x, Decision (P x)} (l : list A) :
  length (filter P l) + length (filter (fun x => ~ P x) l) = length l.
Proof.
  rewrite <- length_app. apply Permutation_length, filter_app_complement.
Qed.



(** ** Entries of the wrong shape *)


































(** ** Text *)

(** The runs are not empty, are made of characters that satisfy [p], and put
    end to end they are the characters of the text that satisfy [p]. *)
Lemma runs_acc_spec (p : ascii -> bool) (s : list ascii) : forall cur,
  forallb p cur = true ->
  Forall (fun r => r <> [] /\ forallb p r = true) (runs_acc p cur s) /\
  concat (runs_acc p cur s) = rev cur ++ filter (fun c => p c = true) s.
Proof.
  assert (Hflush : forall cur, forallb p cur = true ->
    Forall (fun r => r <> [] /\ forallb p r = true)
           (match cur with [] => [] | _ => [rev cur] end) /\
    concat (match cur with [] => [] | _ => [rev cur] end) = rev cur).
  { intros [|c cur] Hcur; [by split|]. split.
    - constructor; [|constructor]. split.
      + simpl. intros Hnil. by apply app_eq_nil in Hnil as [_ ?].
      + rewrite forallb_forall in *. intros x Hx. apply Hcur. by apply in_rev.
    - simpl. by rewrite app_nil_r. }
  induction s as [|c s IH]; intros cur Hcur; simpl.
  - destruct (Hflush cur Hcur) as [Hall Hcat]. split; [done|].
    by rewrite Hcat, filter_nil, app_nil_r.
  - rewrite filter_cons. destruct (p c) eqn:Hc.
    + destruct (IH (c :: cur)) as [Hall Hcat].
      { simpl. by rewrite Hc. }
      split; [done|]. rewrite Hcat. simpl. by rewrite <- app_assoc.
    + destruct (Hflush cur Hcur) as [Hall Hcat].
      destruct (IH []) as [Hall' Hcat']; [done|].
      split.
      * by apply Forall_app.
      * rewrite concat_app, Hcat, Hcat'. done.
Qed.


Lemma lower_char_not_upper (c : ascii) : is_upper (lower_char c) = false.
Proof. by destruct c as [[] [] [] [] [] [] [] []]. Qed.

(** A lower-cased text holds no upper-case letter. *)
Lemma lower_spec (s : string) :
  forallb (fun c => negb (is_upper c)) (list_ascii_of_string (lower s)) = true.
Proof.
  unfold lower. rewrite list_ascii_of_string_of_list_ascii.
  apply forallb_forall. intros c Hc. apply in_map_iff in Hc as (c0 & <- & _).
  by rewrite lower_char_not_upper.
Qed.

(** ** Search index *)




(** ** Liked words *)

Section totals_facts.
Implicit Types (m : odict string (list Z)) (w : string).






End totals_facts.




Lemma descending_take {A} (key : A -> Z) n (l : list A) :
  descending key l -> descending key (take n l).
Proof.
  unfold descending. intros Hl. rewrite <- (take_drop n l) in Hl.
  by apply StronglySorted_app_1_l in Hl.
Qed.



(** One like count is recorded for each occurrence of a word: a word that a
    single liked comment contains twice enters the ranking, although the
    code's comment asks for at least 2 liked comments. *)
Lemma liked_words_count_occurrences :
  top_liked_words [example_comment "1" "great great" 7]
  = [{| lw_word := "great"; avgLikes := 7; lw_count := 2 |}].
Proof. reflexivity. Qed.

(** * Further properties *)

(** ** Loops and invariants *)

Section more_monad_facts.
Context {S : Type}.

Lemma for_each_app_bind {A} (xs ys : list A) (body : A -> M S unit) s :
  for_each (xs ++ ys) body s
  = bind (for_each xs body) (fun _ => for_each ys body) s.
Proof.
  revert s. induction xs as [|x xs IH]; intros s; simpl; [done|].
  unfold bind in *. destruct (body x s) as [[[]|e] s1]; [apply IH | done].
Qed.

Lemma for_fold_app {A B} (xs ys : list A) (acc : B) (body : B -> A -> M S B) s :
  for_fold (xs ++ ys) acc body s
  = bind (for_fold xs acc body) (fun acc' => for_fold ys acc' body) s.
Proof.
  revert acc s. induction xs as [|x xs IH]; intros acc s; simpl; [done|].
  unfold bind in *. destruct (body acc x s) as [[acc1|e] s1]; [apply IH | done].
Qed.

Lemma for_each_ext {A} (xs : list A) (body1 body2 : A -> M S unit) s :
  (forall x st, body1 x st = body2 x st) ->
  for_each xs body1 s = for_each xs body2 s.
Proof.
  intros Hext. revert s. induction xs as [|x xs IH]; intros s; simpl; [done|].
  unfold bind. rewrite Hext. destruct (body2 x s) as [[[]|e] s1]; [apply IH | done].
Qed.

Section keeps_facts.
Context (P : S -> Prop).

Lemma keeps_ret {A} (a : A) : keeps P (ret a).
Proof. by intros st. Qed.

Lemma keeps_raise {A} e : keeps P (raise (A := A) e).
Proof. by intros st. Qed.

Lemma keeps_lift {A} (r : result A) : keeps P (lift r).
Proof. by intros st. Qed.

Lemma keeps_get : keeps P get.
Proof. by intros st. Qed.

Lemma keeps_modify (f : S -> S) : (forall st, P st -> P (f st)) -> keeps P (modify f).
Proof. intros Hf st Hst. by apply Hf. Qed.

Lemma keeps_bind {A B} (a : M S A) (f : A -> M S B) :
  keeps P a -> (forall x, keeps P (f x)) -> keeps P (bind a f).
Proof.
  intros Ha Hf st Hst. unfold bind. specialize (Ha st Hst).
  destruct (a st) as [[x|e] s1]; simpl in *; [by apply Hf | done].
Qed.

Lemma keeps_for_each {A} (xs : list A) (body : A -> M S unit) :
  (forall x, keeps P (body x)) -> keeps P (for_each xs body).
Proof.
  intros Hbody. induction xs as [|x xs IH]; simpl.
  - apply keeps_ret.
  - apply keeps_bind; [apply Hbody | done].
Qed.

Lemma keeps_try_except {A} (a : M S A) (handler : exn -> M S A) :
  keeps P a -> (forall e, keeps P (handler e)) -> keeps P (try_except a handler).
Proof.
  intros Ha Hh st Hst. unfold try_except. specialize (Ha st Hst).
  destruct (a st) as [[x|e] s1]; simpl in *; [done | by apply Hh].
Qed.
End keeps_facts.
End more_monad_facts.

(** ** Deduplication, again *)

Lemma keyed_lookup_None (seen rest : pydict json) k x :
  keyed (seen ++ (k, x) :: rest) -> dict_lookup seen k = None.
Proof.
  intros [_ Hnd]. apply dict_lookup_None. intros Hin.
  unfold dict_keys in Hnd. rewrite map_app in Hnd.
  apply NoDup_app in Hnd as (_ & Hdisj & _). apply (Hdisj _ Hin).
  simpl. apply list_elem_of_here.
Qed.

(** Fed with the objects of a well-keyed dict, the loop of [dict.fromkeys]
    rebuilds that dict. *)
Lemma fromkeys_loop_replay (rest : pydict json) : forall seen,
  keyed (seen ++ rest) ->
  fromkeys_loop seen (map snd rest) = Ok (seen ++ rest).
Proof.
  induction rest as [|[k x] rest IH]; intros seen Hk; simpl.
  - by rewrite app_nil_r.
  - unfold fromkeys_step.
    assert (Hx : hash_key x = Ok k).
    { destruct Hk as [Hall _]. apply Forall_app in Hall as [_ Hall].
      by apply Forall_cons in Hall as [? _]. }
    rewrite Hx, (keyed_lookup_None seen rest k x Hk).
    rewrite (IH (seen ++ [(k, x)])); rewrite <- app_assoc; done.
Qed.

Lemma fromkeys_loop_keyed xs : forall seen d,
  keyed seen -> fromkeys_loop seen xs = Ok d -> keyed d.
Proof.
  induction xs as [|x xs IH]; intros seen d Hk; simpl.
  - by intros [= <-].
  - unfold fromkeys_step. destruct (hash_key x) as [k|e] eqn:Hx; [|done].
    apply IH. destruct (dict_lookup seen k) eqn:Hlook; [done|].
    destruct Hk as [Hall Hnd]. split.
    + apply Forall_app. split; [done|]. by repeat constructor.
    + unfold dict_keys. rewrite map_app. apply NoDup_app. split_and!; [done| |].
      * intros k' Hin Hin'. apply list_elem_of_singleton in Hin'. simpl in Hin'. subst k'.
        by apply dict_lookup_None in Hlook.
      * apply NoDup_singleton.
Qed.

Lemma list_dict_fromkeys_idempotent l out :
  list_dict_fromkeys l = Ok out -> list_dict_fromkeys out = Ok out.
Proof.
  unfold list_dict_fromkeys.
  destruct (fromkeys_loop [] l) as [d|e] eqn:Hd; [|done]. intros [= <-].
  assert (Hk : keyed d).
  { apply (fromkeys_loop_keyed l [] d); [|done]. split; constructor. }
  by rewrite (fromkeys_loop_replay d []).
Qed.

Lemma deduplicated_again m out : deduplicated m out -> deduplicated out out.
Proof.
  induction 1 as [|[k l] [k' u] m out [Hk Hu] Hrest IH]; constructor; [|done].
  simpl in *. split; [done|]. by apply list_dict_fromkeys_idempotent in Hu.
Qed.

Lemma deduplicated_keys m out : deduplicated m out -> dict_keys out = dict_keys m.
Proof.
  induction 1 as [|[k l] [k' u] m out [Hk Hu] Hrest IH]; [done|].
  simpl in *. by rewrite IH, Hk.
Qed.

(** A run of the loop of [deduplicate_comments] that returns has
    deduplicated every list. *)
Lemma dedup_loop_returns (r : loc) items : forall (h h' : heap),
  for_each items (fun item =>
      let! unique_comments := lift (list_dict_fromkeys (snd item)) in
      heap_setitem r (fst item) unique_comments) h
  = (Ok tt, h') ->
  exists out, deduplicated items out.
Proof.
  induction items as [|[k l] items IH]; intros h h' Hrun.
  - exists []. constructor.
  - cbn [for_each fst snd] in Hrun.
    destruct (list_dict_fromkeys l) as [u|e] eqn:Hu.
    + erewrite bind_ok in Hrun; [|rewrite bind_lift_ok; reflexivity].
      apply IH in Hrun as [out Hout].
      exists ((k, u) :: out). by constructor.
    + unfold bind, lift in Hrun. simpl in Hrun. discriminate.
Qed.

(** X1: deduplication is idempotent: once [deduplicate_comments] has returned,
    running it again on the mapping it returned returns that mapping and
    changes nothing in the store. *)
Theorem X1_deduplicate_idempotent (h h' : heap) (r r' : loc) :
  NoDup (dict_keys (heap_read h r)) ->
  deduplicate_comments r h = (Ok r', h') ->
  deduplicate_comments r' h' = (Ok r', h').
Proof.
  intros Hnd Hrun.
  destruct (h !! r) as [m|] eqn:Hh.
  - unfold heap_read in Hnd. rewrite Hh in Hnd.
    assert (Hout : exists out, deduplicated m out).
    { unfold deduplicate_comments in Hrun. rewrite bind_get in Hrun.
      unfold heap_read at 1 in Hrun. rewrite Hh in Hrun.
      unfold bind in Hrun.
      destruct (for_each m _ h) as [[[]|e] h1] eqn:Hloop; [|done].
      by apply dedup_loop_returns in Hloop. }
    destruct Hout as [out Hout].
    rewrite (deduplicate_comments_in_place h r m out) in Hrun by done.
    injection Hrun as <- <-.
    rewrite (deduplicate_comments_in_place (<[r:=out]> h) r out out).
    + by rewrite insert_insert_eq.
    + by rewrite (deduplicated_keys m out).
    + apply lookup_insert_eq.
    + by apply deduplicated_again in Hout.
  - assert (Hsame : deduplicate_comments r h = (Ok r, h)).
    { unfold deduplicate_comments. rewrite bind_get.
      unfold heap_read. by rewrite Hh. }
    rewrite Hsame in Hrun. injection Hrun as <- <-. exact Hsame.
Qed.

Lemma X1_deduplicate_idempotent_witness :
  exists h',
    deduplicate_comments 0 {[ 0 := [(KStr "p", [JStr "a"; JBool true; JStr "a"; JInt 1])] ]}
    = (Ok 0, h') /\
    deduplicate_comments 0 h' = (Ok 0, h').
Proof.
  assert (Hrun : deduplicate_comments 0
            {[ 0 := [(KStr "p", [JStr "a"; JBool true; JStr "a"; JInt 1])] ]}
          = (Ok 0, <[ 0 := [(KStr "p", [JStr "a"; JBool true])] ]>
                     {[ 0 := [(KStr "p", [JStr "a"; JBool true; JStr "a"; JInt 1])] ]})).
  { apply deduplicate_comments_in_place
      with (m := [(KStr "p", [JStr "a"; JBool true; JStr "a"; JInt 1])]).
    - simpl. apply NoDup_singleton.
    - apply lookup_singleton_eq.
    - repeat constructor. }
  eexists. split; [exact Hrun|].
  eapply X1_deduplicate_idempotent; [|exact Hrun].
  unfold heap_read. rewrite lookup_singleton_eq. simpl. apply NoDup_singleton.
Defined.

Lemma fromkeys_loop_spec xs : forall seen d,
  fromkeys_loop seen xs = Ok d ->
  exists ext,
    d = seen ++ ext /\
    sublist (map snd ext) xs /\
    (forall x, x ∈ xs -> exists k, hash_key x = Ok k /\ k ∈ dict_keys d) /\
    (forall k y, (k, y) ∈ ext ->
       (k ∉ dict_keys seen) /\
       exists pre post, xs = pre ++ y :: post /\
                        forall z, z ∈ pre -> hash_key z <> Ok k).
Proof.
  induction xs as [|x xs IH]; intros seen d; simpl.
  - intros [= <-]. exists []. rewrite app_nil_r. split_and!; [done|done| |].
    + intros x Hx. by apply elem_of_nil in Hx.
    + intros k y Hin. by apply elem_of_nil in Hin.
  - unfold fromkeys_step. destruct (hash_key x) as [k|e] eqn:Hx; [|done].
    destruct (dict_lookup seen k) as [v|] eqn:Hlook.
    + intros Hrun. destruct (IH seen d Hrun) as (ext & -> & Hsub & Hcov & Hfirst).
      assert (Hk : k ∈ dict_keys seen).
      { destruct (decide (k ∈ dict_keys seen)) as [?|Hn]; [done|].
        apply dict_lookup_None in Hn. congruence. }
      exists ext. split_and!; [done|by apply sublist_cons| |].
      * intros x' [->|Hx']%elem_of_cons; [|by apply Hcov].
        exists k. split; [done|]. unfold dict_keys. rewrite map_app, elem_of_app. by left.
      * intros k' y Hin. destruct (Hfirst k' y Hin) as (Hfresh & pre & post & -> & Hpre).
        split; [done|]. exists (x :: pre), post. split; [done|].
        intros z [->|Hz]%elem_of_cons; [|by apply Hpre].
        rewrite Hx. intros [= ->]. done.
    + intros Hrun.
      destruct (IH (seen ++ [(k, x)]) d Hrun) as (ext & -> & Hsub & Hcov & Hfirst).
      exists ((k, x) :: ext). rewrite <- app_assoc. split_and!; [done|by apply sublist_skip| |].
      * intros x' [->|Hx']%elem_of_cons.
        -- exists k. split; [done|]. unfold dict_keys.
           rewrite !map_app, !elem_of_app. right. left. apply list_elem_of_here.
        -- destruct (Hcov x' Hx') as (k' & Hk' & Hin). exists k'. split; [done|].
           by rewrite <- app_assoc in Hin.
      * intros k' y [[= -> ->]|Hin]%elem_of_cons.
        -- split; [by apply dict_lookup_None|].
           exists [], xs. split; [done|]. intros z Hz. by apply elem_of_nil in Hz.
        -- destruct (Hfirst k' y Hin) as (Hfresh & pre & post & -> & Hpre).
           unfold dict_keys in Hfresh. rewrite map_app, elem_of_app in Hfresh.
           split; [tauto|]. exists (x :: pre), post. split; [done|].
           intros z [->|Hz]%elem_of_cons; [|by apply Hpre].
           rewrite Hx. intros [= ->]. apply Hfresh. right. apply list_elem_of_here.
Qed.

(** X2: on hashable values of any kind, [list(dict.fromkeys(l))] keeps some
    of the members of [l] in their order; no two kept members are equal as
    keys ([True] and [1] are); every member of [l] is equal as a key to a
    kept one; and a kept member is the first of [l] with its key. *)
Theorem X2_fromkeys_keeps_first_of_each_key (l out : list json) :
  list_dict_fromkeys l = Ok out ->
  sublist out l /\
  NoDup (map hash_key out) /\
  (forall x, x ∈ l -> exists y, y ∈ out /\ hash_key y = hash_key x) /\
  (forall y, y ∈ out ->
     exists pre post, l = pre ++ y :: post /\
                      forall z, z ∈ pre -> hash_key z <> hash_key y).
Proof.
  unfold list_dict_fromkeys.
  destruct (fromkeys_loop [] l) as [d|e] eqn:Hd; [|done]. intros [= <-].
  assert (Hk : keyed d).
  { apply (fromkeys_loop_keyed l [] d); [|done]. split; constructor. }
  destruct Hk as [Hall Hnd].
  destruct (fromkeys_loop_spec l [] d Hd) as (ext & Hext & Hsub & Hcov & Hfirst).
  simpl in Hext. subst ext.
  assert (Hkeys : map hash_key (map snd d) = map Ok (dict_keys d)).
  { unfold dict_keys. rewrite !map_map. apply Forall_fmap_ext_1.
    eapply Forall_impl; [exact Hall|]. by intros [k y]. }
  split_and!.
  - done.
  - rewrite Hkeys. apply NoDup_fmap_2; [|done]. by intros ?? [=].
  - intros x Hx. destruct (Hcov x Hx) as (k & Hxk & Hin).
    apply list_elem_of_fmap in Hin as ([k' y] & -> & Hin).
    exists y. split; [apply list_elem_of_fmap; by exists (k', y)|].
    rewrite Forall_forall in Hall. specialize (Hall _ Hin). simpl in *. congruence.
  - intros y Hy. apply list_elem_of_fmap in Hy as ([k y'] & -> & Hin).
    destruct (Hfirst k y' Hin) as (_ & pre & post & Hl & Hpre).
    exists pre, post. split; [done|].
    rewrite Forall_forall in Hall. specialize (Hall _ Hin). simpl in *.
    rewrite Hall. exact Hpre.
Qed.

Lemma X2_fromkeys_keeps_first_of_each_key_witness :
  list_dict_fromkeys [JBool true; JStr "1"; JInt 1; JStr "1"] = Ok [JBool true; JStr "1"] /\
  NoDup (map hash_key [JBool true; JStr "1"]).
Proof.
  split; [reflexivity|].
  by destruct (X2_fromkeys_keeps_first_of_each_key
                 [JBool true; JStr "1"; JInt 1; JStr "1"] [JBool true; JStr "1"] eq_refl)
    as (_ & Hnd & _).
Defined.

Lemma not_hashable_raises x : ~ hashable x -> hash_key x = Raise TypeError.
Proof. unfold hashable. destruct x; simpl; tauto. Qed.

Lemma fromkeys_loop_raises xs : forall seen,
  Exists (fun x => ~ hashable x) xs -> fromkeys_loop seen xs = Raise TypeError.
Proof.
  induction xs as [|x xs IH]; intros seen Hex; [by apply Exists_nil in Hex|].
  simpl. unfold fromkeys_step.
  destruct (hash_key x) as [k|e] eqn:Hx.
  - apply IH. apply Exists_cons in Hex as [Hbad|?]; [|done].
    apply not_hashable_raises in Hbad. congruence.
  - destruct x; simpl in Hx; congruence.
Qed.

(** The loop of [deduplicate_comments] on the items [items] of a dict that
    has [rest] after them. *)
Lemma dedup_loop_frame (r : loc) items : forall out pre rest (h : heap),
  deduplicated items out ->
  NoDup (dict_keys (pre ++ items ++ rest)) ->
  h !! r = Some (pre ++ items ++ rest) ->
  for_each items (fun item =>
      let! unique_comments := lift (list_dict_fromkeys (snd item)) in
      heap_setitem r (fst item) unique_comments) h
  = (Ok tt, <[r := pre ++ out ++ rest]> h).
Proof.
  induction items as [|[k l] items IH]; intros out pre rest h Hd Hnd Hh.
  - apply Forall2_nil_inv_l in Hd as ->. simpl in *. unfold ret.
    by rewrite (insert_id h r _ Hh).
  - apply Forall2_cons_inv_l in Hd as ([k' u] & out' & [Hk Hu] & Hd & ->).
    simpl in Hk, Hu. subst k'.
    assert (Hpre : k ∉ dict_keys pre).
    { unfold dict_keys in *. rewrite map_app in Hnd.
      apply NoDup_app in Hnd as (_ & Hdisj & _).
      intros Hin. apply (Hdisj _ Hin). simpl. apply list_elem_of_here. }
    cbn [for_each fst snd]. rewrite Hu.
    erewrite bind_ok; [|rewrite bind_lift_ok; reflexivity].
    unfold heap_read. rewrite Hh. cbn [app].
    rewrite dict_setitem_app_here by done.
    rewrite (IH out' (pre ++ [(k, u)]) rest).
    + rewrite insert_insert_eq, <- app_assoc. done.
    + done.
    + rewrite <- app_assoc. simpl.
      unfold dict_keys in *. rewrite !map_app in *. simpl in *.
      by rewrite !map_app.
    + rewrite lookup_insert_eq. by rewrite <- app_assoc.
Qed.

(** X3: when a post's list holds a value that cannot be hashed (a list or a
    dict), [deduplicate_comments] raises [TypeError] at that post: the posts
    before it have been deduplicated in the mapping, that post and the posts
    after it are as they were. *)
Theorem X3_deduplicate_raises_midway
    (h : heap) (r : loc) (pre out : pydict (list json)) (k : pykey) (l : list json)
    (post : pydict (list json)) :
  NoDup (dict_keys (pre ++ (k, l) :: post)) ->
  h !! r = Some (pre ++ (k, l) :: post) ->
  deduplicated pre out ->
  Exists (fun x => ~ hashable x) l ->
  deduplicate_comments r h = (Raise TypeError, <[r := out ++ (k, l) :: post]> h).
Proof.
  intros Hnd Hh Hpre Hbad. unfold deduplicate_comments.
  rewrite bind_get. unfold heap_read at 1. rewrite Hh.
  erewrite bind_raise; [done|].
  rewrite for_each_app_bind.
  erewrite bind_ok; [|by apply (dedup_loop_frame r pre out [] ((k, l) :: post) h)].
  cbn [for_each fst snd app].
  unfold list_dict_fromkeys. rewrite fromkeys_loop_raises by done.
  erewrite bind_raise; [done|]. by rewrite bind_lift_raise.
Qed.

Lemma X3_deduplicate_raises_midway_witness :
  deduplicate_comments 0
    {[ 0 := [(KStr "p", [JStr "a"; JStr "a"]); (KStr "q", [JStr "b"; JList []]);
             (KStr "s", [JStr "c"; JStr "c"])] ]}
  = (Raise TypeError,
     <[ 0 := [(KStr "p", [JStr "a"]); (KStr "q", [JStr "b"; JList []]);
              (KStr "s", [JStr "c"; JStr "c"])] ]>
       {[ 0 := [(KStr "p", [JStr "a"; JStr "a"]); (KStr "q", [JStr "b"; JList []]);
                (KStr "s", [JStr "c"; JStr "c"])] ]}).
Proof.
  apply (X3_deduplicate_raises_midway _ 0 [(KStr "p", [JStr "a"; JStr "a"])]
           [(KStr "p", [JStr "a"])] (KStr "q") [JStr "b"; JList []]
           [(KStr "s", [JStr "c"; JStr "c"])]).
  - compute_done.
  - apply lookup_singleton_eq.
  - repeat constructor.
  - apply Exists_cons_tl, Exists_cons_hd. simpl. tauto.
Defined.

(** ** Ingestion, again *)

Lemma parse_file_passed_over content st :
  match content with
  | None => True
  | Some v => isinstance_dict v = false
  end ->
  parse_file content st = (Ok tt, st).
Proof. by destruct content as [[]|]. Qed.

(** X4: [parse_json_files] passes over a file whose name does not end in
    [.json] or starts with [._], a file that cannot be loaded, and a file
    whose content is not a dict (a list, for one): the result is the one
    without that file, and the files after it are processed. *)
Theorem X4_parse_passes_over_files
    (l1 l2 : list (string * option json)) (f : string * option json) :
  passed_over f ->
  parse_json_files (l1 ++ f :: l2) = parse_json_files (l1 ++ l2).
Proof.
  intros Hf. unfold parse_json_files, parse_json_files_loop.
  rewrite !filter_app, filter_cons.
  destruct (decide (is_json_file (fst f) = true)) as [Hname|Hname]; [|done].
  destruct Hf as [Hf|Hf]; [congruence|].
  rewrite !for_each_app_bind. unfold bind.
  destruct (for_each (filter _ l1) _ _) as [[[]|e] s1]; [|done].
  cbn [for_each]. by erewrite bind_ok by by apply parse_file_passed_over.
Qed.

Lemma X4_parse_passes_over_files_witness :
  parse_json_files
    [("a.json", Some (JList [JDict [("target", JStr "p"); ("logs", JList [])]]));
     ("b.json", Some (JDict []))]
  = parse_json_files [("b.json", Some (JDict []))].
Proof.
  exact (X4_parse_passes_over_files [] [("b.json", Some (JDict []))]
           ("a.json", Some (JList [JDict [("target", JStr "p"); ("logs", JList [])]]))
           (or_intror eq_refl)).
Defined.

Lemma parse_logs_raise_state shortcode logs : forall st e st',
  for_each logs (parse_log shortcode) st = (Raise e, st') -> st' = st.
Proof.
  destruct (hash_key shortcode) as [k|x] eqn:Hk.
  - assert (Hret : forall st, fst (for_each logs (parse_log shortcode) st) = Ok tt).
    { induction logs as [|log logs IH]; intros st; simpl; [done|].
      unfold bind. destruct (parse_log shortcode log st) as [[[]|e1] s1] eqn:Hlog; [apply IH|].
      unfold parse_log in Hlog. destruct log; try done.
      destruct (dict_get d "storedIds" (JList [])); try done.
      by rewrite Hk in Hlog. }
    intros st e st' Hrun. specialize (Hret st). by rewrite Hrun in Hret.
  - induction logs as [|log logs IH]; intros st e st'; simpl; [done|].
    unfold bind. destruct (parse_log shortcode log st) as [[[]|e1] s1] eqn:Hlog.
    + assert (s1 = st) as ->.
      { unfold parse_log in Hlog. destruct log; try (by injection Hlog).
        destruct (dict_get d "storedIds" (JList [])); try (by injection Hlog).
        by rewrite Hk in Hlog. }
      apply IH.
    + intros [= <- <-]. unfold parse_log in Hlog. destruct log; try done.
      destruct (dict_get d "storedIds" (JList [])); try done.
      rewrite Hk in Hlog. by injection Hlog.
Qed.

Lemma parse_entry_raise_state entry st e st' :
  parse_entry entry st = (Raise e, st') -> st' = st.
Proof.
  unfold parse_entry. destruct entry as [| | | | |d]; try done.
  destruct (truthy _); [|done].
  destruct (py_iter (dict_get d "logs" (JList []))) as [logs|x].
  - rewrite bind_lift_ok. unfold bind.
    destruct (for_each logs _ st) as [[[]|e1] s1] eqn:Hlogs; [done|].
    intros [= <- <-]. by apply parse_logs_raise_state in Hlogs.
  - rewrite bind_lift_raise. by intros [= <- <-].
Qed.

(** Whether an entry raises does not depend on the state. *)
Lemma entry_raises_run entry st :
  entry_raises entry = true -> exists e, parse_entry entry st = (Raise e, st).
Proof.
  unfold entry_raises.
  destruct (additive_parse_entry entry) as (res & delta & n & Hrun).
  rewrite Hrun. simpl. destruct res as [[]|e]; [done|]. intros _.
  exists e. pose proof (Hrun st) as Hst.
  pose proof (parse_entry_raise_state _ _ _ _ Hst) as Heq.
  by rewrite Heq in Hst.
Qed.

Lemma logs_not_iterable_raises entry :
  logs_not_iterable entry = true -> entry_raises entry = true.
Proof.
  destruct entry as [| | | | |d]; try done. unfold entry_raises. simpl.
  destruct (truthy _); [|done].
  by destruct (dict_get d "logs" (JList [])).
Qed.

Lemma parse_file_cut (pre post : list (string * json)) key bad st :
  entry_raises bad = true ->
  parse_file (Some (JDict (pre ++ (key, bad) :: post))) st
  = parse_file (Some (JDict pre)) st.
Proof.
  intros Hbad. unfold parse_file, try_except.
  rewrite map_app. cbn [map snd]. rewrite for_each_app_bind. unfold bind at 1.
  destruct (for_each (map snd pre) parse_entry st) as [[[]|e] s1]; [|done].
  cbn [for_each]. destruct (entry_raises_run bad s1 Hbad) as [e He].
  by erewrite bind_raise by exact He.
Qed.

(** X5: an entry on which the loop body raises (one whose target is true and
    whose [logs] is a number, a boolean or [null], for one) ends the work on
    its file: what the entries before it added is kept, the entries after it
    are not read, and the next files are processed.  The result is the one
    for the file cut before that entry. *)
Theorem X5_parse_entry_error_cuts_file
    (l1 l2 : list (string * option json)) (name key : string)
    (pre post : list (string * json)) (bad : json) :
  entry_raises bad = true ->
  parse_json_files (l1 ++ (name, Some (JDict (pre ++ (key, bad) :: post))) :: l2)
  = parse_json_files (l1 ++ (name, Some (JDict pre)) :: l2).
Proof.
  intros Hbad. unfold parse_json_files, parse_json_files_loop.
  rewrite !filter_app, !(filter_cons _ (name, _)). cbn [fst].
  destruct (decide (is_json_file name = true)) as [Hname|Hname]; [|done].
  rewrite !for_each_app_bind. unfold bind.
  destruct (for_each (filter _ l1) _ _) as [[[]|e] s1]; [|done].
  cbn [for_each snd]. unfold bind. by rewrite parse_file_cut.
Qed.

Lemma X5_parse_entry_error_cuts_file_witness :
  let good ids := JDict [("target", JStr "p");
                         ("logs", JList [JDict [("storedIds", JList ids)]])] in
  let bad := JDict [("target", JStr "q"); ("logs", JInt 7)] in
  logs_not_iterable bad = true /\
  parse_json_files [("a.json", Some (JDict [("u1", good [JStr "1"]); ("u2", bad);
                                             ("u3", good [JStr "2"])]))]
  = parse_json_files [("a.json", Some (JDict [("u1", good [JStr "1"])]))].
Proof.
  intros good bad. split; [reflexivity|].
  exact (X5_parse_entry_error_cuts_file [] [] "a.json" "u2"
           [("u1", good [JStr "1"])] [("u3", good [JStr "2"])] bad eq_refl).
Defined.

Lemma hash_truthy v k : truthy v = true -> hash_key v = Ok k -> truthy_key k.
Proof.
  destruct v as [|[]|z|s| |]; simpl; try done.
  - by intros _ [= <-].
  - intros Hz [= <-]. simpl. intros ->. done.
  - intros Hs [= <-]. simpl. intros ->. done.
Qed.

Lemma keeps_bind_lift {S A B} (P : S -> Prop) (r : result A) (f : A -> M S B) :
  (forall x, r = Ok x -> keeps P (f x)) -> keeps P (bind (lift r) f).
Proof.
  intros Hf st Hst. destruct r as [x|e]; [|done].
  rewrite bind_lift_ok. by apply Hf.
Qed.

Lemma keeps_truthy_parse_entry entry :
  keeps (fun st => Forall truthy_key (dict_keys (shortcode_comments st))) (parse_entry entry).
Proof.
  unfold parse_entry. destruct entry as [| | | | |d]; try apply keeps_ret.
  destruct (truthy _) eqn:Htruthy; [|apply keeps_ret].
  apply keeps_bind; [apply keeps_lift|]. intros logs.
  apply keeps_bind; [|intros _; by apply keeps_modify].
  apply keeps_for_each. intros log. unfold parse_log.
  destruct log; try apply keeps_ret.
  destruct (dict_get _ "storedIds" (JList [])); try apply keeps_ret.
  apply keeps_bind_lift. intros k Hk.
  apply keeps_modify. intros st Hst. cbn [shortcode_comments]. unfold dd_extend.
  apply Forall_forall. intros k0 [->|Hin]%elem_of_dict_keys_setitem.
  - by apply (hash_truthy _ _ Htruthy).
  - rewrite Forall_forall in Hst. by apply Hst.
Qed.

(** X6: a post identifier enters the aggregated mapping only if it is true
    as a condition: the empty string, [None], [0] and [False] are never keys
    of the mapping, and no key comes twice. *)
Theorem X6_parse_keys_truthy (listing : list (string * option json)) :
  Forall truthy_key (dict_keys (shortcode_comments (parse_json_files listing))) /\
  NoDup (dict_keys (shortcode_comments (parse_json_files listing))).
Proof.
  split; [|apply parse_json_files_keys_NoDup].
  unfold parse_json_files, parse_json_files_loop.
  apply (keeps_for_each
           (fun st => Forall truthy_key (dict_keys (shortcode_comments st)))).
  - intros f. unfold parse_file.
    apply keeps_try_except; [|intros; apply keeps_ret].
    destruct (snd f) as [[]|]; try apply keeps_raise.
    apply keeps_for_each. intros entry. apply keeps_truthy_parse_entry.
  - constructor.
Qed.

(** ** Chunked files, again *)

Lemma item_files_written odir c (m : pydict (list json)) name comments i :
  (KStr name, comments) ∈ m -> comments <> [] -> i ∈ starts_of c comments ->
  file_at c name (path_join (path_join odir "posts") name) comments i
  ∈ concat (map (item_files odir c) m).
Proof.
  intros Hin Hne Hi. apply list_elem_of_In, in_concat.
  exists (item_files odir c (KStr name, comments)). split.
  - apply in_map, list_elem_of_In, Hin.
  - apply list_elem_of_In. destruct comments; [done|].
    apply list_elem_of_fmap. by exists i.
Qed.

(** X7: the index agrees with the chunk files.  For every post of the index,
    the descriptors list, in order, the index and the count of the chunk
    files written for that post; a chunk file's count is the number of its
    identifiers; a descriptor's [file] is [posts/<post>/chunk_<index>.json]
    and a chunk file with that index and count was written at the path made
    of the output directory, [posts], the post and [chunk_<index>.json]. *)
Theorem X7_index_matches_chunk_files (cdir odir : string) (m : pydict (list json)) :
  NoDup (dict_keys m) ->
  Forall str_key m ->
  exists self',
    create_chunked_files m (init cdir odir) = (Ok tt, self') /\
    forall k e, (k, e) ∈ posts (index_data self') ->
      exists name, k = KStr name /\
        let cs := chunks_written_for name (written self') in
        map (fun c => (cd_chunk_index c, cd_count c)) cs
        = map (fun d => (index d, count d)) (chunks e) /\
        Forall (fun c => cd_count c = length (cd_comment_ids c) /\ cd_shortcode c = name) cs /\
        Forall (fun d =>
                  file d = "posts/" +:+ name +:+ "/chunk_" +:+ str_of_nat (index d) +:+ ".json" /\
                  exists c,
                    (path_join (path_join (path_join odir "posts") name)
                               ("chunk_" +:+ str_of_nat (index d) +:+ ".json"),
                     ChunkFile c) ∈ written self' /\
                    cd_chunk_index c = index d /\ cd_count c = count d)
               (chunks e).
Proof.
  intros Hnd Hstr.
  exists (chunked (init cdir odir) m). split.
  - apply create_chunked_files_run; try done. cbn [init chunk_size]. lia.
  - cbn [chunked index_data posts written init app output_dir].
    change (chunk_size _) with 1000.
    intros k e Hin.
    apply elem_of_posts in Hin as (name & comments & -> & Hne & Hlook & ->); [|done].
    exists name. split; [done|]. cbn zeta.
    rewrite (chunks_written_for_lookup name 1000 odir m comments) by done.
    assert (Hpc : post_chunks 1000 name comments
                  = map (chunk_at 1000 name comments) (starts_of 1000 comments))
      by (by destruct comments).
    rewrite Hpc. unfold entry_of. cbn [chunks]. split_and!.
    + by rewrite !map_map.
    + apply Forall_fmap, Forall_forall. by intros i _.
    + apply Forall_fmap, Forall_forall. intros i Hi. split; [done|].
      exists (chunk_at 1000 name comments i). split; [|done].
      apply dict_lookup_Some_elem in Hlook.
      by apply (item_files_written odir 1000 m name comments i).
Qed.

Lemma X7_index_matches_chunk_files_witness :
  exists self',
    create_chunked_files [(KStr "p", [JStr "a"; JStr "b"]); (KStr "q", [])] (init "in" "out")
    = (Ok tt, self') /\
    map (fun c => (cd_chunk_index c, cd_count c)) (chunks_written_for "p" (written self'))
    = [(0, 2)].
Proof.
  destruct (X7_index_matches_chunk_files "in" "out"
              [(KStr "p", [JStr "a"; JStr "b"]); (KStr "q", [])])
    as (self' & Hrun & Hposts).
  - compute_done.
  - repeat constructor; eexists; reflexivity.
  - exists self'. split; [done|].
    assert (Hself : self' = snd (create_chunked_files
                       [(KStr "p", [JStr "a"; JStr "b"]); (KStr "q", [])] (init "in" "out")))
      by (by rewrite Hrun).
    rewrite Hself. reflexivity.
Defined.

Lemma chunk_post_not_string acc k comments self :
  (forall name, k <> KStr name) -> comments <> [] ->
  chunk_post acc (k, comments) self = (Raise TypeError, self).
Proof.
  intros Hk Hne. unfold chunk_post. cbn [fst snd].
  destruct comments as [|x xs]; [done|]. rewrite bind_get.
  destruct k as [| |name]; try done. by destruct (Hk name).
Qed.

(** X8: [create_chunked_files] stops at the first post that has comments and
    whose identifier is not a string (a number, for one): [os.path.join]
    raises [TypeError], nothing catches it; the posts before it have their
    chunk files and index entries, the posts after it are not processed and
    the stats of the index are left as they were. *)
Theorem X8_chunking_stops_at_non_string_id
    (cdir odir : string) (pre post : pydict (list json)) (k : pykey) (comments : list json) :
  NoDup (dict_keys pre) ->
  Forall str_key pre ->
  (forall name, k <> KStr name) ->
  comments <> [] ->
  create_chunked_files (pre ++ (k, comments) :: post) (init cdir odir)
  = (Raise TypeError,
     with_posts_written (init cdir odir)
       (omap (item_entry 1000) pre)
       (concat (map (item_files odir 1000) pre))).
Proof.
  intros Hnd Hstr Hk Hne. unfold create_chunked_files.
  erewrite bind_raise; [done|].
  rewrite for_fold_app.
  erewrite bind_ok.
  2:{ apply (chunk_posts_loop 1000); try done.
      - cbn [init chunk_size]. lia.
      - intros k' _. apply not_elem_of_nil. }
  cbn [for_fold]. erewrite bind_raise; [done|].
  by apply chunk_post_not_string.
Qed.

Lemma X8_chunking_stops_at_non_string_id_witness :
  exists self',
    create_chunked_files
      [(KStr "p", [JStr "a"]); (KInt 7, [JStr "b"]); (KStr "q", [JStr "c"])]
      (init "in" "out")
    = (Raise TypeError, self') /\
    dict_keys (posts (index_data self')) = [KStr "p"] /\
    stats_total_posts (stats (index_data self')) = 0.
Proof.
  eexists. split.
  - apply (X8_chunking_stops_at_non_string_id "in" "out" [(KStr "p", [JStr "a"])]
             [(KStr "q", [JStr "c"])] (KInt 7) [JStr "b"]).
    + compute_done.
    + repeat constructor; eexists; reflexivity.
    + done.
    + done.
  - split; reflexivity.
Defined.

(** ** The analysis, again *)

Lemma dd_get_setitem {K A} `{EqDecision K} (m : odict K (list A)) k v k' :
  dd_get (dict_setitem m k v) k' = if decide (k = k') then v else dd_get m k'.
Proof. unfold dd_get. rewrite dict_lookup_setitem. by case_decide. Qed.

Lemma elem_of_set_add s k y : y ∈ set_add s k <-> y ∈ s \/ y = k.
Proof.
  unfold set_add. case_decide.
  - naive_solver.
  - rewrite elem_of_app, list_elem_of_singleton. naive_solver.
Qed.

Lemma NoDup_set_add s k : NoDup s -> NoDup (set_add s k).
Proof.
  intros Hnd. unfold set_add. case_decide; [done|].
  apply NoDup_app. split_and!; [done| |apply NoDup_singleton].
  intros x Hx ->%list_elem_of_singleton. done.
Qed.

Lemma grows_refl m : grows m m.
Proof. by intros s k. Qed.

Lemma grows_trans m1 m2 m3 : grows m1 m2 -> grows m2 m3 -> grows m1 m3.
Proof. intros H12 H23 s k Hk. by apply H23, H12. Qed.

Lemma grows_touch m k : grows m (dict_setitem m k (dd_get m k)).
Proof. intros s y Hy. rewrite dd_get_setitem. case_decide; by subst. Qed.

Lemma grows_add m k kx : grows m (dict_setitem m k (set_add (dd_get m k) kx)).
Proof.
  intros s y Hy. rewrite dd_get_setitem. case_decide; subst; [|done].
  apply elem_of_set_add. by left.
Qed.

Lemma in_some_set_grows m m' x : grows m m' -> in_some_set m x -> in_some_set m' x.
Proof. intros Hg (s & k & Hk & Hin). exists s, k. split; [done|by apply Hg]. Qed.

Lemma is_hashable_false x : is_hashable x = false -> hash_key x = Raise TypeError.
Proof. by destruct x. Qed.

Lemma is_hashable_true x : is_hashable x = true -> exists k, hash_key x = Ok k.
Proof. unfold is_hashable. destruct (hash_key x) as [k|]; [by exists k|done]. Qed.

Lemma update_set_ok k x kx st :
  hash_key x = Ok kx ->
  update_set k x st
  = (Ok tt, set_shortcode_to_comments
              (dict_setitem (shortcode_to_comments st) k
                 (set_add (dd_get (shortcode_to_comments st) k) kx)) st).
Proof. intros Hx. unfold update_set. by rewrite Hx. Qed.

Lemma update_set_raise k x st :
  hash_key x = Raise TypeError -> update_set k x st = (Raise TypeError, st).
Proof. intros Hx. unfold update_set. by rewrite Hx. Qed.

(** What [shortcode_to_comments[k].update(comment_ids)] does. *)
Lemma update_loop k ids : forall st, exists st',
  for_each ids (update_set k) st
  = (if forallb is_hashable ids then Ok tt else Raise TypeError, st') /\
  entries st' = entries st /\
  error_entries st' = error_entries st /\
  all_comment_ids st' = all_comment_ids st /\
  grows (shortcode_to_comments st) (shortcode_to_comments st') /\
  (forallb is_hashable ids = true ->
   forall x, x ∈ ids ->
     exists kx, hash_key x = Ok kx /\ kx ∈ dd_get (shortcode_to_comments st') k).
Proof.
  induction ids as [|x ids IH]; intros st.
  - exists st. split_and!; try done; [apply grows_refl|].
    intros _ x Hx. by apply elem_of_nil in Hx.
  - cbn [for_each forallb].
    destruct (is_hashable x) eqn:Hx.
    + apply is_hashable_true in Hx as [kx Hkx].
      erewrite bind_ok; [|by apply update_set_ok].
      destruct (IH (set_shortcode_to_comments
                      (dict_setitem (shortcode_to_comments st) k
                         (set_add (dd_get (shortcode_to_comments st) k) kx)) st))
        as (st' & Hrun & He & Herr & Hids & Hg & Hcov).
      exists st'. rewrite Hrun. cbn [andb]. split_and!; try done.
      * eapply grows_trans; [|exact Hg]. apply grows_add.
      * intros Hall y [->|Hy]%elem_of_cons; [|by apply Hcov].
        exists kx. split; [done|]. apply Hg. cbn [set_shortcode_to_comments shortcode_to_comments].
        rewrite dd_get_setitem, decide_True by done. apply elem_of_set_add. by right.
    + apply is_hashable_false in Hx.
      erewrite bind_raise; [|by apply update_set_raise].
      exists st. cbn [andb]. split_and!; try done. apply grows_refl.
Qed.

Lemma analyze_log_run shortcode log st : exists st',
  analyze_log shortcode log st
  = (if log_raises shortcode log then Raise TypeError else Ok tt, st') /\
  entries st' = entries st /\
  error_entries st' = error_entries st /\
  (ids_in_sets st -> ids_in_sets st').
Proof.
  unfold analyze_log, log_raises.
  destruct log as [| | | | |d]; try (by exists st).
  destruct (dict_get d "storedIds" (JList [])) as [| | | |ids|]; try (by exists st).
  destruct (is_hashable shortcode) eqn:Hs.
  - apply is_hashable_true in Hs as [k Hk]. rewrite Hk, bind_lift_ok.
    unfold touch_set. rewrite bind_modify.
    destruct (update_loop k ids
                (set_shortcode_to_comments
                   (dict_setitem (shortcode_to_comments st) k
                      (dd_get (shortcode_to_comments st) k)) st))
      as (st' & Hrun & He & Herr & Hids & Hg & Hcov).
    cbn [andb]. destruct (forallb is_hashable ids) eqn:Hall; cbn [negb].
    + erewrite bind_ok; [|exact Hrun]. unfold extend_all_comment_ids, modify.
      eexists. split; [reflexivity|]. cbn [entries error_entries]. split_and!; try done.
      unfold ids_in_sets. cbn [shortcode_to_comments all_comment_ids].
      intros Hin. rewrite Hids. cbn [set_shortcode_to_comments all_comment_ids].
      apply Forall_app. split.
      * eapply Forall_impl; [exact Hin|]. intros x. apply in_some_set_grows.
        eapply grows_trans; [apply grows_touch|exact Hg].
      * apply Forall_forall. intros x Hx. destruct (Hcov eq_refl x Hx) as (kx & Hkx & Hmem).
        by exists k, kx.
    + erewrite bind_raise; [|exact Hrun]. exists st'. split_and!; try done.
      unfold ids_in_sets. rewrite Hids. cbn [set_shortcode_to_comments all_comment_ids].
      intros Hin. eapply Forall_impl; [exact Hin|]. intros x. apply in_some_set_grows.
      eapply grows_trans; [apply grows_touch|exact Hg].
  - apply is_hashable_false in Hs. rewrite Hs. by exists st.
Qed.

Lemma analyze_logs_run shortcode logs : forall st, exists st',
  for_each logs (analyze_log shortcode) st
  = (if existsb (log_raises shortcode) logs then Raise TypeError else Ok tt, st') /\
  entries st' = entries st /\
  error_entries st' = error_entries st /\
  (ids_in_sets st -> ids_in_sets st').
Proof.
  induction logs as [|log logs IH]; intros st; [by exists st|].
  cbn [for_each existsb].
  destruct (analyze_log_run shortcode log st) as (st1 & Hrun & He & Herr & Hin).
  destruct (log_raises shortcode log); cbn [orb].
  - erewrite bind_raise; [|exact Hrun]. by exists st1.
  - erewrite bind_ok; [|exact Hrun].
    destruct (IH st1) as (st' & Hrun' & He' & Herr' & Hin').
    exists st'. split_and!; [done|congruence|congruence|auto].
Qed.

Lemma analyze_entry_run entry st : exists st',
  analyze_entry entry st = (Ok tt, st') /\
  entries st' = entries st + 1 /\
  error_entries st' = error_entries st + (if is_error_entry entry then 1 else 0) /\
  (ids_in_sets st -> ids_in_sets st').
Proof.
  unfold analyze_entry, try_except, count_total, is_error_entry.
  rewrite bind_modify.
  destruct entry as [| | | | |e];
    try (eexists; split; [reflexivity|]; by cbn [entries error_entries]).
  destruct (truthy (dict_get e "target" (JStr ""))) eqn:Ht; cbn [andb].
  2:{ eexists. split; [reflexivity|]. cbn [entries error_entries].
      split_and!; [done|lia|done]. }
  destruct (dict_get e "logs" (JList [])) as [| | | |logs|];
    try (eexists; split; [reflexivity|]; cbn [entries error_entries];
         split_and!; [done|lia|done]).
  match goal with
  | |- context [for_each logs ?body ?s] =>
      destruct (analyze_logs_run (dict_get e "target" (JStr "")) logs s)
        as (st' & Hrun & He & Herr & Hin)
  end.
  rewrite Hrun. destruct (existsb _ logs).
  - eexists. split; [reflexivity|]. cbn [entries error_entries].
    cbn [entries error_entries] in He, Herr. split_and!; [lia|lia|done].
  - exists st'. cbn [entries error_entries] in He, Herr. split_and!; [done|lia|lia|done].
Qed.

Lemma analyze_entries_run items : forall st, exists st',
  for_each items analyze_entry st = (Ok tt, st') /\
  entries st' = entries st + length items /\
  error_entries st'
  = error_entries st + length (filter (fun e => is_error_entry e = true) items) /\
  (ids_in_sets st -> ids_in_sets st').
Proof.
  induction items as [|entry items IH]; intros st.
  - exists st. cbn [length filter]. split_and!; [done|lia| |done].
    rewrite filter_nil. simpl. lia.
  - cbn [for_each].
    destruct (analyze_entry_run entry st) as (st1 & Hrun & He & Herr & Hin).
    erewrite bind_ok; [|exact Hrun].
    destruct (IH st1) as (st' & Hrun' & He' & Herr' & Hin').
    exists st'. split_and!; [done|cbn [length]; lia| |auto].
    rewrite filter_cons. destruct (is_error_entry entry).
    + rewrite decide_True by done. cbn [length]. lia.
    + rewrite decide_False by done. lia.
Qed.

Lemma analyze_json_file_items content a :
  analyze_json_file content = Some a ->
  a = snd (for_each (items_of content) analyze_entry analysis_start).
Proof.
  unfold analyze_json_file, items_of, analysis_start.
  destruct content as [[| | | | |]|]; try done; by intros [= <-].
Qed.

(** X9: [analyze_json_file] counts every item of the file in its
    [total_entries], and its [error_entries] is the number of items that are
    not dicts or whose processing raises, which happens exactly when the
    target is true, [logs] is a list and some log has a [storedIds] list with
    an unhashable target or identifier. *)
Theorem X9_analysis_counts_items (content : option json) (a : analysis) :
  analyze_json_file content = Some a ->
  entries a = length (items_of content) /\
  error_entries a = length (filter (fun e => is_error_entry e = true) (items_of content)).
Proof.
  intros ->%analyze_json_file_items.
  destruct (analyze_entries_run (items_of content) analysis_start)
    as (st' & Hrun & He & Herr & _).
  rewrite Hrun. cbn [snd]. by rewrite He, Herr.
Qed.

Lemma X9_analysis_counts_items_witness :
  exists a,
    analyze_json_file
      (Some (JList [JInt 1;
                    JDict [("target", JStr "p");
                           ("logs", JList [JDict [("storedIds", JList [JList []])]])];
                    JDict [("target", JStr "q"); ("logs", JStr "x")]])) = Some a /\
    entries a = 3 /\ error_entries a = 2.
Proof.
  eexists. split; [reflexivity|].
  eapply (X9_analysis_counts_items
            (Some (JList [JInt 1;
                    JDict [("target", JStr "p");
                           ("logs", JList [JDict [("storedIds", JList [JList []])]])];
                    JDict [("target", JStr "q"); ("logs", JStr "x")]]))).
  reflexivity.
Defined.

Lemma elem_of_dict_setitem {K V} `{EqDecision K} (m : odict K V) k v kv :
  kv ∈ dict_setitem m k v -> kv ∈ m \/ kv = (k, v).
Proof.
  induction m as [|[k0 v0] m IH]; simpl.
  - intros ->%list_elem_of_singleton. by right.
  - case_decide; subst.
    + intros [->|Hin]%elem_of_cons; [by right|]. left. by apply list_elem_of_further.
    + intros [->|Hin]%elem_of_cons; [left; apply list_elem_of_here|].
      destruct (IH Hin) as [?|?]; [left; by apply list_elem_of_further|by right].
Qed.

Lemma NoDup_dd_get (m : pydict (list pykey)) k :
  Forall (fun kv => NoDup (snd kv)) m -> NoDup (dd_get m k).
Proof.
  intros Hm. unfold dd_get. destruct (dict_lookup m k) as [l|] eqn:Hl; [|apply NoDup_nil_2].
  apply dict_lookup_Some_elem in Hl. rewrite Forall_forall in Hm. apply (Hm _ Hl).
Qed.

Lemma sets_ok_setitem st k v :
  truthy_key k -> NoDup v -> sets_ok st ->
  sets_ok (set_shortcode_to_comments (dict_setitem (shortcode_to_comments st) k v) st).
Proof.
  intros Hk Hv (Ht & Hnd & Hsets). unfold sets_ok.
  cbn [set_shortcode_to_comments shortcode_to_comments]. split_and!.
  - apply Forall_forall. intros k' [->|Hin]%elem_of_dict_keys_setitem; [done|].
    rewrite Forall_forall in Ht. by apply Ht.
  - by apply dict_keys_setitem_NoDup.
  - apply Forall_forall. intros kv [Hin| ->]%elem_of_dict_setitem; [|done].
    rewrite Forall_forall in Hsets. by apply Hsets.
Qed.

Lemma keeps_sets_ok_analyze_log shortcode log :
  truthy shortcode = true -> keeps sets_ok (analyze_log shortcode log).
Proof.
  intros Ht. unfold analyze_log.
  destruct log; try apply keeps_ret.
  destruct (dict_get _ "storedIds" (JList [])); try apply keeps_ret.
  apply keeps_bind_lift. intros k Hk.
  assert (Hkt : truthy_key k) by (by apply (hash_truthy _ _ Ht)).
  apply keeps_bind.
  { apply keeps_modify. intros st Hst. apply sets_ok_setitem; [done| |done].
    apply NoDup_dd_get, Hst. }
  intros _. apply keeps_bind; [|intros _; by apply keeps_modify].
  apply keeps_for_each. intros x. unfold update_set.
  apply keeps_bind_lift. intros kx _.
  apply keeps_modify. intros st Hst. apply sets_ok_setitem; [done| |done].
  apply NoDup_set_add, NoDup_dd_get, Hst.
Qed.

Lemma keeps_sets_ok_analyze_entry entry : keeps sets_ok (analyze_entry entry).
Proof.
  unfold analyze_entry.
  apply keeps_try_except; [|intros _; by apply keeps_modify].
  apply keeps_bind; [by apply keeps_modify|]. intros _.
  destruct entry; try (by apply keeps_modify).
  destruct (truthy _) eqn:Ht; [|apply keeps_ret].
  destruct (dict_get _ "logs" (JList [])); try apply keeps_ret.
  apply keeps_for_each. intros log. by apply keeps_sets_ok_analyze_log.
Qed.

(** X10: in what [analyze_json_file] returns, every identifier of
    [all_comment_ids] can be hashed and is a member of the set of some post,
    so a result without posts has no identifiers either; the posts have true
    identifiers, each comes once, and no set holds a member twice. *)
Theorem X10_analysis_ids_belong_to_posts (content : option json) (a : analysis) :
  analyze_json_file content = Some a ->
  Forall (in_some_set (shortcode_to_comments a)) (all_comment_ids a) /\
  (shortcode_to_comments a = [] -> all_comment_ids a = []) /\
  Forall truthy_key (dict_keys (shortcode_to_comments a)) /\
  NoDup (dict_keys (shortcode_to_comments a)) /\
  Forall (fun kv => NoDup (snd kv)) (shortcode_to_comments a).
Proof.
  intros ->%analyze_json_file_items.
  destruct (analyze_entries_run (items_of content) analysis_start)
    as (st' & Hrun & _ & _ & Hin).
  assert (Hids : ids_in_sets st') by (apply Hin; constructor).
  assert (Hok : sets_ok (snd (for_each (items_of content) analyze_entry analysis_start))).
  { apply (keeps_for_each sets_ok); [apply keeps_sets_ok_analyze_entry|].
    repeat split; constructor. }
  rewrite Hrun in *. cbn [snd] in *. split; [done|]. split; [|done].
  intros Hnil. unfold ids_in_sets in Hids. rewrite Hnil in Hids.
  destruct (all_comment_ids st') as [|x l]; [done|].
  apply Forall_cons in Hids as [(s & k & _ & Hk) _]. by apply elem_of_nil in Hk.
Qed.

Lemma X10_analysis_ids_belong_to_posts_witness :
  exists a,
    analyze_json_file
      (Some (JDict [("u1", JDict [("target", JStr "p");
                                  ("logs", JList [JDict [("storedIds", JList [JStr "1"; JInt 2; JStr "1"])]])])]))
    = Some a /\
    Forall (in_some_set (shortcode_to_comments a)) (all_comment_ids a) /\
    length (all_comment_ids a) = 3.
Proof.
  eexists. split; [reflexivity|]. split; [|reflexivity].
  eapply (X10_analysis_ids_belong_to_posts
            (Some (JDict [("u1", JDict [("target", JStr "p");
                                  ("logs", JList [JDict [("storedIds", JList [JStr "1"; JInt 2; JStr "1"])]])])]))).
  reflexivity.
Defined.

(** ** Records by video *)

Section sorted_facts.
Context {A : Type} (key : A -> Z * Z).

Lemma tuple_lt_spec p q :
  tuple_lt p q = true <->
  (fst p < fst q)%Z \/ (fst p = fst q /\ (snd p < snd q)%Z).
Proof.
  unfold tuple_lt. rewrite orb_true_iff, andb_true_iff.
  rewrite !Z.ltb_lt, Z.eqb_eq. done.
Qed.

Lemma tuple_lt_false p q :
  tuple_lt p q = false <->
  (fst q < fst p)%Z \/ (fst p = fst q /\ (snd q <= snd p)%Z).
Proof.
  destruct (tuple_lt p q) eqn:Hlt.
  - apply tuple_lt_spec in Hlt. split; [done|]. lia.
  - split; [intros _|done].
    assert (Hn : ~ ((fst p < fst q)%Z \/ (fst p = fst q /\ (snd p < snd q)%Z))).
    { rewrite <- tuple_lt_spec. by rewrite Hlt. }
    lia.
Qed.

Lemma insert_asc_perm x l : insert_asc key x l ≡ₚ x :: l.
Proof.
  induction l as [|y l IH]; simpl; [done|].
  destruct (tuple_lt (key y) (key x)); [|done].
  rewrite IH. apply Permutation_swap.
Qed.

Lemma sorted_perm l : sorted key l ≡ₚ l.
Proof.
  induction l as [|x l IH]; simpl; [done|].
  unfold sorted in *. simpl. by rewrite insert_asc_perm, IH.
Qed.

Lemma insert_asc_ascending x l :
  StronglySorted (fun a b => tuple_lt (key b) (key a) = false) l ->
  StronglySorted (fun a b => tuple_lt (key b) (key a) = false) (insert_asc key x l).
Proof.
  induction l as [|y l IH]; intros Hl; simpl.
  - repeat constructor.
  - apply StronglySorted_inv in Hl as [Hl Hy].
    destruct (tuple_lt (key y) (key x)) eqn:Hlt.
    + constructor; [by apply IH|].
      rewrite insert_asc_perm. constructor; [|done].
      apply tuple_lt_spec in Hlt. apply tuple_lt_false. lia.
    + constructor; [by constructor|].
      constructor; [done|].
      eapply Forall_impl; [exact Hy|]. simpl. intros z Hz.
      apply tuple_lt_false in Hlt, Hz. apply tuple_lt_false. lia.
Qed.

Lemma sorted_ascending l :
  StronglySorted (fun a b => tuple_lt (key b) (key a) = false) (sorted key l).
Proof.
  induction l as [|x l IH].
  - constructor.
  - unfold sorted in *. simpl. by apply insert_asc_ascending.
Qed.

Lemma insert_asc_stable x l (p : Z * Z) :
  filter (fun y => key y = p) (insert_asc key x l)
  = filter (fun y => key y = p) (x :: l).
Proof.
  induction l as [|y l IH]; simpl; [done|].
  destruct (tuple_lt (key y) (key x)) eqn:Hlt; [|done].
  rewrite (filter_cons _ y), IH, !(filter_cons _ x), (filter_cons _ y).
  repeat case_decide; try done.
  apply tuple_lt_spec in Hlt. assert (key y = key x) as Heq by congruence.
  rewrite Heq in Hlt. lia.
Qed.

Lemma sorted_stable l (p : Z * Z) :
  filter (fun y => key y = p) (sorted key l) = filter (fun y => key y = p) l.
Proof.
  induction l as [|x l IH]; [done|].
  unfold sorted in *. simpl. rewrite insert_asc_stable.
  by rewrite !(filter_cons _ x), IH.
Qed.
End sorted_facts.

Lemma StronglySorted_weaken {A} (R R' : A -> A -> Prop) (l : list A) :
  (forall x y, R x y -> R' x y) -> StronglySorted R l -> StronglySorted R' l.
Proof.
  intros HR. induction 1 as [|x l Hl IH Hx]; constructor; [done|].
  eapply Forall_impl; [exact Hx|]. intros y. apply HR.
Qed.

Lemma odict_ext {K V} `{EqDecision K} (m m' : odict K V) :
  dict_keys m = dict_keys m' ->
  NoDup (dict_keys m) ->
  (forall k, dict_lookup m k = dict_lookup m' k) ->
  m = m'.
Proof.
  revert m'. induction m as [|[k v] m IH]; intros [|[k' v'] m'] Hk Hnd Hl; try done.
  simpl in Hk. injection Hk as <- Hk.
  apply NoDup_cons in Hnd as [Hk0 Hnd].
  pose proof (Hl k) as Hlk. simpl in Hlk. rewrite !decide_True in Hlk by done.
  injection Hlk as <-. f_equal. apply IH; [done|done|].
  intros k1. specialize (Hl k1). simpl in Hl.
  destruct (decide (k = k1)) as [<-|Hne]; [|done].
  assert (Hnone : dict_lookup m k = None) by (by apply dict_lookup_None).
  assert (Hnone' : dict_lookup m' k = None).
  { apply dict_lookup_None. unfold dict_keys in *. by rewrite <- Hk. }
  by rewrite Hnone, Hnone'.
Qed.

Lemma dict_keys_dd_append {K A} `{EqDecision K} (m : odict K (list A)) k x :
  dict_keys (dd_append m k x)
  = if decide (k ∈ dict_keys m) then dict_keys m else dict_keys m ++ [k].
Proof.
  unfold dd_append, dd_extend. case_decide.
  - by apply dict_keys_setitem_present.
  - rewrite dict_setitem_absent by done. unfold dict_keys. by rewrite map_app.
Qed.

Lemma group_by_video_keys cs : forall m : odict string (list comment),
  dict_keys (foldl (fun m c => dd_append m (video_id c) c) m cs)
  = dedup_acc (dict_keys m) (map video_id cs).
Proof.
  induction cs as [|c cs IH]; intros m; [done|].
  cbn [foldl map dedup_acc]. rewrite IH, dict_keys_dd_append. by case_decide.
Qed.

Lemma group_by_video_get cs v : forall m : odict string (list comment),
  dd_get (foldl (fun m c => dd_append m (video_id c) c) m cs) v
  = dd_get m v ++ of_video v cs.
Proof.
  unfold of_video.
  induction cs as [|c cs IH]; intros m; cbn [foldl].
  - by rewrite filter_nil, app_nil_r.
  - rewrite IH. unfold dd_append. rewrite dd_get_extend, filter_cons.
    case_decide; subst; [by rewrite <- app_assoc | done].
Qed.

Lemma dd_get_lookup {K A} `{EqDecision K} (m : odict K (list A)) k :
  k ∈ dict_keys m -> dict_lookup m k = Some (dd_get m k).
Proof.
  intros Hin. unfold dd_get. destruct (dict_lookup m k) eqn:Hl; [done|].
  by apply dict_lookup_None in Hl.
Qed.

Lemma dict_lookup_map_keys {V} (f : string -> V) (ks : list string) k :
  dict_lookup (map (fun v => (v, f v)) ks) k = if decide (k ∈ ks) then Some (f k) else None.
Proof.
  induction ks as [|k0 ks IH]; cbn [map dict_lookup].
  - destruct (decide (k ∈ [])) as [Hin|_]; [by apply elem_of_nil in Hin | done].
  - destruct (decide (k0 = k)) as [->|Hne].
    + destruct (decide (k ∈ k :: ks)) as [_|Hn]; [done|].
      exfalso. apply Hn, list_elem_of_here.
    + rewrite IH.
      destruct (decide (k ∈ ks)) as [Hin|Hn], (decide (k ∈ k0 :: ks)) as [Hin'|Hn']; try done.
      * exfalso. apply Hn'. by apply list_elem_of_further.
      * apply elem_of_cons in Hin' as [?|?]; congruence.
Qed.

(** The groups by video, in closed form. *)
Lemma group_by_video_eq cs :
  group_by_video cs
  = map (fun v => (v, of_video v cs)) (first_occurrences (map video_id cs)).
Proof.
  assert (Hk : dict_keys (group_by_video cs) = first_occurrences (map video_id cs)).
  { unfold group_by_video. rewrite group_by_video_keys. apply dedup_acc_nil. }
  apply odict_ext.
  - rewrite Hk. unfold dict_keys. rewrite map_map. simpl. by rewrite map_id.
  - rewrite Hk. apply NoDup_first_occurrences.
  - intros k. rewrite dict_lookup_map_keys.
    case_decide as Hin.
    + rewrite dd_get_lookup by (by rewrite Hk).
      unfold group_by_video. by rewrite group_by_video_get.
    + apply dict_lookup_None. by rewrite Hk.
Qed.

(** A loop that stores one value per item of a dict builds the dict of these
    values, in the same order. *)
Lemma setitem_loop {V W} (f : V -> W) (items : odict string V) : forall acc : odict string W,
  NoDup (dict_keys acc ++ dict_keys items) ->
  foldl (fun acc item => dict_setitem acc (fst item) (f (snd item))) acc items
  = acc ++ map (fun item => (fst item, f (snd item))) items.
Proof.
  induction items as [|[k v] items IH]; intros acc Hnd; cbn [foldl map fst snd].
  - by rewrite app_nil_r.
  - cbn [dict_keys map fst] in Hnd.
    assert (Hk : k ∉ dict_keys acc).
    { apply NoDup_app in Hnd as (_ & Hd & _). intros Hin. apply (Hd _ Hin), list_elem_of_here. }
    rewrite dict_setitem_absent by done. rewrite IH.
    + by rewrite <- app_assoc.
    + unfold dict_keys in *. rewrite map_app, <- app_assoc. done.
Qed.

Lemma per_video_loop {W} (f : list comment -> W) cs :
  foldl (fun acc item => dict_setitem acc (fst item) (f (snd item))) [] (group_by_video cs)
  = map (fun v => (v, f (of_video v cs))) (first_occurrences (map video_id cs)).
Proof.
  rewrite setitem_loop.
  - rewrite group_by_video_eq, map_map. done.
  - rewrite group_by_video_eq. unfold dict_keys. rewrite map_map. simpl.
    rewrite map_id. apply NoDup_first_occurrences.
Qed.

(** X11: [create_video_comment_index] has one key per video, in the order in
    which the videos first appear; under a video it stores the records of
    that video and no other, most liked first, the newer first among equally
    liked ones, and records equal on both counts in the order of the input.
    A record without [like_count] or time stamp counts as 0. *)
Theorem X11_video_comment_index (comments : list comment) :
  let idx := create_video_comment_index comments in
  dict_keys idx = first_occurrences (map video_id comments) /\
  (forall v, v ∉ map video_id comments -> dict_lookup idx v = None) /\
  (forall v, v ∈ map video_id comments ->
     exists l, dict_lookup idx v = Some l /\
       l ≡ₚ of_video v comments /\
       StronglySorted ranks_before l /\
       forall a b, tied a b l = tied a b (of_video v comments)).
Proof.
  cbn zeta. unfold create_video_comment_index. rewrite per_video_loop.
  split_and!.
  - unfold dict_keys. rewrite map_map. simpl. by rewrite map_id.
  - intros v Hv. rewrite dict_lookup_map_keys, decide_False; [done|].
    by rewrite elem_of_first_occurrences.
  - intros v Hv. rewrite dict_lookup_map_keys, decide_True
      by (by rewrite elem_of_first_occurrences).
    eexists. split; [done|]. split_and!.
    + apply sorted_perm.
    + eapply StronglySorted_weaken; [|apply (sorted_ascending likes_then_date)].
      intros x y Hxy. apply tuple_lt_false in Hxy. unfold likes_then_date in Hxy.
      simpl in Hxy. unfold ranks_before. lia.
    + intros a b. unfold tied.
      assert (Hkey : forall c, get_like_count c = a /\ get_timestamp c = b
                               <-> likes_then_date c = (- a, - b)%Z).
      { intros c. unfold likes_then_date.
        split; [intros [<- <-]; done|]. intros [= H1 H2]. lia. }
      rewrite !(list_filter_iff _ _ _ Hkey). apply sorted_stable.
Qed.

(** X12: [create_word_frequency_index] has one profile per video, in the
    order in which the videos first appear, and the profile of a video is
    the one computed from the records of that video alone, in the order of
    the input; a video without records has no profile. *)
Theorem X12_word_frequency_per_video (comments : list comment) :
  dict_keys (create_word_frequency_index comments)
  = first_occurrences (map video_id comments) /\
  forall v,
    dict_lookup (create_word_frequency_index comments) v
    = if decide (v ∈ map video_id comments) then Some (profile (of_video v comments))
      else None.
Proof.
  unfold create_word_frequency_index.
  rewrite (per_video_loop profile). split.
  - unfold dict_keys. rewrite map_map. simpl. by rewrite map_id.
  - intros v. rewrite dict_lookup_map_keys.
    destruct (decide (v ∈ first_occurrences (map video_id comments))) as [Hin|Hn],
             (decide (v ∈ map video_id comments)) as [Hin'|Hn']; try done.
    + exfalso. apply Hn'. by apply elem_of_first_occurrences.
    + exfalso. apply Hn. by apply elem_of_first_occurrences.
Qed.

(** ** Word clouds *)

Lemma list_ascii_of_string_app (a b : string) :
  list_ascii_of_string (a +:+ b) = list_ascii_of_string a ++ list_ascii_of_string b.
Proof. induction a as [|c a IH]; simpl; [done | by rewrite IH]. Qed.

Lemma string_of_list_ascii_app (a b : list ascii) :
  string_of_list_ascii (a ++ b) = string_of_list_ascii a +:+ string_of_list_ascii b.
Proof. induction a as [|c a IH]; simpl; [done | by rewrite IH]. Qed.

Lemma lower_app (a b : string) : lower (a +:+ b) = lower a +:+ lower b.
Proof.
  unfold lower. by rewrite list_ascii_of_string_app, map_app, string_of_list_ascii_app.
Qed.

(** A character that does not satisfy [p] ends the run being read. *)
Lemma runs_acc_sep (p : ascii -> bool) (sep : ascii) (a b : list ascii) : forall cur,
  p sep = false ->
  runs_acc p cur (a ++ sep :: b) = runs_acc p cur a ++ runs_acc p [] b.
Proof.
  induction a as [|c a IH]; intros cur Hsep; simpl.
  - by rewrite Hsep.
  - destruct (p c); [by apply IH|]. by rewrite IH, app_assoc.
Qed.

Lemma runs_sep (p : ascii -> bool) (a b : string) :
  p " "%char = false -> runs p (a +:+ " " +:+ b) = runs p a ++ runs p b.
Proof.
  intros Hsep. unfold runs. rewrite !list_ascii_of_string_app. simpl.
  by rewrite (runs_acc_sep p " "%char), map_app.
Qed.

Lemma content_words_sep (a b : string) :
  content_words (a +:+ " " +:+ b) = content_words a ++ content_words b.
Proof.
  unfold content_words, findall_words. rewrite !lower_app.
  change (lower " ") with " ". rewrite runs_sep by done.
  by rewrite !filter_app.
Qed.

(** The words of texts joined by spaces are the words of the texts, one text
    after the other. *)
Lemma content_words_join (texts : list string) :
  content_words (join " " texts) = concat (map content_words texts).
Proof.
  induction texts as [|x [|y texts] IH].
  - reflexivity.
  - simpl. by rewrite app_nil_r.
  - change (join " " (x :: y :: texts)) with (x +:+ " " +:+ join " " (y :: texts)).
    rewrite content_words_sep, IH. done.
Qed.

Lemma dict_keys_setitem {K V} `{EqDecision K} (m : odict K V) k v :
  dict_keys (dict_setitem m k v)
  = if decide (k ∈ dict_keys m) then dict_keys m else dict_keys m ++ [k].
Proof.
  case_decide.
  - by apply dict_keys_setitem_present.
  - rewrite dict_setitem_absent by done. unfold dict_keys. by rewrite map_app.
Qed.

Lemma counter_loop_keys ws : forall m : odict string nat,
  dict_keys (foldl (fun m w => dict_setitem m w (default 0 (dict_lookup m w) + 1)) m ws)
  = dedup_acc (dict_keys m) ws.
Proof.
  induction ws as [|a ws IH]; intros m; [done|].
  cbn [foldl dedup_acc]. rewrite IH, dict_keys_setitem. by case_decide.
Qed.

Lemma counter_loop_count ws w : forall m : odict string nat,
  default 0 (dict_lookup
               (foldl (fun m w => dict_setitem m w (default 0 (dict_lookup m w) + 1)) m ws) w)
  = default 0 (dict_lookup m w) + occurrences w ws.
Proof.
  unfold occurrences.
  induction ws as [|a ws IH]; intros m; cbn [foldl].
  - rewrite filter_nil. simpl. lia.
  - rewrite IH, dict_lookup_setitem, filter_cons.
    case_decide; subst; simpl; lia.
Qed.

(** [Counter(words)], in closed form. *)
Lemma counter_eq ws :
  counter ws = map (fun w => (w, occurrences w ws)) (first_occurrences ws).
Proof.
  assert (Hk : dict_keys (counter ws) = first_occurrences ws).
  { unfold counter. rewrite counter_loop_keys. apply dedup_acc_nil. }
  apply odict_ext.
  - rewrite Hk. unfold dict_keys. rewrite map_map. simpl. by rewrite map_id.
  - rewrite Hk. apply NoDup_first_occurrences.
  - intros k. rewrite dict_lookup_map_keys.
    pose proof (counter_loop_count ws k []) as Hc. fold (counter ws) in Hc. simpl in Hc.
    case_decide as Hin.
    + destruct (dict_lookup (counter ws) k) as [n|] eqn:Hl.
      * simpl in Hc. by rewrite Hc.
      * apply dict_lookup_None in Hl. by rewrite Hk in Hl.
    + apply dict_lookup_None. by rewrite Hk.
Qed.

Lemma occurrences_pos w ws : w ∈ ws -> 0 < occurrences w ws.
Proof.
  intros Hin. unfold occurrences.
  assert (Hf : w ∈ filter (fun w' => w' = w) ws) by (by apply list_elem_of_filter).
  destruct (filter (fun w' => w' = w) ws); [by apply elem_of_nil in Hf | simpl; lia].
Qed.

Lemma elem_of_runs (p : ascii -> bool) (s w : string) (c : ascii) :
  w ∈ runs p s -> c ∈ list_ascii_of_string w -> c ∈ list_ascii_of_string s.
Proof.
  unfold runs. intros (r & -> & Hr)%list_elem_of_fmap.
  rewrite list_ascii_of_string_of_list_ascii. intros Hc.
  destruct (runs_acc_spec p (list_ascii_of_string s) []) as [_ Hcat]; [done|].
  assert (Hin : c ∈ concat (runs_acc p [] (list_ascii_of_string s))).
  { apply list_elem_of_In, in_concat. exists r. by rewrite <- !list_elem_of_In. }
  rewrite Hcat in Hin. simpl in Hin.
  by apply list_elem_of_filter in Hin as [_ ?].
Qed.

(** The words that count have three letters or more, all from [a] to [z],
    and are no stop words. *)
Lemma content_words_shape (s w : string) :
  w ∈ content_words s ->
  3 <= String.length w /\
  forallb is_lower_letter (list_ascii_of_string w) = true /\
  w ∉ stop_words.
Proof.
  unfold content_words, findall_words.
  intros [Hstop [Hre Hrun]%list_elem_of_filter]%list_elem_of_filter.
  apply andb_true_iff in Hre as [Hletters Hlen].
  split; [by apply Nat.leb_le|]. split; [|done].
  apply forallb_forall. intros c Hc.
  assert (Hl : is_letter c = true).
  { unfold all_letters in Hletters. rewrite forallb_forall in Hletters. by apply Hletters. }
  assert (Hu : is_upper c = false).
  { pose proof (lower_spec s) as Hlow. rewrite forallb_forall in Hlow.
    apply negb_true_iff, Hlow, list_elem_of_In.
    eapply elem_of_runs; [exact Hrun|]. by apply list_elem_of_In. }
  unfold is_letter, is_upper, is_lower_letter in *. cbn zeta in *.
  rewrite Hu in Hl. done.
Qed.

Lemma words_of_join cs :
  content_words (join " " (map get_text cs)) = words_of cs.
Proof. unfold words_of. by rewrite content_words_join, map_map. Qed.

Lemma elem_of_words_of w cs :
  w ∈ words_of cs -> exists c, c ∈ cs /\ w ∈ content_words (get_text c).
Proof.
  unfold words_of. intros Hin. apply list_elem_of_In, in_concat in Hin as (l & Hl & Hw).
  apply in_map_iff in Hl as (c & <- & Hc).
  exists c. by rewrite !list_elem_of_In.
Qed.

(** ** The whole run *)

Lemma deduplicate_local_ok (m out : pydict (list json)) :
  NoDup (dict_keys m) -> deduplicated m out -> deduplicate_local m = Ok out.
Proof.
  intros Hnd Hd. unfold deduplicate_local.
  rewrite (deduplicate_comments_in_place {[ 0 := m ]} 0 m out Hnd); [|apply lookup_singleton_eq|done].
  unfold heap_read. by rewrite lookup_insert_eq.
Qed.

Lemma deduplicated_lookup (m out : pydict (list json)) k ids :
  deduplicated m out ->
  dict_lookup m k = Some ids ->
  exists unique, list_dict_fromkeys ids = Ok unique /\ dict_lookup out k = Some unique.
Proof.
  induction 1 as [|[k0 l] [k0' u] m out [Hk Hu] Hrest IH]; [done|].
  simpl in Hk, Hu. subst k0'. cbn [dict_lookup]. case_decide.
  - intros [= <-]. by exists u.
  - apply IH.
Qed.

Lemma deduplicated_str_key (m out : pydict (list json)) :
  deduplicated m out -> Forall str_key m -> Forall str_key out.
Proof.
  induction 1 as [|[k0 l] [k0' u] m out [Hk Hu] Hrest IH]; [done|].
  intros [Hs Hm]%Forall_cons. constructor; [|by apply IH].
  destruct Hs as [name Hname]. exists name. simpl in *. congruence.
Qed.

Lemma create_index_files_run (self : organizer) :
  create_index_files self
  = (Ok tt,
     with_posts_written self (posts (index_data self))
       (written self ++
        [(path_join (output_dir self) "index.json", IndexFile (index_data self));
         (path_join (output_dir self) "summary.json",
          SummaryFile
            (sort_reverse (fun x => Z.of_nat (comment_count x))
               (make_post_list (posts (index_data self))))
            (stats (index_data self)))])).
Proof.
  destruct self as [? ? ? [? ?] ?]. unfold create_index_files.
  rewrite bind_get. unfold write_file. rewrite bind_modify. unfold modify.
  unfold with_posts_written.
  cbn [comments_dir output_dir chunk_size index_data posts stats written].
  by rewrite <- app_assoc.
Qed.

Lemma on_organizer_ok {A} (a : M organizer A) st x self' :
  a (organizer_of st) = (Ok x, self') ->
  on_organizer a st = (Ok x, {| organizer_of := self'; text_files := text_files st |}).
Proof. unfold on_organizer. by intros ->. Qed.

Lemma on_organizer_raise {A} (a : M organizer A) st e self' :
  a (organizer_of st) = (Raise e, self') ->
  on_organizer a st = (Raise e, {| organizer_of := self'; text_files := text_files st |}).
Proof. unfold on_organizer. by intros ->. Qed.

Lemma posts_lookup c (m : pydict (list json)) name comments :
  dict_lookup m (KStr name) = Some comments -> comments <> [] ->
  dict_lookup (omap (item_entry c) m) (KStr name) = Some (entry_of c name comments).
Proof.
  induction m as [|[k l] m IH]; [done|].
  cbn [dict_lookup]. intros Hl Hne.
  destruct (decide (k = KStr name)) as [->|Hk].
  - injection Hl as ->. destruct comments as [|x xs]; [done|].
    erewrite omap_cons_Some; [|reflexivity]. cbn [dict_lookup].
    by rewrite decide_True.
  - destruct (item_entry c (k, l)) as [[k' e]|] eqn:Hitem.
    + erewrite omap_cons_Some; [|exact Hitem]. cbn [dict_lookup].
      assert (k' = k) as ->.
      { destruct k as [| |s]; try done. destruct l; [done|]. by injection Hitem as <- _. }
      rewrite decide_False by done. by apply IH.
    + rewrite omap_cons_None by done. by apply IH.
Qed.

Lemma fromkeys_nonempty ids unique :
  list_dict_fromkeys ids = Ok unique -> ids <> [] -> unique <> [].
Proof.
  unfold list_dict_fromkeys.
  destruct (fromkeys_loop [] ids) as [d|] eqn:Hd; [|done]. intros [= <-] Hne.
  destruct ids as [|x ids]; [done|].
  apply fromkeys_loop_spec in Hd as (ext & -> & _ & Hcov & _).
  destruct (Hcov x) as (k & _ & Hk); [apply list_elem_of_here|].
  destruct ext; [by apply elem_of_nil in Hk | done].
Qed.

(** The run of [process] when every post identifier is a string and every
    comment identifier can be hashed. *)
Lemma process_run (cdir odir : string) listing out :
  Forall str_key (aggregated listing) ->
  deduplicated (aggregated listing) out ->
  process listing (fresh cdir odir)
  = (Ok tt,
     {| organizer_of :=
          with_posts_written (chunked (init cdir odir) out)
            (posts (index_data (chunked (init cdir odir) out)))
            (written (chunked (init cdir odir) out) ++
             [(path_join odir "index.json", IndexFile (index_data (chunked (init cdir odir) out)));
              (path_join odir "summary.json",
               SummaryFile
                 (sort_reverse (fun x => Z.of_nat (comment_count x))
                    (make_post_list (posts (index_data (chunked (init cdir odir) out)))))
                 (stats (index_data (chunked (init cdir odir) out))))]);
        text_files := [(path_join odir "comment-database.js", loader_script)] |}).
Proof.
  intros Hstr Hd. unfold process, fresh.
  assert (Hnd : NoDup (dict_keys (aggregated listing)))
    by apply parse_json_files_keys_NoDup.
  erewrite bind_ok; [|by apply on_organizer_ok].
  fold (aggregated listing). rewrite (deduplicate_local_ok _ out Hnd Hd), bind_lift_ok.
  erewrite bind_ok.
  2:{ apply on_organizer_ok. cbn [organizer_of]. apply create_chunked_files_run.
      - cbn [init chunk_size]. lia.
      - done.
      - by rewrite (deduplicated_keys _ _ Hd).
      - by apply (deduplicated_str_key _ _ Hd). }
  erewrite bind_ok; [|apply on_organizer_ok, create_index_files_run].
  unfold create_loader_script. rewrite bind_get. reflexivity.
Qed.

(** X14: when every post identifier is a string and every comment identifier
    can be hashed, [process] returns; for every post of the input the chunk
    files written for it hold, put end to end, the identifiers of the post
    without duplicates in the order of their first appearance, and a post
    with identifiers has an index entry with their number; the chunk files
    are followed by [index.json], which holds the index as it is at the end,
    and [summary.json]; the loader script is the one text file written. *)
Theorem X14_process_end_to_end (cdir odir : string) (listing : list (string * option json)) :
  Forall str_key (aggregated listing) ->
  Forall (fun item => Forall hashable (snd item)) (aggregated listing) ->
  exists final,
    process listing (fresh cdir odir) = (Ok tt, final) /\
    (forall name ids, dict_lookup (aggregated listing) (KStr name) = Some ids ->
       exists unique,
         list_dict_fromkeys ids = Ok unique /\
         stored_ids name final = unique /\
         (ids <> [] ->
          exists e, dict_lookup (posts (index_data (organizer_of final))) (KStr name) = Some e /\
                    total_comments e = length unique)) /\
    (exists chunk_files post_list,
       written (organizer_of final)
       = chunk_files ++
         [(path_join odir "index.json", IndexFile (index_data (organizer_of final)));
          (path_join odir "summary.json",
           SummaryFile post_list (stats (index_data (organizer_of final))))] /\
       Forall is_chunk_file chunk_files) /\
    text_files final = [(path_join odir "comment-database.js", loader_script)].
Proof.
  intros Hstr Hhash.
  destruct (deduplicated_total _ Hhash) as [out Hd].
  eexists. split; [by apply (process_run cdir odir listing out)|].
  assert (Hnd : NoDup (dict_keys out)).
  { rewrite (deduplicated_keys _ _ Hd). apply parse_json_files_keys_NoDup. }
  cbn [organizer_of text_files with_posts_written index_data posts stats written chunked
       init output_dir chunk_size app].
  split_and!; [| |done].
  - intros name ids Hl.
    destruct (deduplicated_lookup _ _ _ _ Hd Hl) as (unique & Hu & Hout).
    exists unique. split; [done|]. split.
    + unfold stored_ids. cbn [organizer_of written with_posts_written].
      rewrite chunks_written_for_app.
      rewrite (chunks_written_for_lookup name 1000 odir out unique Hnd Hout).
      cbn [chunks_written_for omap snd]. rewrite app_nil_r.
      destruct unique as [|x xs] eqn:Hx; [done|]. rewrite <- Hx.
      apply post_chunks_partition; [lia | by rewrite Hx].
    + intros Hne. exists (entry_of 1000 name unique). split; [|done].
      apply posts_lookup; [done|]. by apply (fromkeys_nonempty ids).
  - eexists _, _. split; [reflexivity|].
    apply Forall_forall. intros w Hw.
    apply list_elem_of_In, in_concat in Hw as (l & Hl & Hw).
    apply in_map_iff in Hl as ([k comments] & <- & _).
    destruct k as [| |name]; try (by destruct Hw).
    destruct comments as [|x xs]; [by destruct Hw|].
    apply in_map_iff in Hw as (i & <- & _). done.
Qed.

Lemma X14_process_end_to_end_witness :
  exists final,
    process [("a.json", Some (JDict [("u", JDict [("target", JStr "p");
               ("logs", JList [JDict [("storedIds", JList [JStr "1"; JStr "2"; JStr "1"])]])])]))]
      (fresh "in" "out") = (Ok tt, final) /\
    stored_ids "p" final = [JStr "1"; JStr "2"].
Proof.
  destruct (X14_process_end_to_end "in" "out"
              [("a.json", Some (JDict [("u", JDict [("target", JStr "p");
               ("logs", JList [JDict [("storedIds", JList [JStr "1"; JStr "2"; JStr "1"])]])])]))])
    as (final & Hrun & Hposts & _).
  - repeat constructor. by exists "p".
  - repeat constructor.
  - exists final. split; [done|].
    destruct (Hposts "p" [JStr "1"; JStr "2"; JStr "1"] eq_refl) as (unique & Hu & Hs & _).
    rewrite Hs. vm_compute in Hu. by injection Hu as <-.
Defined.

Lemma hashable_or_not (l : list json) :
  Forall hashable l \/ Exists (fun x => ~ hashable x) l.
Proof.
  induction l as [|x l [IH|IH]].
  - left. constructor.
  - destruct (hash_key x) as [k|e] eqn:Hx.
    + left. constructor; [|done]. unfold hashable. by rewrite Hx.
    + right. apply Exists_cons_hd. unfold hashable. rewrite Hx. tauto.
  - right. by apply Exists_cons_tl.
Qed.

Lemma first_unhashable (m : pydict (list json)) :
  Exists (fun item => Exists (fun x => ~ hashable x) (snd item)) m ->
  exists pre k l post,
    m = pre ++ (k, l) :: post /\
    Forall (fun item => Forall hashable (snd item)) pre /\
    Exists (fun x => ~ hashable x) l.
Proof.
  induction m as [|[k l] m IH]; intros Hex; [by apply Exists_nil in Hex|].
  destruct (hashable_or_not l) as [Hl|Hl].
  - apply Exists_cons in Hex as [Hbad|Hex].
    { exfalso. simpl in Hbad. apply Exists_exists in Hbad as (x & Hx & Hn).
      rewrite Forall_forall in Hl. by apply Hn, Hl. }
    destruct (IH Hex) as (pre & k' & l' & post & -> & Hpre & Hbad).
    exists ((k, l) :: pre), k', l', post. split_and!; [done| |done].
    by constructor.
  - exists [], k, l, m. split_and!; [done|constructor|done].
Qed.

Lemma deduplicate_local_raises (m : pydict (list json)) :
  NoDup (dict_keys m) ->
  Exists (fun item => Exists (fun x => ~ hashable x) (snd item)) m ->
  deduplicate_local m = Raise TypeError.
Proof.
  intros Hnd (pre & k & l & post & -> & Hpre & Hbad)%first_unhashable.
  destruct (deduplicated_total _ Hpre) as [out Hout].
  unfold deduplicate_local, deduplicate_comments.
  rewrite bind_get. unfold heap_read at 1. rewrite lookup_singleton_eq.
  erewrite bind_raise; [done|].
  rewrite for_each_app_bind.
  erewrite bind_ok.
  2:{ apply (dedup_loop_frame 0 pre out [] ((k, l) :: post)); [done|done|].
      apply lookup_singleton_eq. }
  cbn [for_each fst snd app].
  unfold list_dict_fromkeys. rewrite fromkeys_loop_raises by done.
  erewrite bind_raise; [done|]. by rewrite bind_lift_raise.
Qed.

(** X15: when a comment identifier of some post cannot be hashed (it is a
    list or a dict), [process] raises [TypeError] in the deduplication,
    before any file is written and with the index untouched. *)
Theorem X15_process_unhashable_identifier
    (listing : list (string * option json)) (st : run_state) :
  Exists (fun item => Exists (fun x => ~ hashable x) (snd item)) (aggregated listing) ->
  process listing st = (Raise TypeError, st).
Proof.
  intros Hbad. unfold process.
  erewrite bind_ok; [|by apply on_organizer_ok].
  fold (aggregated listing).
  rewrite deduplicate_local_raises; [|apply parse_json_files_keys_NoDup|done].
  rewrite bind_lift_raise. by destruct st.
Qed.

Lemma X15_process_unhashable_identifier_witness :
  process [("a.json", Some (JDict [("u", JDict [("target", JStr "p");
             ("logs", JList [JDict [("storedIds", JList [JStr "1"; JList []])]])])]))]
    (fresh "in" "out")
  = (Raise TypeError, fresh "in" "out").
Proof.
  apply X15_process_unhashable_identifier.
  apply Exists_cons_hd. apply Exists_cons_tl, Exists_cons_hd. simpl. tauto.
Defined.

(** ** The loader *)

Lemma filter_ext_in {A} (P Q : A -> Prop) `{!forall x, Decision (P x)}
    `{!forall x, Decision (Q x)} (l : list A) :
  (forall x, x ∈ l -> (P x <-> Q x)) -> filter P l = filter Q l.
Proof.
  induction l as [|x l IH]; intros Hext; [done|].
  rewrite !filter_cons.
  assert (Hx : P x <-> Q x) by (apply Hext, list_elem_of_here).
  rewrite IH by (intros y Hy; by apply Hext, list_elem_of_further).
  destruct (decide (P x)), (decide (Q x)); tauto.
Qed.

Lemma filter_seq_range (a b : nat) k : forall lo,
  filter (fun j => a <= j /\ j < b) (seq lo k)
  = seq (Nat.max a lo) (Nat.min b (lo + k) - Nat.max a lo).
Proof.
  induction k as [|k IH]; intros lo.
  - replace (Nat.min b (lo + 0) - Nat.max a lo) with 0 by lia. done.
  - cbn [seq]. rewrite filter_cons, IH.
    destruct (decide (a <= lo /\ lo < b)) as [[Ha Hb]|Hn].
    + replace (Nat.max a (S lo)) with (S lo) by lia.
      replace (Nat.max a lo) with lo by lia.
      replace (Nat.min b (lo + S k) - lo) with (S (Nat.min b (S lo + k) - S lo)) by lia.
      done.
    + destruct (decide (lo < a)) as [Hlo|Hlo].
      * replace (Nat.max a (S lo)) with (Nat.max a lo) by lia.
        by replace (lo + S k) with (S lo + k) by lia.
      * replace (Nat.min b (S lo + k) - Nat.max a (S lo)) with 0 by lia.
        by replace (Nat.min b (lo + S k) - Nat.max a lo) with 0 by lia.
Qed.

Lemma concat_slices_from {A} (l : list A) c k : forall j0,
  concat (map (fun j => slice l (j * c) (j * c + c)) (seq j0 k))
  = take (k * c) (drop (j0 * c) l).
Proof.
  induction k as [|k IH]; intros j0; [done|].
  cbn [seq map concat]. rewrite IH. unfold slice.
  replace (j0 * c + c - j0 * c) with c by lia.
  replace (S j0 * c) with (j0 * c + c) by lia.
  rewrite <- drop_drop. replace (S k * c) with (c + k * c) by lia.
  apply take_take_drop.
Qed.

Lemma lt_ceil_div n c j : 0 < c -> j * c < n -> j < ceil_div n c.
Proof.
  intros Hc Hj. unfold ceil_div.
  pose proof (Nat.div_mod_eq (n + c - 1) c) as Hdm.
  pose proof (Nat.mod_upper_bound (n + c - 1) c) as Hub.
  nia.
Qed.

Lemma take_min_length {A} (l : list A) n : take (Nat.min n (length l)) l = take n l.
Proof.
  destruct (decide (n <= length l)).
  - by rewrite Nat.min_l.
  - rewrite Nat.min_r, !take_ge by lia. done.
Qed.

Lemma needed_step_eq s e acc cur chunk :
  needed_step s e (acc, cur) chunk
  = (if (cur <? e)%Z && (s <? cur + Z.of_nat (count chunk))%Z then acc ++ [chunk] else acc,
     (cur + Z.of_nat (count chunk))%Z).
Proof. done. Qed.

(** The chunks that the first loop of [getCommentsForPost] takes from the
    chunk list of an index entry made by the organizer. *)
Lemma needed_loop c name ids (s e : Z) :
  0 < c ->
  forall k j0 acc cur,
    j0 + k = ceil_div (length ids) c ->
    (0 < k -> cur = Z.of_nat (j0 * c)) ->
    fst (foldl (needed_step s e) (acc, cur)
           (map (descriptor_at c name ids) (map (fun j => j * c) (seq j0 k))))
    = acc ++ map (descriptor_at c name ids)
               (map (fun j => j * c)
                  (filter (fun j => overlaps c (length ids) s e j = true) (seq j0 k))).
Proof.
  intros Hc. induction k as [|k IH]; intros j0 acc cur Hn Hcur.
  - simpl. by rewrite app_nil_r.
  - cbn [seq map foldl]. rewrite needed_step_eq.
    rewrite (Hcur ltac:(lia)). clear Hcur.
    change (count (descriptor_at c name ids (j0 * c)))
      with (length (slice ids (j0 * c) (j0 * c + c))).
    rewrite slice_length, filter_cons.
    rewrite IH.
    + change ((Z.of_nat (j0 * c) <? e)%Z &&
              (s <? Z.of_nat (j0 * c) + Z.of_nat (Nat.min c (length ids - j0 * c)))%Z)
        with (overlaps c (length ids) s e j0).
      destruct (overlaps c (length ids) s e j0).
      * rewrite decide_True by done. cbn [map]. by rewrite <- app_assoc.
      * by rewrite decide_False by done.
    + lia.
    + intros Hk.
      assert (S j0 * c < length ids) by (apply ceil_div_lt; lia).
      lia.
Qed.

Lemma needed_range c len s lim :
  0 < c -> 0 < lim ->
  filter (fun j => overlaps c len (Z.of_nat s) (Z.of_nat s + Z.of_nat lim) j = true)
         (seq 0 (ceil_div len c))
  = if s <? len
    then seq (s / c) (Nat.min (ceil_div (s + lim) c) (ceil_div len c) - s / c)
    else [].
Proof.
  intros Hc Hlim. destruct (Nat.ltb_spec s len) as [Hs|Hs].
  - rewrite (filter_ext_in _ (fun j => s / c <= j /\ j < ceil_div (s + lim) c)).
    { rewrite filter_seq_range. by rewrite Nat.max_0_r. }
    intros j Hj. apply elem_of_seq in Hj as [_ Hj]. simpl in Hj.
    assert (Hjc : j * c < len) by (by apply ceil_div_lt).
    unfold overlaps. rewrite andb_true_iff, !Z.ltb_lt.
    pose proof (Nat.mul_succ_div_gt s c ltac:(lia)) as Hdiv.
    split.
    + intros [He Hst]. split.
      * assert (s / c < S j); [|lia]. apply Nat.Div0.div_lt_upper_bound; lia.
      * apply lt_ceil_div; lia.
    + intros [Ha Hb]. apply ceil_div_lt in Hb; [|done]. split; [lia|]. nia.
  - apply filter_none, Forall_forall. intros j Hj. apply elem_of_seq in Hj as [_ Hj].
    simpl in Hj. assert (Hjc : j * c < len) by (by apply ceil_div_lt).
    unfold overlaps. rewrite andb_true_iff, !Z.ltb_lt.
    remember (j * c) as x. lia.
Qed.

Lemma chunk_key_inj (name : string) (j j' : nat) :
  name +:+ "-" +:+ str_of_nat j = name +:+ "-" +:+ str_of_nat j' -> j = j'.
Proof.
  intros Heq. apply (inj (String.app name)) in Heq.
  apply (inj (String.app "-")) in Heq. by apply (inj pretty) in Heq.
Qed.

Lemma load_chunk_run fetch path c name ids acc cache j :
  0 < c ->
  serves fetch path c name ids ->
  cache_sound cache c name ids ->
  j < ceil_div (length ids) c ->
  exists cache',
    load_chunk fetch path name acc (descriptor_at c name ids (j * c)) cache
    = (Ok (acc ++ slice ids (j * c) (j * c + c)), cache') /\
    cache_sound cache' c name ids.
Proof.
  intros Hc Hserves Hsound Hj. unfold load_chunk.
  change (index (descriptor_at c name ids (j * c))) with (j * c / c).
  rewrite Nat.div_mul by lia. rewrite bind_get.
  destruct (dict_lookup cache (name +:+ "-" +:+ str_of_nat j)) as [l|] eqn:Hl.
  - apply Hsound in Hl as ->. by exists cache.
  - rewrite (Hserves j Hj), bind_modify.
    eexists. split; [reflexivity|].
    intros j' l'. rewrite dict_lookup_setitem. case_decide as Heq.
    + apply chunk_key_inj in Heq as <-. by intros [= <-].
    + apply Hsound.
Qed.

Lemma load_loop fetch path c name ids :
  0 < c ->
  serves fetch path c name ids ->
  forall js acc cache,
    Forall (fun j => j < ceil_div (length ids) c) js ->
    cache_sound cache c name ids ->
    exists cache',
      for_fold (map (descriptor_at c name ids) (map (fun j => j * c) js)) acc
               (load_chunk fetch path name) cache
      = (Ok (acc ++ concat (map (fun j => slice ids (j * c) (j * c + c)) js)), cache') /\
      cache_sound cache' c name ids.
Proof.
  intros Hc Hserves. induction js as [|j js IH]; intros acc cache Hjs Hsound.
  - exists cache. simpl. by rewrite app_nil_r.
  - apply Forall_cons in Hjs as [Hj Hjs]. cbn [map for_fold concat].
    destruct (load_chunk_run fetch path c name ids acc cache j Hc Hserves Hsound Hj)
      as (cache1 & Hrun & Hsound1).
    erewrite bind_ok; [|exact Hrun].
    destruct (IH (acc ++ slice ids (j * c) (j * c + c)) cache1 Hjs Hsound1)
      as (cache' & Hrun' & Hsound').
    exists cache'. split; [|done]. rewrite Hrun'. by rewrite <- app_assoc.
Qed.

(** X16: on an index entry and chunk files as the organizer makes them (chunk
    size [c]), with a server that has the files and a cache that agrees with
    them, [getCommentsForPost] for page [page >= 1] and [limit > 0] resolves
    to the [limit] identifiers that start at the beginning of the chunk that
    holds position [(page - 1) * limit], not at that position itself: the
    offset [startIndex % limit] of the final [slice] is always 0.  Past the
    last identifier the page is empty.  [total] is the number of identifiers
    and [hasMore] tells whether the end of the page is before it. *)
Theorem X16_loader_page_starts_at_chunk
    (fetch : string -> option chunk_data) (path name : string)
    (posts : odict string post_entry) (c : nat) (ids : list json)
    (cache : odict string (list json)) (page limit : Z) :
  0 < c ->
  dict_lookup posts name = Some (entry_of c name ids) ->
  serves fetch path c name ids ->
  cache_sound cache c name ids ->
  (1 <= page)%Z ->
  (0 < limit)%Z ->
  let s := Z.to_nat ((page - 1) * limit) in
  exists cache',
    getCommentsForPost fetch path (Some posts) name (Some page) (Some limit) cache
    = (Ok {| pg_comments :=
               if s <? length ids
               then take (Z.to_nat limit) (drop (c * (s / c)) ids)
               else [];
             pg_total := length ids;
             pg_hasMore := ((page - 1) * limit + limit <? Z.of_nat (length ids))%Z |},
       cache') /\
    cache_sound cache' c name ids.
Proof.
  intros Hc Hlook Hserves Hsound Hpage Hlimit s.
  assert (Hs : ((page - 1) * limit)%Z = Z.of_nat s).
  { unfold s. rewrite Z2Nat.id; [done|]. apply Z.mul_nonneg_nonneg; lia. }
  assert (Hlim : limit = Z.of_nat (Z.to_nat limit)) by lia.
  unfold getCommentsForPost, get_property. rewrite Hlook. cbn [default].
  unfold needed_chunks. cbn [chunks entry_of]. unfold starts_of.
  rewrite (needed_loop c name ids _ _ Hc (ceil_div (length ids) c) 0 [] 0%Z)
    by (done || (intros _; lia)).
  cbn [app]. unfold id. rewrite Hs.
  replace (Z.of_nat s + limit)%Z with (Z.of_nat s + Z.of_nat (Z.to_nat limit))%Z by lia.
  rewrite needed_range by lia.
  assert (Hrem : js_rem (Z.of_nat s) limit = Some 0%Z).
  { unfold js_rem. destruct (Z.eqb_spec limit 0) as [?|Hne]; [lia|].
    rewrite <- Hs. by rewrite Z.rem_mul. }
  rewrite Hrem. cbn [option_map]. rewrite Z.add_0_l.
  assert (Hslice : forall loaded : list json,
            js_slice loaded (Some 0%Z) (Some limit) = take (Z.to_nat limit) loaded).
  { intros loaded. unfold js_slice, js_position.
    destruct (Z.ltb_spec limit 0) as [?|_]; [lia|]. cbn [Z.ltb Z.compare Z.to_nat].
    rewrite Nat.min_0_l, Nat.sub_0_r. cbn [drop]. apply take_min_length. }
  destruct (Nat.ltb_spec s (length ids)) as [Hin|Hout].
  - set (a := s / c).
    set (k := Nat.min (ceil_div (s + Z.to_nat limit) c) (ceil_div (length ids) c) - a).
    assert (Ha : a * c <= s).
    { unfold a. pose proof (Nat.div_mod_eq s c). nia. }
    destruct (load_loop fetch path c name ids Hc Hserves (seq a k) [] cache)
      as (cache' & Hrun & Hsound'); [|done|].
    { apply Forall_forall. intros j Hj. apply elem_of_seq in Hj. unfold k in Hj. lia. }
    exists cache'. split; [|done].
    erewrite bind_ok; [|exact Hrun]. unfold ret. rewrite Hslice. cbn [app].
    rewrite concat_slices_from, take_take.
    replace (c * a) with (a * c) by lia.
    do 3 f_equal.
    destruct (decide (ceil_div (s + Z.to_nat limit) c <= ceil_div (length ids) c)) as [Hb|Hb].
    + pose proof (ceil_div_ge (s + Z.to_nat limit) c Hc). f_equal.
      rewrite Nat.min_l; [done|]. unfold k. rewrite Nat.min_l by done. nia.
    + pose proof (ceil_div_ge (length ids) c Hc).
      assert (Hk : length (drop (a * c) ids) <= k * c).
      { rewrite length_drop. unfold k. rewrite Nat.min_r by lia. nia. }
      rewrite <- (take_min_length _ (Z.to_nat limit)).
      rewrite <- (take_min_length _ (Nat.min _ _)). f_equal. lia.
  - exists cache. split; [|done]. cbn [map for_fold]. rewrite bind_ret.
    unfold ret. by rewrite Hslice, take_nil.
Qed.

Lemma X16_loader_page_starts_at_chunk_witness :
  exists cache',
    getCommentsForPost five_server "db" (Some [("p", entry_of 4 "p" five_ids)]) "p"
      (Some 2%Z) (Some 2%Z) []
    = (Ok {| pg_comments := [JStr "a"; JStr "b"]; pg_total := 5; pg_hasMore := true |},
       cache').
Proof.
  destruct (X16_loader_page_starts_at_chunk five_server "db" "p"
              [("p", entry_of 4 "p" five_ids)] 4 five_ids [] 2 2)
    as (cache' & Hrun & _).
  - lia.
  - reflexivity.
  - intros [|[|j]] Hj; [reflexivity|reflexivity|].
    exfalso. vm_compute in Hj. lia.
  - intros j l Hl. done.
  - lia.
  - lia.
  - exists cache'. exact Hrun.
Defined.

(** ** Index and summary, again *)

Lemma sum_list_map_perm {A} (f : A -> nat) (l l' : list A) :
  l ≡ₚ l' -> sum_list (map f l) = sum_list (map f l').
Proof.
  induction 1 as [|x l l' _ IH|x y l|l1 l2 l3 _ IH1 _ IH2]; cbn [map];
    rewrite ?sum_list_cons; lia.
Qed.

Lemma last_snoc2 {A} (l : list A) (a b : A) : last (l ++ [a; b]) = Some b.
Proof. change (l ++ [a; b]) with (l ++ [a] ++ [b]). by rewrite app_assoc, last_snoc. Qed.

(** X17: after [create_chunked_files] and [create_index_files] on a new
    organizer, the summary is the last file written; it lists each post that
    has comments once, with the number of its comments, at least 1; its
    length is the [total_posts] of the stats and its counts add up to their
    [total_comments], which is the number of comments of all the posts. *)
Theorem X17_summary_matches_stats (cdir odir : string) (m : pydict (list json)) :
  NoDup (dict_keys m) ->
  Forall str_key m ->
  exists self1 self2 post_list st,
    create_chunked_files m (init cdir odir) = (Ok tt, self1) /\
    create_index_files self1 = (Ok tt, self2) /\
    last (written self2) = Some (path_join odir "summary.json", SummaryFile post_list st) /\
    st = stats (index_data self2) /\
    length post_list = stats_total_posts st /\
    sum_list (map comment_count post_list) = stats_total_comments st /\
    stats_total_comments st = sum_list (map (fun item => length (snd item)) m) /\
    NoDup (map sp_shortcode post_list) /\
    (forall p, p ∈ post_list <->
       exists name ids, dict_lookup m (KStr name) = Some ids /\ ids <> [] /\
                        p = {| sp_shortcode := KStr name; comment_count := length ids |}).
Proof.
  intros Hnd Hstr.
  eexists _, _, _, _. split.
  { apply create_chunked_files_run; try done. cbn [init chunk_size]. lia. }
  split; [apply create_index_files_run|].
  cbn [chunked with_posts_written index_data posts stats written init output_dir chunk_size
       stats_total_posts stats_total_comments app].
  set (key := fun x : summary_post => Z.of_nat (comment_count x)).
  set (ps := omap (item_entry 1000) m).
  split; [by rewrite last_snoc2|]. split; [done|].
  split_and!.
  - rewrite sort_reverse_length. unfold make_post_list. by rewrite length_map.
  - rewrite (sum_list_map_perm _ _ _ (sort_reverse_perm key (make_post_list ps))).
    unfold make_post_list. rewrite map_map. cbn [comment_count].
    by apply posts_total_comments.
  - done.
  - eapply NoDup_Permutation_proper.
    { apply Permutation_map, (sort_reverse_perm key (make_post_list ps)). }
    unfold make_post_list. rewrite map_map. cbn [sp_shortcode].
    by apply (posts_keys_NoDup 1000).
  - intros p. rewrite elem_of_sort_reverse. unfold make_post_list.
    rewrite list_elem_of_fmap. split.
    + intros ([k e] & -> & Hin).
      apply elem_of_posts in Hin as (name & ids & -> & Hne & Hl & ->); [|done].
      by exists name, ids.
    + intros (name & ids & Hl & Hne & ->).
      exists (KStr name, entry_of 1000 name ids). split; [done|].
      apply dict_lookup_Some_elem. by apply posts_lookup.
Qed.

Lemma X17_summary_matches_stats_witness :
  exists self1 self2 post_list st,
    create_chunked_files [(KStr "p", [JStr "a"]); (KStr "q", [JStr "b"; JStr "c"]); (KStr "r", [])]
      (init "in" "out") = (Ok tt, self1) /\
    create_index_files self1 = (Ok tt, self2) /\
    last (written self2) = Some (path_join "out" "summary.json", SummaryFile post_list st) /\
    map comment_count post_list = [2; 1].
Proof.
  destruct (X17_summary_matches_stats "in" "out"
              [(KStr "p", [JStr "a"]); (KStr "q", [JStr "b"; JStr "c"]); (KStr "r", [])])
    as (self1 & self2 & post_list & st & H1 & H2 & H3 & _).
  - compute_done.
  - repeat constructor; eexists; reflexivity.
  - exists self1, self2, post_list, st. split_and!; try done.
    assert (Hs1 : self1 = snd (create_chunked_files
              [(KStr "p", [JStr "a"]); (KStr "q", [JStr "b"; JStr "c"]); (KStr "r", [])]
              (init "in" "out"))) by (by rewrite H1).
    assert (Hs2 : self2 = snd (create_index_files self1)) by (by rewrite H2).
    rewrite Hs2, Hs1 in H3. vm_compute in H3. by injection H3 as <- _.
Defined.

(** ** The two readers of a comment file *)














(** ** The statistics *)

Lemma analyze_json_file_ids_in_sets content a :
  analyze_json_file content = Some a -> ids_in_sets a.
Proof.
  intros ->%analyze_json_file_items.
  destruct (analyze_entries_run (items_of content) analysis_start)
    as (st' & Hrun & _ & _ & Hin).
  rewrite Hrun. apply Hin. constructor.
Qed.

Lemma ids_in_sets_hashable a : ids_in_sets a -> Forall hashable (all_comment_ids a).
Proof.
  intros Hids. eapply Forall_impl; [exact Hids|].
  intros x (s & k & Hk & _). unfold hashable. by rewrite Hk.
Qed.

Lemma ids_in_sets_no_posts a :
  ids_in_sets a -> shortcode_to_comments a = [] -> all_comment_ids a = [].
Proof.
  unfold ids_in_sets. intros Hids Hnil. rewrite Hnil in Hids.
  destruct (all_comment_ids a) as [|x l]; [done|].
  apply Forall_cons in Hids as [(s & k & _ & Hk) _]. by apply elem_of_nil in Hk.
Qed.

Lemma NoDup_foldl_set_add ks : forall s, NoDup s -> NoDup (foldl set_add s ks).
Proof.
  induction ks as [|k ks IH]; intros s Hs; [done|].
  cbn [foldl]. by apply IH, NoDup_set_add.
Qed.

(** What the loop over the files keeps: no post twice, identifiers that can
    be hashed, and as many of them as the files have. *)
Lemma aggregate_loop contents : forall acc,
  NoDup (all_shortcodes_with_comments acc) ->
  Forall hashable (collected_comment_ids acc) ->
  NoDup (all_shortcodes_with_comments (foldl aggregate_file acc contents)) /\
  Forall hashable (collected_comment_ids (foldl aggregate_file acc contents)) /\
  length (collected_comment_ids (foldl aggregate_file acc contents))
  = length (collected_comment_ids acc) + sum_list (map ids_collected contents).
Proof.
  induction contents as [|content contents IH]; intros acc Hnd Hh.
  - cbn [foldl map]. split_and!; [done|done|]. simpl. lia.
  - cbn [foldl map]. rewrite sum_list_cons.
    unfold aggregate_file at 2 4 6, ids_collected at 1.
    destruct (analyze_json_file content) as [a|] eqn:Ha.
    2:{ destruct (IH acc Hnd Hh) as (? & ? & ?). split_and!; [done|done|lia]. }
    pose proof (analyze_json_file_ids_in_sets _ _ Ha) as Hids.
    destruct (shortcode_to_comments a) as [|item m] eqn:Hm.
    + rewrite (ids_in_sets_no_posts a Hids Hm).
      destruct (IH acc Hnd Hh) as (? & ? & ?). split_and!; [done|done|simpl; lia].
    + match goal with
      | |- context [foldl aggregate_file ?acc' contents] =>
          destruct (IH acc') as (H1 & H2 & H3)
      end.
      * cbn [all_shortcodes_with_comments]. by apply NoDup_foldl_set_add.
      * cbn [collected_comment_ids]. apply Forall_app. split; [done|].
        by apply ids_in_sets_hashable.
      * split_and!; [done|done|]. rewrite H3. cbn [collected_comment_ids].
        rewrite length_app. lia.
Qed.

Lemma length_dict_setitem {K V} `{EqDecision K} (m : odict K V) k v :
  length (dict_setitem m k v) <= S (length m).
Proof.
  induction m as [|[k0 v0] m IH]; simpl; [lia|].
  case_decide; simpl; lia.
Qed.

Lemma count_ids_total l : forall acc,
  Forall hashable l ->
  exists c, count_ids acc l = Ok c /\ length c <= length acc + length l.
Proof.
  induction l as [|x l IH]; intros acc Hl.
  - exists acc. simpl. split; [done|lia].
  - apply Forall_cons in Hl as [Hx Hl]. cbn [count_ids].
    unfold hashable in Hx. destruct (hash_key x) as [k|]; [|done].
    destruct (IH (dict_setitem acc k (default 0 (dict_lookup acc k) + 1)) Hl) as (c & Hc & Hlen).
    exists c. split; [done|].
    pose proof (length_dict_setitem acc k (default 0 (dict_lookup acc k) + 1)).
    cbn [length]. lia.
Qed.

Lemma read_metadata_total rows : forall seen,
  Forall (fun row => row <> None) rows ->
  NoDup seen ->
  exists metadata, read_metadata seen rows = Ok metadata /\ NoDup metadata.
Proof.
  induction rows as [|row rows IH]; intros seen Hrows Hseen.
  - by exists seen.
  - apply Forall_cons in Hrows as [Hrow Hrows].
    destruct row as [v|]; [|done]. cbn [read_metadata].
    destruct (String.eqb (strip v) ""); [by apply IH|].
    case_decide; [by apply IH|].
    apply IH; [done|].
    apply NoDup_app. split_and!; [done| |apply NoDup_singleton].
    intros x Hx ->%list_elem_of_singleton. done.
Qed.

(** Two sets have as many members in common, whichever is asked first. *)
Lemma length_common (ms : list string) (ws : list pykey) :
  NoDup ms -> NoDup ws ->
  length (filter (fun s => KStr s ∈ ws) ms)
  = length (filter (fun k => k ∈ map KStr ms) ws).
Proof.
  intros Hms Hws.
  assert (Hinj : Inj (=) (=) KStr) by (by intros s1 s2 [= ->]).
  rewrite <- (length_map KStr (filter _ ms)).
  apply Permutation_length, NoDup_Permutation.
  - apply (NoDup_fmap_2 KStr). by apply NoDup_filter.
  - by apply NoDup_filter.
  - intros k. rewrite list_elem_of_fmap, list_elem_of_filter. split.
    + intros (s & -> & [Hin Hs]%list_elem_of_filter). split; [|done].
      apply list_elem_of_fmap. by exists s.
    + intros [(s & -> & Hs)%list_elem_of_fmap Hin].
      exists s. split; [done|]. by apply list_elem_of_filter.
Qed.

(** X19: when every row of the metadata has the column, [main] of the
    analysis returns, and its statistics are consistent: the posts of the
    metadata and the extra posts are as many as the posts with comments and
    the missing posts; there are no more duplicate identifiers than unique
    ones and no more unique ones than identifiers in all; the identifiers in
    all are those of all the files with a [.json] name, the files that the
    loop passes over having none; at most 20 posts are listed, the most
    commented first; and the file of the missing posts is written exactly
    when there is one. *)
Theorem X19_statistics_consistent
    (listing : list (string * option json)) (rows : list (option string)) :
  Forall (fun row => row <> None) rows ->
  exists st missing_file,
    analyze_main listing rows = Ok (st, missing_file) /\
    total_posts_in_metadata st + extra_posts st = posts_with_comments st + missing_posts st /\
    duplicate_comments st <= unique_comments st /\
    unique_comments st <= total_comment_ids st /\
    total_comment_ids st
    = sum_list (map (fun f => ids_collected (snd f))
                    (filter (fun f => is_json_file (fst f) = true) listing)) /\
    length (top_commented_posts st) <= 20 /\
    descending (fun x => Z.of_nat (snd x)) (top_commented_posts st) /\
    (missing_file = None <-> missing_posts st = 0).
Proof.
  intros Hrows. unfold analyze_main. fold aggregate_start.
  set (json_files := filter (fun f => is_json_file (fst f) = true) listing).
  destruct (aggregate_loop (map snd json_files) aggregate_start)
    as (Hnd & Hh & Hlen); [constructor|constructor|].
  set (agg := foldl aggregate_file aggregate_start (map snd json_files)) in *.
  destruct (count_ids_total (collected_comment_ids agg) [] Hh) as (c & -> & Hc).
  destruct (read_metadata_total rows [] Hrows) as (metadata & -> & Hmeta); [constructor|].
  eexists _, _. split; [reflexivity|].
  cbn [total_posts_in_metadata posts_with_comments total_comment_ids unique_comments
       duplicate_comments missing_posts extra_posts top_commented_posts].
  split_and!.
  - pose proof (length_filter_split (fun s => KStr s ∈ all_shortcodes_with_comments agg)
                  metadata) as H1.
    pose proof (length_filter_split (fun k => k ∈ map KStr metadata)
                  (all_shortcodes_with_comments agg)) as H2.
    pose proof (length_common metadata (all_shortcodes_with_comments agg) Hmeta Hnd) as H3.
    lia.
  - apply length_filter.
  - simpl in Hc. lia.
  - rewrite Hlen. cbn [aggregate_start collected_comment_ids length]. by rewrite map_map.
  - rewrite length_take. lia.
  - apply descending_take, sort_reverse_descending.
  - destruct (filter _ metadata); split; try done.
Qed.

Lemma X19_statistics_consistent_witness :
  exists st missing_file,
    analyze_main
      [("a.json", Some (JDict [("u", JDict [("target", JStr "p");
                 ("logs", JList [JDict [("storedIds", JList [JStr "1"; JStr "2"; JStr "1"])]])])]))]
      [Some " p "; Some "q"; Some ""]
    = Ok (st, missing_file) /\
    total_comment_ids st = 3 /\ unique_comments st = 2 /\ duplicate_comments st = 1 /\
    missing_file = Some ["q"].
Proof.
  destruct (X19_statistics_consistent
      [("a.json", Some (JDict [("u", JDict [("target", JStr "p");
                 ("logs", JList [JDict [("storedIds", JList [JStr "1"; JStr "2"; JStr "1"])]])])]))]
      [Some " p "; Some "q"; Some ""])
    as (st & missing_file & Hrun & _).
  - repeat constructor; done.
  - exists st, missing_file. split; [done|].
    vm_compute in Hrun. injection Hrun as <- <-. by split_and!.
Defined.

(** ** Records by video, again *)

Lemma filter_disjoint_union {A} (P Q : A -> Prop) `{!forall x, Decision (P x)}
    `{!forall x, Decision (Q x)} (l : list A) :
  (forall x, P x -> Q x -> False) ->
  filter P l ++ filter Q l ≡ₚ filter (fun x => P x \/ Q x) l.
Proof.
  intros Hdis. induction l as [|x l IH]; [done|].
  rewrite !filter_cons.
  destruct (decide (P x)) as [Hp|Hp], (decide (Q x)) as [Hq|Hq].
  - by destruct (Hdis x).
  - rewrite decide_True by (by left). cbn [app]. by rewrite IH.
  - rewrite decide_True by (by right). rewrite <- Permutation_middle. by rewrite IH.
  - rewrite decide_False by tauto. done.
Qed.

(** The groups of a list by a key, put end to end, are the records whose
    key is one of the keys asked for. *)
Lemma concat_groups (cs : list comment) (ks : list string) :
  NoDup ks ->
  concat (map (fun v => of_video v cs) ks) ≡ₚ filter (fun c => video_id c ∈ ks) cs.
Proof.
  induction 1 as [|k ks Hk Hks IH]; cbn [map concat].
  - rewrite filter_none; [done|]. apply Forall_forall. intros c _. apply not_elem_of_nil.
  - rewrite IH. unfold of_video. rewrite filter_disjoint_union.
    + erewrite list_filter_iff; [done|]. intros c. cbn beta. rewrite elem_of_cons. done.
    + intros c -> Hin. done.
Qed.

Lemma concat_map_perm {A B} (f g : A -> list B) (ks : list A) :
  (forall k, f k ≡ₚ g k) -> concat (map f ks) ≡ₚ concat (map g ks).
Proof.
  intros Hfg. induction ks as [|k ks IH]; [done|].
  cbn [map concat]. by rewrite Hfg, IH.
Qed.

(** X20: the index by video neither loses nor repeats a record: its lists,
    put end to end, are a rearrangement of the input; and it has the same
    videos, in the same order, as the word frequency index. *)
Theorem X20_video_index_partitions (comments : list comment) :
  concat (map snd (create_video_comment_index comments)) ≡ₚ comments /\
  sum_list (map (fun item => length (snd item)) (create_video_comment_index comments))
  = length comments /\
  dict_keys (create_video_comment_index comments)
  = dict_keys (create_word_frequency_index comments).
Proof.
  assert (Hperm : concat (map snd (create_video_comment_index comments)) ≡ₚ comments).
  { unfold create_video_comment_index. rewrite per_video_loop, map_map. cbn [snd].
    rewrite (concat_map_perm _ (fun v => of_video v comments))
      by (intros v; apply sorted_perm).
    rewrite concat_groups by apply NoDup_first_occurrences.
    rewrite filter_all; [done|]. apply Forall_forall. intros c Hc.
    apply elem_of_first_occurrences, list_elem_of_fmap. by exists c. }
  split_and!; [done| |].
  - rewrite <- (Permutation_length Hperm), length_concat, map_map. done.
  - unfold create_video_comment_index, create_word_frequency_index.
    rewrite (per_video_loop (sorted likes_then_date)), (per_video_loop profile).
    unfold dict_keys. by rewrite !map_map.
Qed.

(** * Text and rankings, in full *)

(** ** Characters and lower case *)

Lemma nat_of_ascii_inj (c c' : ascii) : nat_of_ascii c = nat_of_ascii c' -> c = c'.
Proof.
  intros Heq. rewrite <- (ascii_nat_embedding c), <- (ascii_nat_embedding c').
  by rewrite Heq.
Qed.

Lemma is_upper_capital c : is_upper c = true <-> capital c.
Proof. unfold is_upper, capital. cbn zeta. rewrite andb_true_iff, !Nat.leb_le. done. Qed.

Lemma is_letter_letter c : is_letter c = true <-> letter c.
Proof.
  unfold is_letter, letter, capital. cbn zeta.
  rewrite orb_true_iff, !andb_true_iff, !Nat.leb_le. done.
Qed.

Lemma is_word_char_word_character c : is_word_char c = true <-> word_character c.
Proof.
  unfold is_word_char, word_character. cbn zeta.
  rewrite !orb_true_iff, andb_true_iff, !Nat.leb_le, Nat.eqb_eq, is_letter_letter. tauto.
Qed.


Lemma lower_char_spec c :
  (capital c -> nat_of_ascii (lower_char c) = nat_of_ascii c + 32) /\
  (~ capital c -> lower_char c = c).
Proof.
  unfold lower_char. destruct (is_upper c) eqn:Hup.
  - apply is_upper_capital in Hup. split; [|done].
    intros _. apply nat_ascii_embedding. destruct Hup. lia.
  - split; [|done]. intros Hc. apply is_upper_capital in Hc. congruence.
Qed.

Lemma lower_lower_cased s : lower_cased s (lower s).
Proof.
  unfold lower_cased, lower. rewrite list_ascii_of_string_of_list_ascii.
  induction (list_ascii_of_string s) as [|c l IH]; constructor; [|done].
  apply lower_char_spec.
Qed.

Lemma list_ascii_of_string_inj (s s' : string) :
  list_ascii_of_string s = list_ascii_of_string s' -> s = s'.
Proof.
  intros Heq. rewrite <- (string_of_list_ascii_of_string s),
    <- (string_of_list_ascii_of_string s'). by rewrite Heq.
Qed.

(** Lower-casing has one result. *)
Lemma lower_cased_unique s low low' : lower_cased s low -> lower_cased s low' -> low = low'.
Proof.
  unfold lower_cased. intros H1 H2. apply list_ascii_of_string_inj.
  revert H2. generalize (list_ascii_of_string low').
  induction H1 as [|c c1 l l1 [Hc1 Hn1] _ IH]; intros l' H2.
  - by apply Forall2_nil_inv_l in H2.
  - apply Forall2_cons_inv_l in H2 as (c2 & l2 & [Hc2 Hn2] & H2 & ->).
    f_equal; [|by apply IH].
    destruct (decide (capital c)) as [Hc|Hc].
    + apply nat_of_ascii_inj. rewrite Hc1, Hc2; done.
    + rewrite Hn1, Hn2; done.
Qed.

(** ** Maximal runs *)

Lemma maximal_runs_sep P c s rs :
  ~ P c -> maximal_runs P s rs -> maximal_runs P (c :: s) rs.
Proof.
  intros Hc Hruns. destruct Hruns as [s Hs|sep r rest rs Hsep Hr HPr Hrest Hruns].
  - apply maximal_runs_none. by constructor.
  - apply (maximal_runs_next P (c :: sep)); try done. by constructor.
Qed.

Lemma maximal_runs_iff (P Q : ascii -> Prop) s rs :
  (forall c, P c <-> Q c) -> maximal_runs P s rs -> maximal_runs Q s rs.
Proof.
  intros HPQ. induction 1 as [s Hs|sep r rest rs Hsep Hr HPr Hrest _ IH].
  - apply maximal_runs_none. eapply Forall_impl; [exact Hs|].
    intros c Hn Hq. by apply Hn, HPQ.
  - apply maximal_runs_next; try done.
    + eapply Forall_impl; [exact Hsep|]. intros c Hn Hq. by apply Hn, HPQ.
    + eapply Forall_impl; [exact HPr|]. intros c Hp. by apply HPQ.
    + destruct rest as [|c rest]; [done|]. simpl in *. intros Hq. by apply Hrest, HPQ.
Qed.

(** What [runs_acc] returns: started with no run, the maximal runs of the
    text; started in a run, that run carried on, then the maximal runs of
    what follows it. *)
Lemma runs_acc_maximal (p : ascii -> bool) (s : list ascii) :
  maximal_runs (fun c => p c = true) s (runs_acc p [] s) /\
  forall cur, cur <> [] ->
    exists r rest rs,
      runs_acc p cur s = (rev cur ++ r) :: rs /\
      s = r ++ rest /\
      Forall (fun c => p c = true) r /\
      starts_outside (fun c => p c = true) rest /\
      maximal_runs (fun c => p c = true) rest rs.
Proof.
  induction s as [|c s [IH1 IH2]].
  - split; [by apply maximal_runs_none|].
    intros cur Hcur. exists [], [], []. simpl. rewrite app_nil_r.
    split_and!; try done; [by destruct cur | by apply maximal_runs_none].
  - assert (Hfalse : p c = false -> maximal_runs (fun c => p c = true) (c :: s) (runs_acc p [] s)).
    { intros Hc. apply maximal_runs_sep; [congruence | done]. }
    split.
    + simpl. destruct (p c) eqn:Hc; [|by apply Hfalse].
      destruct (IH2 [c]) as (r & rest & rs & -> & -> & Hr & Hrest & Hruns); [done|].
      apply (maximal_runs_next _ [] (c :: r) rest rs); try done. by constructor.
    + intros cur Hcur. simpl. destruct (p c) eqn:Hc.
      * destruct (IH2 (c :: cur)) as (r & rest & rs & -> & -> & Hr & Hrest & Hruns); [done|].
        exists (c :: r), rest, rs. simpl. rewrite <- app_assoc.
        split_and!; try done. by constructor.
      * exists [], (c :: s), (runs_acc p [] s). rewrite app_nil_r.
        split_and!; try done; [by destruct cur | simpl; congruence | by apply Hfalse].
Qed.

Lemma run_split_unique (Q : ascii -> Prop) (l1 : list ascii) : forall l1' l2 l2',
  Forall Q l1 -> Forall Q l1' ->
  starts_outside Q l2 -> starts_outside Q l2' ->
  l1 ++ l2 = l1' ++ l2' ->
  l1 = l1' /\ l2 = l2'.
Proof.
  induction l1 as [|a l1 IH]; intros [|a' l1'] l2 l2' H1 H1' H2 H2' Heq; simpl in Heq.
  - done.
  - subst l2. apply Forall_cons in H1' as [Ha _]. by destruct H2.
  - subst l2'. apply Forall_cons in H1 as [Ha _]. by destruct H2'.
  - injection Heq as <- Heq.
    apply Forall_cons in H1 as [_ H1]. apply Forall_cons in H1' as [_ H1'].
    destruct (IH l1' l2 l2' H1 H1' H2 H2' Heq) as [-> ->]. done.
Qed.

(** A text has one list of maximal runs. *)
Lemma maximal_runs_unique P s rs :
  maximal_runs P s rs -> forall rs', maximal_runs P s rs' -> rs = rs'.
Proof.
  induction 1 as [s Hs|sep r rest rs Hsep Hr HPr Hrest Hruns IH]; intros rs' H'.
  - inversion H' as [|sep' r' rest' rs1 Hsep' Hr' HPr' Hrest' Hruns' Heq]; [done|]. subst.
    destruct r' as [|x r']; [done|]. apply Forall_cons in HPr' as [Hx _].
    rewrite Forall_forall in Hs. exfalso. apply (Hs x); [|done].
    rewrite !elem_of_app. right. left. apply list_elem_of_here.
  - inversion H' as [s' Hs' Heq|sep' r' rest' rs1 Hsep' Hr' HPr' Hrest' Hruns' Heq]; subst.
    + destruct r as [|x r]; [done|]. apply Forall_cons in HPr as [Hx _].
      rewrite Forall_forall in Hs'. exfalso. apply (Hs' x); [|done].
      rewrite !elem_of_app. right. left. apply list_elem_of_here.
    + assert (Hout : forall (r0 rest0 : list ascii), r0 <> [] -> Forall P r0 ->
                starts_outside (fun c => ~ P c) (r0 ++ rest0)).
      { intros [|x r0] rest0 Hne HP0; [done|]. apply Forall_cons in HP0 as [Hx _].
        simpl. tauto. }
      destruct (run_split_unique (fun c => ~ P c) sep' sep (r' ++ rest') (r ++ rest))
        as [-> Heq']; try done; [by apply Hout | by apply Hout|].
      destruct (run_split_unique P r' r rest' rest) as [-> ->]; try done.
      f_equal. by apply IH.
Qed.

(** ** The words of a text *)


Lemma map_list_ascii_of_string_inj (ws ws' : list string) :
  map list_ascii_of_string ws = map list_ascii_of_string ws' -> ws = ws'.
Proof.
  revert ws'. induction ws as [|w ws IH]; intros [|w' ws'] Heq; try done.
  injection Heq as Hw Hws. f_equal; [by apply list_ascii_of_string_inj | by apply IH].
Qed.



Lemma length_string_of_list_ascii (r : list ascii) :
  String.length (string_of_list_ascii r) = length r.
Proof. induction r as [|c r IH]; simpl; [done | by rewrite IH]. Qed.

Lemma counted_filter (rs : list (list ascii)) :
  map list_ascii_of_string
    (filter (fun w => w ∉ stop_words)
       (filter (fun w => all_letters w && (3 <=? String.length w) = true)
          (map string_of_list_ascii rs)))
  = filter (fun r => Forall letter r /\ 3 <= length r /\
                     string_of_list_ascii r ∉ stop_words) rs.
Proof.
  induction rs as [|r rs IH]; [done|].
  cbn [map]. rewrite (filter_cons _ (string_of_list_ascii r)), (filter_cons _ r).
  assert (Hshape : all_letters (string_of_list_ascii r)
                   && (3 <=? String.length (string_of_list_ascii r)) = true
                   <-> Forall letter r /\ 3 <= length r).
  { unfold all_letters. rewrite list_ascii_of_string_of_list_ascii,
      length_string_of_list_ascii, andb_true_iff, Nat.leb_le, forallb_forall,
      Forall_forall.
    split; intros [Hl Hn]; (split; [|done]); intros c Hc.
    - apply is_letter_letter, Hl. by apply list_elem_of_In.
    - apply is_letter_letter, Hl. by apply list_elem_of_In. }
  destruct (decide (all_letters (string_of_list_ascii r)
                    && (3 <=? String.length (string_of_list_ascii r)) = true)) as [Hq|Hq].
  - rewrite filter_cons.
    destruct (decide (string_of_list_ascii r ∉ stop_words)) as [Hs|Hs].
    + rewrite decide_True by (apply Hshape in Hq; tauto).
      cbn [map]. by rewrite list_ascii_of_string_of_list_ascii, IH.
    + rewrite decide_False by tauto. done.
  - rewrite decide_False by tauto. done.
Qed.

(** The words that [content_words] returns are the words that count. *)
Lemma content_words_counted s : counted_words s (content_words s).
Proof.
  exists (lower s), (runs_acc is_word_char [] (list_ascii_of_string (lower s))).
  split; [apply lower_lower_cased|]. split.
  - eapply maximal_runs_iff; [|apply runs_acc_maximal].
    intros c. apply is_word_char_word_character.
  - unfold content_words, findall_words, runs. apply counted_filter.
Qed.

Lemma counted_words_unique s ws ws' : counted_words s ws -> counted_words s ws' -> ws = ws'.
Proof.
  intros (low & rs & Hlow & Hruns & Hws) (low' & rs' & Hlow' & Hruns' & Hws').
  rewrite (lower_cased_unique _ _ _ Hlow' Hlow) in Hruns'.
  rewrite (maximal_runs_unique _ _ _ Hruns' _ Hruns) in Hws'.
  apply map_list_ascii_of_string_inj. congruence.
Qed.

(** ** Rounding *)



(** ** Search index, in full *)





(** ** Liked words, in full *)






(** ** Word cloud, in full *)

Lemma counter_ties_sublist (ws : list string) (n : nat) (l : list string) :
  sublist (map fst (filter (fun x : string * nat => snd x = n)
                           (map (fun w => (w, occurrences w ws)) l))) l.
Proof.
  induction l as [|w l IH]; [done|].
  cbn [map]. destruct (decide (occurrences w ws = n)) as [Hn|Hn].
  - rewrite filter_cons_True by done. cbn [map fst]. by apply sublist_skip.
  - rewrite filter_cons_False by done. by apply sublist_cons.
Qed.

(** X13, for ASCII texts: the word cloud of a list of records holds the 20
    most frequent words that count, or all of them when there are fewer.
    The words that count are those of the texts joined by a blank: the
    maximal runs of word characters of the lower-cased text that are made of
    letters, have three of them or more and are no stop words.  The ranking
    has each word once, with the number of its occurrences in all the texts,
    the most frequent first, words of equal frequency in the order of their
    first occurrence; its first 20 entries are the cloud.  A word left out
    is no more frequent than a word listed. *)
Theorem X13_word_cloud_most_frequent (cs : list comment) :
  Forall (fun c => ascii_text (default "" (text c))) cs ->
  let ws := words_of cs in
  (forall c, get_text c = default "" (text c)) /\
  (forall s, counted_words s (content_words s)) /\
  (forall s l, counted_words s l -> l = content_words s) /\
  counted_words (join " " (map (fun c => default "" (text c)) cs)) ws /\
  (exists ranking,
      word_cloud cs = take 20 ranking /\
      ranking ≡ₚ map (fun w => (w, occurrences w ws)) (first_occurrences ws) /\
      NoDup (map fst ranking) /\
      descending (fun x => Z.of_nat (snd x)) ranking /\
      (forall n, sublist (map fst (filter (fun x => snd x = n) ranking))
                         (first_occurrences ws))) /\
  length (word_cloud cs) = Nat.min 20 (length (first_occurrences ws)) /\
  NoDup (map fst (word_cloud cs)) /\
  descending (fun x => Z.of_nat (snd x)) (word_cloud cs) /\
  (forall w n, (w, n) ∈ word_cloud cs ->
     n = occurrences w ws /\ 0 < n /\
     3 <= String.length w /\
     forallb is_lower_letter (list_ascii_of_string w) = true /\
     w ∉ stop_words) /\
  (forall w, w ∈ ws -> w ∉ map fst (word_cloud cs) ->
     forall w' n', (w', n') ∈ word_cloud cs -> occurrences w ws <= n').
Proof.
  intros _ ws.
  assert (Hjoin : content_words (join " " (map (fun c => default "" (text c)) cs)) = ws)
    by apply words_of_join.
  unfold word_cloud, most_common. cbn zeta. rewrite words_of_join, counter_eq.
  fold ws.
  set (c := map (fun w => (w, occurrences w ws)) (first_occurrences ws)).
  set (key := fun x : string * nat => Z.of_nat (snd x)).
  assert (Hc : forall w n, (w, n) ∈ c <-> w ∈ ws /\ n = occurrences w ws).
  { intros w n. unfold c. rewrite list_elem_of_fmap. split.
    - intros (w0 & [= -> ->] & Hin). split; [|done].
      exact (proj1 (elem_of_first_occurrences ws w0) Hin).
    - intros [Hin ->]. exists w. split; [done|].
      exact (proj2 (elem_of_first_occurrences ws w) Hin). }
  assert (Hsub : forall x, x ∈ take 20 (sort_reverse key c) -> x ∈ c).
  { intros x Hx. apply (elem_of_sort_reverse key).
    eapply elem_of_sublist; [exact Hx|apply sublist_take]. }
  assert (Hnd : NoDup (map fst (sort_reverse key c))).
  { rewrite (sort_reverse_perm key c). unfold c. rewrite map_map. simpl. rewrite map_id.
    apply NoDup_first_occurrences. }
  split_and!.
  - done.
  - apply content_words_counted.
  - intros s l Hl. apply (counted_words_unique s); [done|].
    apply content_words_counted.
  - rewrite <- Hjoin. apply content_words_counted.
  - exists (sort_reverse key c). split_and!.
    + done.
    + apply sort_reverse_perm.
    + done.
    + apply sort_reverse_descending.
    + intros n.
      assert (Hkey : forall x : string * nat, snd x = n <-> key x = Z.of_nat n)
        by (intros x; unfold key; lia).
      rewrite (list_filter_iff _ _ _ Hkey), sort_reverse_stable.
      rewrite <- (list_filter_iff _ _ _ Hkey). apply counter_ties_sublist.
  - rewrite length_take, sort_reverse_length. unfold c. rewrite length_map. lia.
  - eapply sublist_NoDup; [|apply (fmap_sublist fst), sublist_take]. done.
  - apply descending_take, sort_reverse_descending.
  - intros w n Hin. apply Hsub, Hc in Hin as [Hw ->].
    split; [done|]. split; [by apply occurrences_pos|].
    apply elem_of_words_of in Hw as (c0 & _ & Hw). by apply content_words_shape in Hw.
  - intros w Hw Hout w' n' Hin'.
    assert (Hin : (w, occurrences w ws) ∈ sort_reverse key c)
      by (by apply elem_of_sort_reverse, Hc).
    rewrite <- (take_drop 20 (sort_reverse key c)) in Hin.
    apply elem_of_app in Hin as [Hin|Hin].
    { exfalso. apply Hout. apply list_elem_of_fmap. by exists (w, occurrences w ws). }
    pose proof (sort_reverse_descending key c) as Hd. unfold descending in Hd.
    rewrite <- (take_drop 20 (sort_reverse key c)) in Hd.
    pose proof (StronglySorted_app_1_elem_of _ _ _ _ _ Hd Hin' Hin) as Hle.
    unfold key in Hle. simpl in Hle. lia.
Qed.

Lemma X13_word_cloud_most_frequent_witness :
  let cs := [full_comment "v1" "c1" "Great song, great beat" "ann" 3 "2024-01-01" 1;
             full_comment "v1" "c2" "The beat is GREAT" "bob" 0 "2024-01-02" 2] in
  Forall (fun c => ascii_text (default "" (text c))) cs /\
  word_cloud cs = [("great", 3); ("beat", 2); ("song", 1)] /\
  length (word_cloud cs) = 3 /\
  NoDup (map fst (word_cloud cs)).
Proof.
  cbn zeta.
  match goal with |- Forall _ ?l /\ _ => set (cs := l) end.
  assert (Hascii : Forall (fun c => ascii_text (default "" (text c))) cs)
    by (unfold ascii_text; repeat constructor; cbn; lia).
  split; [exact Hascii|].
  destruct (X13_word_cloud_most_frequent cs Hascii)
    as (_ & _ & _ & _ & _ & Hlen & Hnd & _).
  split_and!; [vm_compute; reflexivity | rewrite Hlen; reflexivity | exact Hnd].
Defined.
